(** * openpiv-xl: the multi-pass window-deformation engine

    A shallow embedding of [openpiv/windef.py] (the CPU engine) and
    [openpiv/windef_gpu.py] (the tiled GPU engine).

    Conventions of the embedding.
    - A 2-D NumPy/CuPy array is a shape together with an indexing function.
    - Floating-point numbers are idealised as exact rationals ([Q]); rounding
      is not modelled, and [astype(np.float32)] is the identity.
    - Python exceptions are values of [exn]; a function that may raise
      returns in the monad [M], which also records the calls made to the
      external collaborators (correlation, validation, repair, smoothing,
      persistence) in the order they happen.
    - The external collaborators themselves (SciPy's spline and resampling
      routines, the correlation engine, validation, outlier replacement,
      smoothing) are the fields of the class [Collaborators]; every theorem
      holds for all of them. *)

From Stdlib Require Import String.
From Stdlib Require Import List ZArith QArith Qround Bool Lia Arith Lqa.
Import ListNotations.

Set Implicit Arguments.
Set Warnings "-abstract-large-number".
Close Scope Q_scope.
Open Scope nat_scope.

(* ===================================================================== *)
(** * Python values: exceptions, results, slices                         *)
(* ===================================================================== *)

Inductive exn : Type :=
| ValueError (msg : string)
| IndexError
| UnboundLocalError (name : string)
| AttributeError (name : string)
| InvalidParameter.

Inductive result (A : Type) : Type :=
| Ok (a : A)
| Raise (e : exn).
Arguments Ok {A} a.
Arguments Raise {A} e.

(** [seq[lo:hi]] on a sequence of length [n], for integer bounds: the pair
    (start, stop) after Python's normalisation of negative and overlong
    indices. *)
Definition py_clip (n : nat) (i : Z) : nat :=
  if (i <? 0)%Z then Z.to_nat (Z.max (i + Z.of_nat n) 0)
  else Z.to_nat (Z.min i (Z.of_nat n)).

Definition py_slice (n : nat) (lo hi : Z) : nat * nat :=
  (py_clip n lo, py_clip n hi).

(** [range(0, stop, step)] for a positive step. *)
Definition py_range_step (stop step : nat) : list nat :=
  map (fun k => k * step) (seq 0 ((stop + step - 1) / step)).

(* ===================================================================== *)
(** * 2-D arrays                                                          *)
(* ===================================================================== *)

Record ndarray (A : Type) : Type := NdArray {
  nrows : nat;
  ncols : nat;
  item : nat -> nat -> A
}.

Definition shape {A} (a : ndarray A) : nat * nat := (nrows a, ncols a).

(** Two arrays are the same array when they have the same shape and the
    same element at every index inside it. *)
Definition arr_eq {A} (a b : ndarray A) : Prop :=
  shape a = shape b /\
  forall r c, r < nrows a -> c < ncols a -> item a r c = item b r c.

Definition shape_eqb {A B} (a : ndarray A) (b : ndarray B) : bool :=
  (nrows a =? nrows b) && (ncols a =? ncols b).

Definition to_rows {A} (a : ndarray A) : list (list A) :=
  map (fun r => map (fun c => item a r c) (seq 0 (ncols a))) (seq 0 (nrows a)).

Definition of_rows {A} (d : A) (rows : list (list A)) : ndarray A :=
  NdArray (length rows) (length (hd [] rows))
          (fun r c => nth c (nth r rows []) d).

Definition arr_map {A B} (f : A -> B) (a : ndarray A) : ndarray B :=
  NdArray (nrows a) (ncols a) (fun r c => f (item a r c)).

Definition full {A} (h w : nat) (x : A) : ndarray A :=
  NdArray h w (fun _ _ => x).

(** [np.zeros_like(u, dtype=bool)] *)
Definition zeros_like_bool {A} (a : ndarray A) : ndarray bool :=
  full (nrows a) (ncols a) false.

(** [a[lo:hi, :]] and [a[:, lo:hi]] *)
Definition slice_rows {A} (a : ndarray A) (lo hi : Z) : ndarray A :=
  let '(s, e) := py_slice (nrows a) lo hi in
  NdArray (e - s) (ncols a) (fun r c => item a (s + r) c).

Definition slice_cols {A} (a : ndarray A) (lo hi : Z) : ndarray A :=
  let '(s, e) := py_slice (ncols a) lo hi in
  NdArray (nrows a) (e - s) (fun r c => item a r (s + c)).

(** [a[r0:r1, c0:c1]] *)
Definition slice2 {A} (a : ndarray A) (r0 r1 c0 c1 : Z) : ndarray A :=
  slice_cols (slice_rows a r0 r1) c0 c1.

(** [a[::-1]]: the vertical axis reversed. *)
Definition flipud {A} (a : ndarray A) : ndarray A :=
  NdArray (nrows a) (ncols a) (fun r c => item a (nrows a - 1 - r) c).

(** [np.pad(a, ((t, b), (l, r)), mode='constant')]: negative widths are
    rejected by NumPy. *)
Definition np_pad (a : ndarray Q) (t b l r : Z) : result (ndarray Q) :=
  if ((t <? 0) || (b <? 0) || (l <? 0) || (r <? 0))%Z
  then Raise (ValueError "index can't contain negative values")
  else
    let t' := Z.to_nat t in
    let l' := Z.to_nat l in
    Ok (NdArray (t' + nrows a + Z.to_nat b) (l' + ncols a + Z.to_nat r)
          (fun i j =>
             if (t' <=? i) && (i <? t' + nrows a) &&
                (l' <=? j) && (j <? l' + ncols a)
             then item a (i - t') (j - l')
             else 0%Q)).

(** NumPy broadcasting of one axis. *)
Definition broadcast_dim (n m : nat) : option nat :=
  if n =? m then Some n
  else if n =? 1 then Some m
  else if m =? 1 then Some n
  else None.

Definition bidx (n i : nat) : nat := if n =? 1 then 0 else i.

(** [np.where(mask, 0, frame)] *)
Definition np_where_zero (mask : ndarray bool) (frame : ndarray Q)
  : result (ndarray Q) :=
  match broadcast_dim (nrows mask) (nrows frame),
        broadcast_dim (ncols mask) (ncols frame) with
  | Some h, Some w =>
      Ok (NdArray h w
            (fun r c =>
               if item mask (bidx (nrows mask) r) (bidx (ncols mask) c)
               then 0%Q
               else item frame (bidx (nrows frame) r) (bidx (ncols frame) c)))
  | _, _ => Raise (ValueError "operands could not be broadcast together")
  end.

(** [np.logical_and(a, b)] *)
Definition np_logical_and (a b : ndarray bool) : result (ndarray bool) :=
  match broadcast_dim (nrows a) (nrows b),
        broadcast_dim (ncols a) (ncols b) with
  | Some h, Some w =>
      Ok (NdArray h w
            (fun r c =>
               item a (bidx (nrows a) r) (bidx (ncols a) c) &&
               item b (bidx (nrows b) r) (bidx (ncols b) c)))
  | _, _ => Raise (ValueError "operands could not be broadcast together")
  end.

(** [u += w] on plain arrays: [w] must broadcast to the shape of [u]. *)
Definition np_iadd (u w : ndarray Q) : result (ndarray Q) :=
  if ((nrows w =? nrows u) || (nrows w =? 1)) &&
     ((ncols w =? ncols u) || (ncols w =? 1))
  then Ok (NdArray (nrows u) (ncols u)
             (fun r c =>
                (item u r c + item w (bidx (nrows w) r) (bidx (ncols w) c))%Q))
  else Raise (ValueError "operands could not be broadcast together").

(** [flat.reshape((h, w))] *)
Definition reshape (flat : list Q) (shp : nat * nat) : result (ndarray Q) :=
  let '(h, w) := shp in
  if length flat =? h * w
  then Ok (NdArray h w (fun r c => nth (r * w + c) flat 0%Q))
  else Raise (ValueError "cannot reshape array").

(** [np.meshgrid(xs, ys)] *)
Definition meshgrid (xs ys : list Q) : ndarray Q * ndarray Q :=
  (NdArray (length ys) (length xs) (fun _ c => nth c xs 0%Q),
   NdArray (length ys) (length xs) (fun r _ => nth r ys 0%Q)).

(** [a[:, 0]] and [a[0, :]] *)
Definition col0 (a : ndarray Q) : result (list Q) :=
  if ncols a =? 0 then Raise IndexError
  else Ok (map (fun r => item a r 0) (seq 0 (nrows a))).

Definition row0 (a : ndarray Q) : result (list Q) :=
  if nrows a =? 0 then Raise IndexError
  else Ok (map (fun c => item a 0 c) (seq 0 (ncols a))).

(** [np.arange(n)] as floats *)
Definition arange (n : nat) : list Q :=
  map (fun k => inject_Z (Z.of_nat k)) (seq 0 n).

(** [np.all(flags)] *)
Definition np_all (flags : ndarray bool) : bool :=
  forallb (fun r => forallb (fun c => item flags r c) (seq 0 (ncols flags)))
          (seq 0 (nrows flags)).

Unset Implicit Arguments.

(* ===================================================================== *)
(** * Displacement fields: plain arrays and [np.ma.MaskedArray]           *)
(* ===================================================================== *)

(** A displacement component is either a plain array or a masked array
    (data together with a boolean mask, true = masked). *)
Inductive field : Type :=
| Plain (d : ndarray Q)
| Masked (d : ndarray Q) (m : ndarray bool).

Definition fdata (f : field) : ndarray Q :=
  match f with Plain d => d | Masked d _ => d end.

Definition fmask (f : field) : ndarray bool :=
  match f with Plain d => zeros_like_bool d | Masked _ m => m end.

(** The data with the masked cells replaced by [fill]. *)
Definition fill_masked (d : ndarray Q) (m : ndarray bool) (fill : Q)
  : ndarray Q :=
  NdArray (nrows d) (ncols d) (fun r c => if item m r c then fill else item d r c).

(** [np.ma.filled(u, fill)]: the function accepts plain arrays too. *)
Definition np_ma_filled (u : field) (fill : Q) : ndarray Q :=
  match u with
  | Plain d => d
  | Masked d m => fill_masked d m fill
  end.

(** [u.filled(fill)]: the method exists on masked arrays only. *)
Definition filled_method (u : field) (fill : Q) : result (ndarray Q) :=
  match u with
  | Plain _ => Raise (AttributeError "filled")
  | Masked d m => Ok (fill_masked d m fill)
  end.

(** [np.ma.masked_array(d, mask=m)] for a full-shape mask. *)
Definition masked_array (d : ndarray Q) (m : ndarray bool) : result field :=
  if shape_eqb d m then Ok (Masked d m)
  else Raise (ValueError "Mask and data not compatible").

(** [np.ma.masked_array(d, np.ma.nomask)] *)
Definition masked_array_nomask (d : ndarray Q) : field :=
  Masked d (zeros_like_bool d).

(** [-u[::-1]]: flip the vertical axis, then negate.  The mask, if any, is
    flipped along with the data. *)
Definition neg_flipud (u : field) : field :=
  match u with
  | Plain d => Plain (arr_map Qopp (flipud d))
  | Masked d m => Masked (arr_map Qopp (flipud d)) (flipud m)
  end.

(** What a consumer of a field sees at a cell: nothing where it is masked. *)
Definition visible (u : field) (r c : nat) : option Q :=
  if item (fmask u) r c then None else Some (item (fdata u) r c).

(* ===================================================================== *)
(** * Settings                                                            *)
(* ===================================================================== *)

Inductive subpixel_method_t := gaussian | centroid | parabolic.
Inductive correlation_method_t := circular | linear.
Inductive sig2noise_method_t := peak2peak | peak2mean.
Inductive filter_method_t := localmean | disk | distance.
Inductive dynamic_masking_t := dm_edge | dm_intensity.
Inductive boundary_mode := mode_nearest | mode_constant.

(** The fields of [PIVSettings] that the two engines read. *)
Record PIVSettings : Type := {
  windowsizes : list nat;
  overlap : list nat;
  num_iterations : nat;
  roi : option (Z * Z * Z * Z);              (* [None] is ["full"] *)
  invert : bool;
  static_mask : option (ndarray bool);
  dynamic_masking_method : option dynamic_masking_t;
  dynamic_masking_filter_size : nat;
  dynamic_masking_threshold : Q;
  sig2noise_mask : nat;
  subpixel_method : subpixel_method_t;
  sig2noise_method : option sig2noise_method_t;
  sig2noise_validate : bool;
  correlation_method : correlation_method_t;
  normalized_correlation : bool;
  max_array_size : nat;
  smoothn : bool;
  smoothn_p : Q;
  validation_first_pass : bool;
  replace_vectors : bool;
  filter_method : filter_method_t;
  max_filter_iteration : nat;
  filter_kernel_size : nat;
  interpolation_order : nat
}.

(** [settings.sig2noise_method = None] *)
Definition clear_sig2noise_method (s : PIVSettings) : PIVSettings :=
  {| windowsizes := windowsizes s;
     overlap := overlap s;
     num_iterations := num_iterations s;
     roi := roi s;
     invert := invert s;
     static_mask := static_mask s;
     dynamic_masking_method := dynamic_masking_method s;
     dynamic_masking_filter_size := dynamic_masking_filter_size s;
     dynamic_masking_threshold := dynamic_masking_threshold s;
     sig2noise_mask := sig2noise_mask s;
     subpixel_method := subpixel_method s;
     sig2noise_method := None;
     sig2noise_validate := sig2noise_validate s;
     correlation_method := correlation_method s;
     normalized_correlation := normalized_correlation s;
     max_array_size := max_array_size s;
     smoothn := smoothn s;
     smoothn_p := smoothn_p s;
     validation_first_pass := validation_first_pass s;
     replace_vectors := replace_vectors s;
     filter_method := filter_method s;
     max_filter_iteration := max_filter_iteration s;
     filter_kernel_size := filter_kernel_size s;
     interpolation_order := interpolation_order s |}.

(* ===================================================================== *)
(** * External collaborators                                              *)
(* ===================================================================== *)

(** Everything the engines call and do not define.  The resampling
    routines are given point by point: each output element of
    [map_coordinates] depends on the input array and on its own coordinate
    pair, and a fitted [RectBivariateSpline] called on two coordinate
    vectors is evaluated on their Cartesian product. *)
Class Collaborators : Type := {
  (** [extended_search_area_piv(frame_a, frame_b, window_size, overlap,
      search_area_size, width, subpixel_method, sig2noise_method,
      correlation_method, normalized_correlation, max_array_size)]:
      flat [u, v, s2n]. *)
  extended_search_area_piv :
    ndarray Q -> ndarray Q -> nat -> nat -> option nat -> nat ->
    subpixel_method_t -> option sig2noise_method_t -> correlation_method_t ->
    bool -> nat -> list Q * list Q * list Q;
  (** [RectBivariateSpline(y, x, z, kx, ky)], as the function it fits. *)
  RectBivariateSpline :
    list Q -> list Q -> ndarray Q -> nat -> nat -> Q -> Q -> Q;
  (** [map_coordinates(input, ., order, mode, cval, prefilter)] at one
      coordinate pair (row coordinate first). *)
  map_coordinates_at :
    ndarray Q -> nat -> boundary_mode -> Q -> bool -> Q -> Q -> Q;
  (** [map_coordinates(mask, .).astype(bool)] on a boolean input with the
      defaults (order 3, mode ['constant']), at one coordinate pair. *)
  map_coordinates_mask : ndarray bool -> Q -> Q -> bool;
  (** [validation.typical_validation(u, v, s2n, settings)] *)
  typical_validation :
    field -> field -> ndarray Q -> PIVSettings -> ndarray bool;
  (** [filters.replace_outliers(u, v, flags, method, max_iter, kernel_size)] *)
  replace_outliers :
    field -> field -> ndarray bool -> filter_method_t -> nat -> nat ->
    field * field;
  (** [smoothn.smoothn(u, s)[0]] *)
  smoothn_smoothn : field -> Q -> field;
  (** [skimage.util.invert], element by element. *)
  invert_value : Q -> Q;
  (** [preprocess.dynamic_masking(frame, method, filter_size, threshold)] *)
  dynamic_masking :
    ndarray Q -> dynamic_masking_t -> nat -> Q -> ndarray Q * ndarray bool;
  (** Storing a float into a [uint8] array. *)
  astype_uint8 : Q -> Q;
  (** The uninitialised contents of [cp.empty]. *)
  cp_empty_item : nat -> nat -> Q
}.

(** [ip(ys, xs)] for a fitted spline [ip]. *)
Definition spline_on_grid (ip : Q -> Q -> Q) (ys xs : list Q) : ndarray Q :=
  NdArray (length ys) (length xs)
          (fun r c => ip (nth r ys 0%Q) (nth c xs 0%Q)).

(** [map_coordinates(input, [cy, cx], order, mode, cval, prefilter)] *)
Definition map_coordinates `{Collaborators} (input : ndarray Q)
    (cy cx : ndarray Q) (order : nat) (mode : boundary_mode) (cval : Q)
    (prefilter : bool) : ndarray Q :=
  NdArray (nrows cy) (ncols cy)
          (fun r c => map_coordinates_at input order mode cval prefilter
                        (item cy r c) (item cx r c)).

(** [scn.map_coordinates(image_mask, [y, x]).astype(bool)] *)
Definition mask_on_grid `{Collaborators} (image_mask : ndarray bool)
    (y x : ndarray Q) : ndarray bool :=
  NdArray (nrows y) (ncols y)
          (fun r c => map_coordinates_mask image_mask (item y r c) (item x r c)).

(* ===================================================================== *)
(** * Grid builder                                                        *)
(* ===================================================================== *)

(** Modelled from the spec: [get_field_shape] of [openpiv.pyprocess] is not
    among the sources.  Per axis the grid has
    [floor((frame_dim - window_size) / (window_size - overlap)) + 1] windows,
    and the builder fails with [InvalidParameter] if the overlap is not
    smaller than the window or the window exceeds the frame. *)
Definition get_field_shape (image_size : nat * nat) (window_size ovl : nat)
  : result (nat * nat) :=
  let '(h, w) := image_size in
  if (window_size <=? ovl) || (h <? window_size) || (w <? window_size)
  then Raise InvalidParameter
  else Ok ((h - window_size) / (window_size - ovl) + 1,
           (w - window_size) / (window_size - ovl) + 1).

(** Modelled from the spec: [get_rect_coordinates] of [openpiv.pyprocess] is
    not among the sources.  Window centres start at [window_size / 2] and
    step by [window_size - overlap]; the result is the pair of meshgrids
    [(x, y)]. *)
Definition grid_axis (n window_size ovl : nat) : list Q :=
  map (fun k => (inject_Z (Z.of_nat (k * (window_size - ovl)))
                 + inject_Z (Z.of_nat window_size) / 2)%Q)
      (seq 0 n).

Definition get_rect_coordinates (image_size : nat * nat)
    (window_size ovl : nat) : result (ndarray Q * ndarray Q) :=
  match get_field_shape image_size window_size ovl with
  | Raise e => Raise e
  | Ok (n_rows, n_cols) =>
      Ok (meshgrid (grid_axis n_cols window_size ovl)
                   (grid_axis n_rows window_size ovl))
  end.

(* ===================================================================== *)
(** * The monad of the engine: a call log and exceptions                  *)
(* ===================================================================== *)

(** The calls to collaborators that the claims speak about, tagged with the
    pass that makes them (0 is the first pass, [current_iteration] after
    that). *)
Inductive event : Type :=
| CallCorrelate (pass : nat)
| CallDeform (pass : nat)
| CallValidate (pass : nat)
| CallReplaceOutliers (pass : nat)
| CallSmoothn (pass : nat)
| CallSave.

Definition M (A : Type) : Type := (list event * result A)%type.

Definition ret {A} (a : A) : M A := ([], Ok a).
Definition raise {A} (e : exn) : M A := ([], Raise e).
Definition lift {A} (r : result A) : M A := ([], r).
Definition call {A} (ev : event) (a : A) : M A := ([ev], Ok a).

Definition bind {A B} (m : M A) (f : A -> M B) : M B :=
  match m with
  | (t, Ok a) => let '(t', r) := f a in (t ++ t', r)
  | (t, Raise e) => (t, Raise e)
  end.

Definition rbind {A B} (m : result A) (f : A -> result B) : result B :=
  match m with
  | Ok a => f a
  | Raise e => Raise e
  end.

Declare Scope engine_scope.
Delimit Scope engine_scope with engine.
Notation "x <- m ;; k" := (bind m (fun x => k))
  (at level 61, m at next level, right associativity) : engine_scope.
Notation "' p <- m ;; k" := (bind m (fun x => let 'p := x in k))
  (at level 61, p pattern, m at next level, right associativity)
  : engine_scope.
Notation "'try' x := m 'in' k" := (rbind m (fun x => k))
  (at level 61, m at next level, right associativity) : engine_scope.
Open Scope engine_scope.

Definition trace {A} (m : M A) : list event := fst m.
Definition outcome {A} (m : M A) : result A := snd m.

(** [lst[i]] *)
Definition py_index {A} (l : list A) (i : nat) : result A :=
  match nth_error l i with
  | Some a => Ok a
  | None => Raise IndexError
  end.

(** Element-wise arithmetic on arrays of one shape. *)
Definition arr_zip {A B C} (f : A -> B -> C) (a : ndarray A) (b : ndarray B)
  : ndarray C :=
  NdArray (nrows a) (ncols a) (fun r c => f (item a r c) (item b r c)).

Definition arr_neg (a : ndarray Q) : ndarray Q := arr_map Qopp a.

(** What an engine hands to [tools.save]. *)
Record saved : Type := {
  sv_x : ndarray Q;
  sv_y : ndarray Q;
  sv_u : field;
  sv_v : field;
  sv_flags : ndarray bool;
  sv_grid_mask : ndarray bool
}.

(** Lines 47-68 of [windef.py], the same as lines 48-69 of [windef_gpu.py]:
    crop, pad, and the size check of [prepare_images]. *)
Definition match_frame_b (frame_a frame_b : ndarray Q) : result (ndarray Q) :=
  (* Crop width if necessary *)
  let frame_b :=
    if ncols frame_a <? ncols frame_b then
      let offset := ((Z.of_nat (ncols frame_b) - Z.of_nat (ncols frame_a)) / 2)%Z in
      slice_cols frame_b offset (offset + Z.of_nat (ncols frame_a))
    else frame_b in
  (* Crop height if necessary *)
  let frame_b :=
    if nrows frame_a <? nrows frame_b then
      let offset := ((Z.of_nat (nrows frame_b) - Z.of_nat (nrows frame_a)) / 2)%Z in
      slice_rows frame_b offset (offset + Z.of_nat (nrows frame_a))
    else frame_b in
  (* Pad if necessary *)
  try frame_b :=
    (if (nrows frame_b <? nrows frame_a) || (ncols frame_b <? ncols frame_a) then
       let a := (Z.opp (Z.of_nat (nrows frame_b) - Z.of_nat (nrows frame_a)) / 2)%Z in
       let aa := (- a + Z.of_nat (nrows frame_a) - Z.of_nat (nrows frame_b))%Z in
       let b := (Z.opp (Z.of_nat (ncols frame_b) - Z.of_nat (ncols frame_a)) / 2)%Z in
       let bb := (- b + Z.of_nat (ncols frame_a) - Z.of_nat (ncols frame_b))%Z in
       np_pad frame_b a aa b bb
     else Ok frame_b) in
  if negb (nrows frame_b =? nrows frame_a) || negb (ncols frame_b =? ncols frame_a)
  then Raise (ValueError "Images are different sizes.")
  else Ok frame_b.

(** [frame[roi[0]:roi[1], roi[2]:roi[3]]], or the frame itself for ["full"]. *)
Definition crop_to_roi (s : PIVSettings) (frame : ndarray Q) : ndarray Q :=
  match roi s with
  | None => frame
  | Some (r0, r1, c0, c1) => slice2 frame r0 r1 c0 c1
  end.

(* ===================================================================== *)
(** * [openpiv/windef.py]                                                 *)
(* ===================================================================== *)

Module Windef.

(** The local variables of [multipass] that live across its loop; [ps_i] is
    the loop variable, unbound until the loop body has run once. *)
Record pass_state : Type := {
  ps_x : ndarray Q;
  ps_y : ndarray Q;
  ps_u : field;
  ps_v : field;
  ps_grid_mask : ndarray bool;
  ps_flags : ndarray bool;
  ps_settings : PIVSettings;
  ps_i : option nat
}.

Section Engine.
Context `{Collaborators}.

(** [prepare_images], from the two frames that [tools.imread] returned. *)
Definition prepare_images (frame_a frame_b : ndarray Q) (settings : PIVSettings)
  : result (ndarray Q * ndarray Q * option (ndarray bool)) :=
  try frame_b := match_frame_b frame_a frame_b in
  (* crop to roi *)
  let frame_a := crop_to_roi settings frame_a in
  let frame_b := crop_to_roi settings frame_b in
  let frame_a := if invert settings then arr_map invert_value frame_a else frame_a in
  let frame_b := if invert settings then arr_map invert_value frame_b else frame_b in
  try masked :=
    (match static_mask settings with
     | Some image_mask =>
         try fa := np_where_zero image_mask frame_a in
         try fb := np_where_zero image_mask frame_b in
         Ok (fa, fb, Some image_mask)
     | None => Ok (frame_a, frame_b, None)
     end) in
  let '(frame_a, frame_b, image_mask) := masked in
  match dynamic_masking_method settings with
  | Some method =>
      let '(frame_a, mask_a) :=
        dynamic_masking frame_a method
          (dynamic_masking_filter_size settings)
          (dynamic_masking_threshold settings) in
      let '(frame_b, mask_b) :=
        dynamic_masking frame_b method
          (dynamic_masking_filter_size settings)
          (dynamic_masking_threshold settings) in
      try image_mask := np_logical_and mask_a mask_b in
      Ok (frame_a, frame_b, Some image_mask)
  | None => Ok (frame_a, frame_b, image_mask)
  end.

Definition create_deformation_field (frame x y u v : ndarray Q)
    (interpolation_order : nat)
  : result (ndarray Q * ndarray Q * ndarray Q * ndarray Q) :=
  try y1 := col0 y in
  try x1 := row0 x in
  let side_x := arange (ncols frame) in
  let side_y := arange (nrows frame) in
  let ip := RectBivariateSpline y1 x1 u interpolation_order interpolation_order in
  let ut := spline_on_grid ip side_y side_x in
  let ip2 := RectBivariateSpline y1 x1 v interpolation_order interpolation_order in
  let vt := spline_on_grid ip2 side_y side_x in
  let '(x, y) := meshgrid side_x side_y in
  Ok (x, y, ut, vt).

Definition deform_windows (frame x y u v : ndarray Q)
    (interpolation_order interpolation_order2 : nat) : result (ndarray Q) :=
  try field := create_deformation_field frame x y u v interpolation_order2 in
  let '(x, y, ut, vt) := field in
  Ok (map_coordinates frame (arr_zip Qminus y vt) (arr_zip Qplus x ut)
        interpolation_order mode_nearest 0%Q true).

Definition first_pass (frame_a frame_b : ndarray Q) (settings : PIVSettings)
  : M (ndarray Q * ndarray Q * ndarray Q * ndarray Q * ndarray Q) :=
  ws0 <- lift (py_index (windowsizes settings) 0) ;;
  ov0 <- lift (py_index (overlap settings) 0) ;;
  ' (u, v, s2n) <- call (CallCorrelate 0)
      (extended_search_area_piv frame_a frame_b ws0 ov0 (Some ws0)
         (sig2noise_mask settings) (subpixel_method settings)
         (sig2noise_method settings) (correlation_method settings)
         (normalized_correlation settings) (max_array_size settings)) ;;
  shapes <- lift (get_field_shape (shape frame_a) ws0 ov0) ;;
  u <- lift (reshape u shapes) ;;
  v <- lift (reshape v shapes) ;;
  s2n <- lift (reshape s2n shapes) ;;
  ' (x, y) <- lift (get_rect_coordinates (shape frame_a) ws0 ov0) ;;
  ret (x, y, u, v, s2n).

(** The previous field resampled onto the new grid (lines 636-644). *)
Definition resample_previous (y_old x_old : list Q) (w_old : field)
    (order : nat) (y_int x_int : list Q) : ndarray Q :=
  spline_on_grid
    (RectBivariateSpline y_old x_old (np_ma_filled w_old 0%Q) order order)
    y_int x_int.

(** Lines 616-644 of [multipass_img_deform]: the window size and overlap of
    this pass, the new grid [(x, y)], and the previous field resampled onto
    it, [(u_pre, v_pre)]. *)
Definition predict (frame_a : ndarray Q) (current_iteration : nat)
    (x_old y_old : ndarray Q) (u_old v_old : field) (settings : PIVSettings)
  : result (nat * nat * ndarray Q * ndarray Q * ndarray Q * ndarray Q) :=
  try window_size := py_index (windowsizes settings) current_iteration in
  try ovl := py_index (overlap settings) current_iteration in
  try grid := get_rect_coordinates (shape frame_a) window_size ovl in
  let '(x, y) := grid in
  (* 1D arrays for the interpolation *)
  try y_old := col0 y_old in
  try x_old := row0 x_old in
  try y_int := col0 y in
  try x_int := row0 x in
  (* interpolating the displacements from the old grid onto the new grid *)
  let u_pre := resample_previous y_old x_old u_old
                 (interpolation_order settings) y_int x_int in
  let v_pre := resample_previous y_old x_old v_old
                 (interpolation_order settings) y_int x_int in
  Ok (window_size, ovl, x, y, u_pre, v_pre).

(** Lines 647-686 of [multipass_img_deform]: frame B deformed by the
    predicted field, correlated against frame A at the new window size and
    overlap, and the result reshaped to the grid: the residual
    [(u, v, s2n)], with the settings as this pass leaves them. *)
Definition residual (frame_a frame_b : ndarray Q) (current_iteration : nat)
    (window_size ovl : nat) (x y u_pre v_pre : ndarray Q)
    (settings : PIVSettings)
  : M (ndarray Q * ndarray Q * ndarray Q * PIVSettings) :=
  deformed <- lift (deform_windows frame_b x y u_pre (arr_neg v_pre)
                      (interpolation_order settings)
                      (interpolation_order settings)) ;;
  frame_b <- call (CallDeform current_iteration) deformed ;;
  let settings :=
    if sig2noise_validate settings then settings
    else clear_sig2noise_method settings in
  ' (u, v, s2n) <- call (CallCorrelate current_iteration)
      (extended_search_area_piv frame_a frame_b window_size ovl None
         (sig2noise_mask settings) (subpixel_method settings)
         (sig2noise_method settings) (correlation_method settings)
         (normalized_correlation settings) (max_array_size settings)) ;;
  shapes <- lift (get_field_shape (shape frame_a) window_size ovl) ;;
  u <- lift (reshape u shapes) ;;
  v <- lift (reshape v shapes) ;;
  s2n <- lift (reshape s2n shapes) ;;
  ret (u, v, s2n, settings).

(** Lines 616-703 of [multipass_img_deform]: everything up to and including
    the validation of the accumulated field. *)
Definition validated_pass (frame_a frame_b : ndarray Q)
    (current_iteration : nat) (x_old y_old : ndarray Q) (u_old v_old : field)
    (settings : PIVSettings)
  : M (ndarray Q * ndarray Q * field * field * ndarray bool * ndarray bool
       * PIVSettings) :=
  ' (window_size, ovl, x, y, u_pre, v_pre) <-
    lift (predict frame_a current_iteration x_old y_old u_old v_old settings) ;;
  ' (u, v, s2n, settings) <-
    residual frame_a frame_b current_iteration window_size ovl x y
      u_pre v_pre settings ;;
  u <- lift (np_iadd u u_pre) ;;
  v <- lift (np_iadd v v_pre) ;;
  (* reapply the image mask to the new grid *)
  let grid_mask :=
    match static_mask settings with
    | Some m => mask_on_grid m y x
    | None => zeros_like_bool u
    end in
  u <- lift (masked_array u grid_mask) ;;
  v <- lift (masked_array v grid_mask) ;;
  (* validate in the multi-pass by default *)
  flags <- call (CallValidate current_iteration)
             (typical_validation u v s2n settings) ;;
  ret (x, y, u, v, grid_mask, flags, settings).

Definition multipass_img_deform (frame_a frame_b : ndarray Q)
    (current_iteration : nat) (x_old y_old : ndarray Q) (u_old v_old : field)
    (settings : PIVSettings)
  : M (ndarray Q * ndarray Q * field * field * ndarray bool * ndarray bool
       * PIVSettings) :=
  ' (x, y, u, v, grid_mask, flags, settings) <-
    validated_pass frame_a frame_b current_iteration x_old y_old u_old v_old
      settings ;;
  if np_all flags
  then raise (ValueError "Something happened in the validation")
  else
    (* Turn off remove_outliers for the last step *)
    ' (u, v) <-
      (if negb (current_iteration + 1 =? num_iterations settings)
       then call (CallReplaceOutliers current_iteration)
              (replace_outliers u v flags (filter_method settings)
                 (max_filter_iteration settings) (filter_kernel_size settings))
       else ret (u, v)) ;;
    ret (x, y, u, v, grid_mask, flags, settings).

(** [u, _, _, _ = smoothn.smoothn(u, s=...)] and the same for [v]. *)
Definition smooth_pair (pass : nat) (u v : field) (settings : PIVSettings)
  : M (field * field) :=
  u <- call (CallSmoothn pass) (smoothn_smoothn u (smoothn_p settings)) ;;
  v <- call (CallSmoothn pass) (smoothn_smoothn v (smoothn_p settings)) ;;
  ret (u, v).

(** One turn of the [for i in range(1, settings.num_iterations)] loop. *)
Definition multipass_body (frame_a frame_b : ndarray Q) (i : nat)
    (st : pass_state) : M pass_state :=
  ' (x, y, u, v, grid_mask, flags, settings) <-
    multipass_img_deform frame_a frame_b i (ps_x st) (ps_y st) (ps_u st)
      (ps_v st) (ps_settings st) ;;
  ' (u, v) <-
    (if smoothn settings && negb (i + 1 =? num_iterations settings)
     then smooth_pair i u v settings
     else ret (u, v)) ;;
  ret {| ps_x := x; ps_y := y; ps_u := u; ps_v := v;
         ps_grid_mask := grid_mask; ps_flags := flags;
         ps_settings := settings; ps_i := Some i |}.

Fixpoint multipass_loop (frame_a frame_b : ndarray Q) (passes : list nat)
    (st : pass_state) : M pass_state :=
  match passes with
  | [] => ret st
  | i :: rest =>
      st <- multipass_body frame_a frame_b i st ;;
      multipass_loop frame_a frame_b rest st
  end.

(** Lines 173-280 of [multipass]: the images prepared, the first pass, and
    the loop over the further passes. *)
Definition run_passes (raw_a raw_b : ndarray Q) (settings : PIVSettings)
  : M (option (ndarray bool) * pass_state) :=
  ' (frame_a, frame_b, image_mask) <-
    lift (prepare_images raw_a raw_b settings) ;;
  (* "first pass" *)
  ' (x, y, u, v, s2n) <- first_pass frame_a frame_b settings ;;
  ' (u, v) <-
    (if smoothn settings then smooth_pair 0 (Plain u) (Plain v) settings
     else ret (Plain u, Plain v)) ;;
  (* " Image masking " *)
  let grid_mask :=
    match image_mask with
    | None => zeros_like_bool (fdata u)
    | Some m => mask_on_grid m y x
    end in
  flags <-
    (if validation_first_pass settings
     then call (CallValidate 0) (typical_validation u v s2n settings)
     else ret (zeros_like_bool (fdata u))) ;;
  (* "filter to replace the values that where marked by the validation" *)
  ' (u, v) <-
    (if ((num_iterations settings =? 1) && replace_vectors settings)
        || (1 <? num_iterations settings)
     then call (CallReplaceOutliers 0)
            (replace_outliers u v flags (filter_method settings)
               (max_filter_iteration settings) (filter_kernel_size settings))
     else ret (u, v)) ;;
  (* Multi pass *)
  st <- multipass_loop frame_a frame_b
          (seq 1 (num_iterations settings - 1))
          {| ps_x := x; ps_y := y; ps_u := u; ps_v := v;
             ps_grid_mask := grid_mask; ps_flags := flags;
             ps_settings := settings; ps_i := None |} ;;
  ret (image_mask, st).

(** Lines 283-306 of [multipass]: the field made ready for export and
    handed to [tools.save]. *)
Definition finalize (image_mask : option (ndarray bool)) (st : pass_state)
  : M saved :=
  (* print(f'... completed pass {i+1} / {settings.num_iterations}') *)
  _ <- (match ps_i st with
        | Some _ => ret tt
        | None => raise (UnboundLocalError "i")
        end) ;;
  u <- lift (filled_method (ps_u st) 0%Q) ;;
  v <- lift (filled_method (ps_v st) 0%Q) ;;
  ' (u, v, grid_mask) <-
    (match image_mask with
     | Some m =>
         let grid_mask := mask_on_grid m (ps_y st) (ps_x st) in
         u <- lift (masked_array u grid_mask) ;;
         v <- lift (masked_array v grid_mask) ;;
         ret (u, v, grid_mask)
     | None =>
         ret (masked_array_nomask u, masked_array_nomask v, ps_grid_mask st)
     end) ;;
  (* Saving *)
  call CallSave
    {| sv_x := ps_x st; sv_y := ps_y st;
       sv_u := neg_flipud u; sv_v := neg_flipud v;
       sv_flags := ps_flags st; sv_grid_mask := grid_mask |}.

(** [multipass], from the two frames read from [file_a] and [file_b]; the
    value is what is handed to [tools.save]. *)
Definition multipass (raw_a raw_b : ndarray Q) (settings : PIVSettings)
  : M saved :=
  ' (image_mask, st) <- run_passes raw_a raw_b settings ;;
  finalize image_mask st.

End Engine.
End Windef.

(* ===================================================================== *)
(** * [openpiv/windef_gpu.py]                                             *)
(* ===================================================================== *)

Module WindefGpu.

(** The local variables of [multipass] that live across its loop. *)
Record pass_state : Type := {
  ps_x : ndarray Q;
  ps_y : ndarray Q;
  ps_u : field;
  ps_v : field;
  ps_flags : ndarray bool;
  ps_settings : PIVSettings
}.

Section Engine.
Context `{Collaborators}.

Definition prepare_images (frame_a frame_b : ndarray Q) (settings : PIVSettings)
  : result (ndarray Q * ndarray Q) :=
  try frame_b := match_frame_b frame_a frame_b in
  (* crop to roi *)
  Ok (crop_to_roi settings frame_a, crop_to_roi settings frame_b).

(** [frame_def[y_start:y_end, x_start:x_end] = tile] into a [uint8] array. *)
Definition assign_tile (frame_def : ndarray Q)
    (y_start y_end x_start x_end : nat) (tile : ndarray Q) : ndarray Q :=
  NdArray (nrows frame_def) (ncols frame_def)
    (fun r c =>
       if (y_start <=? r) && (r <? y_end) && (x_start <=? c) && (c <? x_end)
       then astype_uint8 (item tile (r - y_start) (c - x_start))
       else item frame_def r c).

(** [cp.arange(start, stop)] as floats *)
Definition arange_from (start stop : nat) : list Q :=
  map (fun k => inject_Z (Z.of_nat k)) (seq start (stop - start)).

(** The body of the two tile loops (lines 309-336): the tile of the warped
    frame whose corner is [(y_start, x_start)]. *)
Definition deform_tile (frame u v : ndarray Q) (x0 y0 : Q)
    (window_size ovl : nat) (interpolation_order interpolation_order2 : nat)
    (y_start y_end x_start x_end : nat) : ndarray Q :=
  (* Create coordinate grid for this tile *)
  let ys := arange_from y_start y_end in
  let xs := arange_from x_start x_end in
  let '(grid_x, grid_y) := meshgrid xs ys in
  (* Interpolate u, v over this tile's coordinates *)
  let step := inject_Z (Z.of_nat window_size - Z.of_nat ovl) in
  let coord_u_y := arr_map (fun g => ((g - y0) / step)%Q) grid_y in
  let coord_u_x := arr_map (fun g => ((g - x0) / step)%Q) grid_x in
  let ut_tile := map_coordinates u coord_u_y coord_u_x interpolation_order2
                   mode_constant 0%Q true in
  let vt_tile := map_coordinates v coord_u_y coord_u_x interpolation_order2
                   mode_constant 0%Q true in
  (* Compute source positions for the warped image *)
  let src_y := arr_zip Qminus grid_y vt_tile in
  let src_x := arr_zip Qplus grid_x ut_tile in
  (* Warp the original frame for this tile *)
  map_coordinates frame src_y src_x interpolation_order mode_nearest 0%Q false.

(** [deform_windows] with the tile size as a parameter. *)
Definition deform_windows_tiled (tile_size : nat) (frame x y u v : ndarray Q)
    (window_size ovl : nat) (interpolation_order interpolation_order2 : nat)
  : result (ndarray Q) :=
  let h := nrows frame in
  let w := ncols frame in
  (* Origin of the coarse grid *)
  if (nrows x =? 0) || (ncols x =? 0) || (nrows y =? 0) || (ncols y =? 0)
  then Raise IndexError
  else
    let x0 := item x 0 0 in
    let y0 := item y 0 0 in
    (* Prepare output array *)
    let frame_def := NdArray h w cp_empty_item in
    (* Loop over tiles *)
    Ok (fold_left
          (fun frame_def y_start =>
             let y_end := Nat.min (y_start + tile_size) h in
             fold_left
               (fun frame_def x_start =>
                  let x_end := Nat.min (x_start + tile_size) w in
                  assign_tile frame_def y_start y_end x_start x_end
                    (deform_tile frame u v x0 y0 window_size ovl
                       interpolation_order interpolation_order2
                       y_start y_end x_start x_end))
               (py_range_step w tile_size) frame_def)
          (py_range_step h tile_size) frame_def).

Definition tile_size : nat := 8192.

Definition deform_windows (frame x y u v : ndarray Q) (window_size ovl : nat)
    (interpolation_order interpolation_order2 : nat) : result (ndarray Q) :=
  deform_windows_tiled tile_size frame x y u v window_size ovl
    interpolation_order interpolation_order2.

Definition first_pass (frame_a frame_b : ndarray Q) (settings : PIVSettings)
  : M (ndarray Q * ndarray Q * ndarray Q * ndarray Q * ndarray Q) :=
  ws0 <- lift (py_index (windowsizes settings) 0) ;;
  ov0 <- lift (py_index (overlap settings) 0) ;;
  ' (u, v, s2n) <- call (CallCorrelate 0)
      (extended_search_area_piv frame_a frame_b ws0 ov0 (Some ws0)
         (sig2noise_mask settings) (subpixel_method settings)
         (sig2noise_method settings) (correlation_method settings)
         (normalized_correlation settings) (max_array_size settings)) ;;
  shapes <- lift (get_field_shape (shape frame_a) ws0 ov0) ;;
  u <- lift (reshape u shapes) ;;
  v <- lift (reshape v shapes) ;;
  s2n <- lift (reshape s2n shapes) ;;
  ' (x, y) <- lift (get_rect_coordinates (shape frame_a) ws0 ov0) ;;
  ret (x, y, u, v, s2n).

(** [seq[-1]] *)
Definition py_last (l : list Q) : result Q :=
  match l with
  | [] => Raise IndexError
  | _ => Ok (last l 0%Q)
  end.

(** [int(np.ceil(q))] *)
Definition int_ceil (q : Q) : Z := Qceiling q.

(** [first - np.arange(n, 0, -1) * step] *)
Definition pad_before (first : Q) (n : Z) (step : Q) : list Q :=
  map (fun k => (first - inject_Z (Z.of_nat k) * step)%Q)
      (rev (seq 1 (Z.to_nat n))).

(** [last + np.arange(1, n + 1) * step] *)
Definition pad_after (lst : Q) (n : Z) (step : Q) : list Q :=
  map (fun k => (lst + inject_Z (Z.of_nat k) * step)%Q)
      (seq 1 (Z.to_nat n)).

(** Lines 543-561 for one axis: the numbers of grid points added before and
    after, and the padded coordinate vector. *)
Definition pad_axis (c_int : list Q) (frame_dim window_size ovl : nat)
  : result (Z * Z * list Q) :=
  try first := py_index c_int 0 in
  try lst := py_last c_int in
  let step := inject_Z (Z.of_nat window_size - Z.of_nat ovl) in
  let add0 := int_ceil (first / step)%Q in
  let add1 := int_ceil ((inject_Z (Z.of_nat frame_dim) - lst - 1) / step)%Q in
  Ok (add0, add1,
      pad_before first add0 step ++ c_int ++ pad_after lst add1 step).

(** Lines 525-578 of [multipass_img_deform]: the window size and overlap of
    this pass, the numbers of grid points added around the new grid, the
    padded grid [(x, y)], and the previous field resampled onto the padded
    grid, [(u_pre, v_pre)]. *)
Definition predict (frame_a : ndarray Q) (current_iteration : nat)
    (x_old y_old : ndarray Q) (u_old v_old : field) (settings : PIVSettings)
  : result (nat * nat * (Z * Z) * (Z * Z)
            * ndarray Q * ndarray Q * ndarray Q * ndarray Q) :=
  try window_size := py_index (windowsizes settings) current_iteration in
  try ovl := py_index (overlap settings) current_iteration in
  try grid := get_rect_coordinates (shape frame_a) window_size ovl in
  let '(x, y) := grid in
  (* 1D arrays for the interpolation *)
  try y_old := col0 y_old in
  try x_old := row0 x_old in
  try y_int := col0 y in
  try x_int := row0 x in
  try y_padded := pad_axis y_int (nrows frame_a) window_size ovl in
  let '(y_add0, y_add1, y_int) := y_padded in
  try x_padded := pad_axis x_int (ncols frame_a) window_size ovl in
  let '(x_add0, x_add1, x_int) := x_padded in
  let '(x, y) := meshgrid x_int y_int in
  (* interpolating the displacements from the old grid onto the new grid *)
  let ip := RectBivariateSpline y_old x_old (fdata u_old)
              (interpolation_order settings) (interpolation_order settings) in
  let u_pre := spline_on_grid ip y_int x_int in
  let ip2 := RectBivariateSpline y_old x_old (fdata v_old)
               (interpolation_order settings) (interpolation_order settings) in
  let v_pre := spline_on_grid ip2 y_int x_int in
  Ok (window_size, ovl, (y_add0, y_add1), (x_add0, x_add1), x, y, u_pre, v_pre).

(** Lines 583-635 of [multipass_img_deform]: frame B deformed by the
    predicted field, correlated against frame A at the new window size and
    overlap, and the result reshaped to the grid: the residual
    [(u, v, s2n)], with the settings as this pass leaves them. *)
Definition residual (frame_a frame_b : ndarray Q) (current_iteration : nat)
    (window_size ovl : nat) (x y u_pre v_pre : ndarray Q)
    (settings : PIVSettings)
  : M (ndarray Q * ndarray Q * ndarray Q * PIVSettings) :=
  deformed <- lift (deform_windows frame_b x y u_pre (arr_neg v_pre)
                      window_size ovl
                      (interpolation_order settings)
                      (interpolation_order settings)) ;;
  frame_b <- call (CallDeform current_iteration) deformed ;;
  let settings :=
    if sig2noise_validate settings then settings
    else clear_sig2noise_method settings in
  ' (u, v, s2n) <- call (CallCorrelate current_iteration)
      (extended_search_area_piv frame_a frame_b window_size ovl None
         (sig2noise_mask settings) (subpixel_method settings)
         (sig2noise_method settings) (correlation_method settings)
         (normalized_correlation settings) (max_array_size settings)) ;;
  shapes <- lift (get_field_shape (shape frame_a) window_size ovl) ;;
  u <- lift (reshape u shapes) ;;
  v <- lift (reshape v shapes) ;;
  s2n <- lift (reshape s2n shapes) ;;
  ret (u, v, s2n, settings).

(** Lines 525-646 of [multipass_img_deform]: everything up to and including
    the validation of the accumulated field; [(x, y)] is still the padded
    grid. *)
Definition validated_pass (frame_a frame_b : ndarray Q)
    (current_iteration : nat) (x_old y_old : ndarray Q) (u_old v_old : field)
    (settings : PIVSettings)
  : M ((Z * Z) * (Z * Z) * ndarray Q * ndarray Q * ndarray Q * ndarray Q
       * ndarray bool * ndarray bool * PIVSettings) :=
  ' (window_size, ovl, y_add, x_add, x, y, u_pre, v_pre) <-
    lift (predict frame_a current_iteration x_old y_old u_old v_old settings) ;;
  ' (u, v, s2n, settings) <-
    residual frame_a frame_b current_iteration window_size ovl x y
      u_pre v_pre settings ;;
  u <- lift (np_iadd u (slice2 u_pre (fst y_add) (- snd y_add)
                                     (fst x_add) (- snd x_add))) ;;
  v <- lift (np_iadd v (slice2 v_pre (fst y_add) (- snd y_add)
                                     (fst x_add) (- snd x_add))) ;;
  let grid_mask := zeros_like_bool u in
  (* validate in the multi-pass by default *)
  flags <- call (CallValidate current_iteration)
             (typical_validation (Plain u) (Plain v) s2n settings) ;;
  ret (y_add, x_add, x, y, u, v, grid_mask, flags, settings).

Definition multipass_img_deform (frame_a frame_b : ndarray Q)
    (current_iteration : nat) (x_old y_old : ndarray Q) (u_old v_old : field)
    (settings : PIVSettings)
  : M (ndarray Q * ndarray Q * field * field * ndarray bool * ndarray bool
       * PIVSettings) :=
  ' (y_add, x_add, x, y, u, v, grid_mask, flags, settings) <-
    validated_pass frame_a frame_b current_iteration x_old y_old u_old v_old
      settings ;;
  if np_all flags
  then raise (ValueError "Something happened in the validation")
  else
    (* Turn off remove_outliers for the last step *)
    ' (u, v, flags) <-
      (if negb (current_iteration + 1 =? num_iterations settings)
       then
         (* we have to replace outliers *)
         ' (u, v) <- call (CallReplaceOutliers current_iteration)
             (replace_outliers (Plain u) (Plain v) flags
                (filter_method settings) (max_filter_iteration settings)
                (filter_kernel_size settings)) ;;
         ret (u, v, zeros_like_bool (fdata u))
       else ret (Plain u, Plain v, flags)) ;;
    let y := slice2 y (fst y_add) (- snd y_add) (fst x_add) (- snd x_add) in
    let x := slice2 x (fst y_add) (- snd y_add) (fst x_add) (- snd x_add) in
    ret (x, y, u, v, grid_mask, flags, settings).

Definition smooth_pair (pass : nat) (u v : field) (settings : PIVSettings)
  : M (field * field) :=
  u <- call (CallSmoothn pass) (smoothn_smoothn u (smoothn_p settings)) ;;
  v <- call (CallSmoothn pass) (smoothn_smoothn v (smoothn_p settings)) ;;
  ret (u, v).

(** One turn of the [for i in range(1, settings.num_iterations)] loop. *)
Definition multipass_body (frame_a frame_b : ndarray Q) (i : nat)
    (st : pass_state) : M pass_state :=
  ' (x, y, u, v, grid_mask, flags, settings) <-
    multipass_img_deform frame_a frame_b i (ps_x st) (ps_y st) (ps_u st)
      (ps_v st) (ps_settings st) ;;
  ' (u, v) <-
    (if smoothn settings && negb (i + 1 =? num_iterations settings)
     then smooth_pair i u v settings
     else ret (u, v)) ;;
  ret {| ps_x := x; ps_y := y; ps_u := u; ps_v := v; ps_flags := flags;
         ps_settings := settings |}.

Fixpoint multipass_loop (frame_a frame_b : ndarray Q) (passes : list nat)
    (st : pass_state) : M pass_state :=
  match passes with
  | [] => ret st
  | i :: rest =>
      st <- multipass_body frame_a frame_b i st ;;
      multipass_loop frame_a frame_b rest st
  end.

(** Lines 122-216 of [multipass]: the images prepared, the first pass, and
    the loop over the further passes. *)
Definition run_passes (raw_a raw_b : ndarray Q) (settings : PIVSettings)
  : M pass_state :=
  ' (frame_a, frame_b) <- lift (prepare_images raw_a raw_b settings) ;;
  (* "first pass" *)
  ' (x, y, u, v, s2n) <- first_pass frame_a frame_b settings ;;
  ' (u, v) <-
    (if smoothn settings then smooth_pair 0 (Plain u) (Plain v) settings
     else ret (Plain u, Plain v)) ;;
  flags <-
    (if validation_first_pass settings
     then call (CallValidate 0) (typical_validation u v s2n settings)
     else ret (zeros_like_bool (fdata u))) ;;
  (* "filter to replace the values that where marked by the validation" *)
  ' (u, v) <-
    (if ((num_iterations settings =? 1) && replace_vectors settings)
        || (1 <? num_iterations settings)
     then call (CallReplaceOutliers 0)
            (replace_outliers u v flags (filter_method settings)
               (max_filter_iteration settings) (filter_kernel_size settings))
     else ret (u, v)) ;;
  (* Multi pass *)
  multipass_loop frame_a frame_b
    (seq 1 (num_iterations settings - 1))
    {| ps_x := x; ps_y := y; ps_u := u; ps_v := v; ps_flags := flags;
       ps_settings := settings |}.

(** Lines 220-239 of [multipass]: the field handed to [tools.save]. *)
Definition finalize (st : pass_state) : M saved :=
  let grid_mask := zeros_like_bool (fdata (ps_u st)) in
  (* Saving *)
  call CallSave
    {| sv_x := ps_x st; sv_y := ps_y st;
       sv_u := neg_flipud (ps_u st); sv_v := neg_flipud (ps_v st);
       sv_flags := ps_flags st; sv_grid_mask := grid_mask |}.

(** [multipass], from the two frames read from the configured files; the
    value is what is handed to [tools.save]. *)
Definition multipass (raw_a raw_b : ndarray Q) (settings : PIVSettings)
  : M saved :=
  st <- run_passes raw_a raw_b settings ;;
  finalize st.

End Engine.
End WindefGpu.

(* ===================================================================== *)
(** * What the claims say, in the words of the specification              *)
(* ===================================================================== *)

(** One axis of "centrally crop what is larger, zero-pad what is smaller":
    the index in frame B (of extent [nb]) that output index [r] of an axis
    of extent [na] is read from, or [None] where the output is padding. *)
Definition central_source (na nb r : nat) : option nat :=
  if na <? nb then Some (r + (nb - na) / 2)
  else
    let before := (na - nb) / 2 in
    if (before <=? r) && (r <? before + nb) then Some (r - before) else None.

Definition central_crop_pad (frame_a frame_b : ndarray Q) : ndarray Q :=
  NdArray (nrows frame_a) (ncols frame_a)
    (fun r c =>
       match central_source (nrows frame_a) (nrows frame_b) r,
             central_source (ncols frame_a) (ncols frame_b) c with
       | Some i, Some j => item frame_b i j
       | _, _ => 0%Q
       end).

Definition sampled_pixel `{Collaborators} (frame : ndarray Q) (order : nat)
    (prefilter : bool) (ut vt : nat -> nat -> Q) (row col : nat) : Q :=
  map_coordinates_at frame order mode_nearest 0%Q prefilter
    (inject_Z (Z.of_nat row) - vt row col)%Q
    (inject_Z (Z.of_nat col) + ut row col)%Q.

Definition warped `{Collaborators} (frame : ndarray Q) (order : nat)
    (prefilter : bool) (cast : Q -> Q) (ut vt : nat -> nat -> Q) : ndarray Q :=
  NdArray (nrows frame) (ncols frame)
    (fun row col => cast (sampled_pixel frame order prefilter ut vt row col)).

Definition gpu_dense `{Collaborators} (w : ndarray Q) (x0 y0 : Q)
    (window_size ovl order : nat) (row col : nat) : Q :=
  let step := inject_Z (Z.of_nat window_size - Z.of_nat ovl) in
  map_coordinates_at w order mode_constant 0%Q true
    ((inject_Z (Z.of_nat row) - y0) / step)%Q
    ((inject_Z (Z.of_nat col) - x0) / step)%Q.

(* ===================================================================== *)
(** * A small concrete world                                              *)
(* ===================================================================== *)

(** Concrete collaborators on which the engines can be run: order-1
    (bilinear) resampling with SciPy's ['nearest'] and ['constant']
    boundary modes, a degree-1 [RectBivariateSpline], a scripted correlation
    engine, validation by global displacement bounds, and outlier
    replacement by the local mean.  They serve the concrete runs below; the
    general theorems do not depend on them. *)
Module Demo.

Definition clamp_index (n : nat) (i : Z) : nat :=
  Z.to_nat (Z.max 0 (Z.min (Z.of_nat n - 1) i)).

Definition Qclamp (lo hi q : Q) : Q :=
  if Qle_bool q lo then lo else if Qle_bool hi q then hi else q.

(** Bilinear interpolation between the four pixels around [(y, x)]. *)
Definition bilinear (a : ndarray Q) (y x : Q) : Q :=
  let i := Qfloor y in
  let j := Qfloor x in
  let fy := (y - inject_Z i)%Q in
  let fx := (x - inject_Z j)%Q in
  let px di dj := item a (clamp_index (nrows a) (i + di))
                         (clamp_index (ncols a) (j + dj)) in
  Qred ((1 - fy) * ((1 - fx) * px 0%Z 0%Z + fx * px 0%Z 1%Z)
        + fy * ((1 - fx) * px 1%Z 0%Z + fx * px 1%Z 1%Z))%Q.

Definition last_index (n : nat) : Q := inject_Z (Z.of_nat n - 1).

Definition outside (a : ndarray Q) (y x : Q) : bool :=
  negb (Qle_bool 0 y) || negb (Qle_bool y (last_index (nrows a))) ||
  negb (Qle_bool 0 x) || negb (Qle_bool x (last_index (ncols a))).

(** [map_coordinates] at order 1: beyond the edges ['constant'] yields
    [cval] and ['nearest'] clamps the coordinate to the edge. *)
Definition sample (a : ndarray Q) (order : nat) (mode : boundary_mode)
    (cval : Q) (prefilter : bool) (y x : Q) : Q :=
  match mode with
  | mode_constant => if outside a y x then cval else bilinear a y x
  | mode_nearest =>
      bilinear a (Qclamp 0 (last_index (nrows a)) y)
                 (Qclamp 0 (last_index (ncols a)) x)
  end.

(** The mask at the pixel nearest below the coordinate, false outside. *)
Definition sample_mask (m : ndarray bool) (y x : Q) : bool :=
  if negb (Qle_bool 0 y) || negb (Qle_bool y (last_index (nrows m))) ||
     negb (Qle_bool 0 x) || negb (Qle_bool x (last_index (ncols m)))
  then false
  else item m (Z.to_nat (Qfloor y)) (Z.to_nat (Qfloor x)).

(** The knot interval that holds [t], and the position of [t] inside it. *)
Fixpoint locate (knots : list Q) (i : nat) (t : Q) : nat * Q :=
  match knots with
  | k0 :: rest =>
      match rest with
      | k1 :: _ =>
          if Qle_bool t k1 then (i, ((t - k0) / (k1 - k0))%Q)
          else locate rest (S i) t
      | [] => (i, 0%Q)
      end
  | [] => (i, 0%Q)
  end.

(** A degree-1 spline through the grid values, constant beyond the grid. *)
Definition spline1 (ys xs : list Q) (z : ndarray Q) (kx ky : nat) (y x : Q)
  : Q :=
  let '(i, fy) := locate ys 0 (Qclamp (hd 0%Q ys) (last ys 0%Q) y) in
  let '(j, fx) := locate xs 0 (Qclamp (hd 0%Q xs) (last xs 0%Q) x) in
  Qred ((1 - fy) * ((1 - fx) * item z i j + fx * item z i (S j))
        + fy * ((1 - fx) * item z (S i) j + fx * item z (S i) (S j)))%Q.

(** The scripted correlation engine: [script window_size overlap k] is the
    triple [(u, v, s2n)] reported for window [k]. *)
Definition correlate (script : nat -> nat -> nat -> Q * Q * Q)
    (frame_a frame_b : ndarray Q) (window_size ovl : nat)
    (search_area_size : option nat) (width : nat)
    (sp : subpixel_method_t) (sn : option sig2noise_method_t)
    (cm : correlation_method_t) (normalized : bool) (max_array : nat)
  : list Q * list Q * list Q :=
  let n := ((nrows frame_a - window_size) / (window_size - ovl) + 1)
           * ((ncols frame_a - window_size) / (window_size - ovl) + 1) in
  let cells := map (script window_size ovl) (seq 0 n) in
  (map (fun t => fst (fst t)) cells,
   map (fun t => snd (fst t)) cells,
   map snd cells).

Definition out_of_bounds (q : Q) : bool :=
  negb (Qle_bool (-10) q) || negb (Qle_bool q 10).

(** Validation by global bounds: a vector is invalid if a component lies
    outside [-10, 10]. *)
Definition validate (u v : field) (s2n : ndarray Q) (s : PIVSettings)
  : ndarray bool :=
  NdArray (nrows (fdata u)) (ncols (fdata u))
    (fun r c => out_of_bounds (item (fdata u) r c)
                || out_of_bounds (item (fdata v) r c)).

(** The valid cells of the (2k+1) x (2k+1) neighbourhood of [(r, c)]. *)
Definition valid_neighbours (d : ndarray Q) (flags : ndarray bool)
    (k r c : nat) : list Q :=
  flat_map
    (fun i =>
       flat_map
         (fun j => if item flags i j then [] else [item d i j])
         (seq (c - k) (Nat.min (ncols d) (c + k + 1) - (c - k))))
    (seq (r - k) (Nat.min (nrows d) (r + k + 1) - (r - k))).

Definition mean (l : list Q) : Q :=
  Qred (fold_right Qplus 0%Q l / inject_Z (Z.of_nat (length l)))%Q.

(** One sweep of local-mean replacement: a flagged cell takes the mean of
    its valid neighbours, and keeps its value if it has none or if no
    iteration is allowed. *)
Definition repair_component (w : field) (flags : ndarray bool)
    (max_iter kernel_size : nat) : field :=
  let d := fdata w in
  Masked
    (NdArray (nrows d) (ncols d)
       (fun r c =>
          if item flags r c && negb (max_iter =? 0) then
            match valid_neighbours d flags kernel_size r c with
            | [] => item d r c
            | l => mean l
            end
          else item d r c))
    (fmask w).

Definition repair (u v : field) (flags : ndarray bool) (m : filter_method_t)
    (max_iter kernel_size : nat) : field * field :=
  (repair_component u flags max_iter kernel_size,
   repair_component v flags max_iter kernel_size).

(** Smoothing that pulls every value towards zero. *)
Definition smooth (w : field) (s : Q) : field :=
  let f := fun q => Qred (q / (1 + s))%Q in
  match w with
  | Plain d => Plain (arr_map f d)
  | Masked d m => Masked (arr_map f d) m
  end.

Definition to_uint8 (q : Q) : Q := inject_Z (Qfloor q mod 256).

Definition world (script : nat -> nat -> nat -> Q * Q * Q) : Collaborators :=
  {| extended_search_area_piv := correlate script;
     RectBivariateSpline := spline1;
     map_coordinates_at := sample;
     map_coordinates_mask := sample_mask;
     typical_validation := validate;
     replace_outliers := repair;
     smoothn_smoothn := smooth;
     invert_value := fun q => (255 - q)%Q;
     dynamic_masking := fun f _ _ _ => (f, zeros_like_bool f);
     astype_uint8 := to_uint8;
     cp_empty_item := fun _ _ => 7%Q |}.

(** Settings for an 8 x 8 frame: windows of 4 pixels, without overlap on
    the first pass and with an overlap of 2 after it. *)
Definition settings (passes : nat) (smooth_on replace_on : bool)
    (mask : option (ndarray bool)) (max_iter : nat) : PIVSettings :=
  {| windowsizes := [4; 4; 4];
     overlap := [0; 2; 2];
     num_iterations := passes;
     roi := None;
     invert := false;
     static_mask := mask;
     dynamic_masking_method := None;
     dynamic_masking_filter_size := 7;
     dynamic_masking_threshold := 0%Q;
     sig2noise_mask := 2;
     subpixel_method := gaussian;
     sig2noise_method := Some peak2peak;
     sig2noise_validate := false;
     correlation_method := circular;
     normalized_correlation := false;
     max_array_size := 1000;
     smoothn := smooth_on;
     smoothn_p := 1%Q;
     validation_first_pass := true;
     replace_vectors := replace_on;
     filter_method := localmean;
     max_filter_iteration := max_iter;
     filter_kernel_size := 1;
     interpolation_order := 1 |}.

(** An 8 x 8 frame whose pixel [(r, c)] holds [8 r + c]. *)
Definition ramp : ndarray Q :=
  NdArray 8 8 (fun r c => inject_Z (Z.of_nat (8 * r + c))).

(** A correlation engine that reports one pixel to the right everywhere. *)
Definition quiet : nat -> nat -> nat -> Q * Q * Q :=
  fun _ _ _ => (1%Q, 0%Q, 2%Q).

End Demo.

(** The passes on which outlier replacement and smoothing were called, in
    the order of the calls. *)
Definition repaired_passes (t : list event) : list nat :=
  flat_map (fun ev => match ev with CallReplaceOutliers i => [i] | _ => [] end) t.

Definition smoothed_passes (t : list event) : list nat :=
  flat_map (fun ev => match ev with CallSmoothn i => [i] | _ => [] end) t.

(** The passes on which the correlation engine was called. *)
Definition correlated_passes (t : list event) : list nat :=
  flat_map (fun ev => match ev with CallCorrelate i => [i] | _ => [] end) t.

(** The events a single pass [i] may log. *)
Definition event_of_pass (i : nat) (ev : event) : Prop :=
  match ev with
  | CallCorrelate j | CallDeform j | CallValidate j
  | CallReplaceOutliers j | CallSmoothn j => j = i
  | CallSave => False
  end.

(** Settings that differ at most in [sig2noise_method]. *)
Definition same_plan (s s' : PIVSettings) : Prop :=
  s' = s \/ s' = clear_sig2noise_method s.

(** What pass [i] of a run with settings [s] may log: outlier replacement
    and smoothing only if another pass follows. *)
Definition later_pass_event (s : PIVSettings) (i : nat) (ev : event) : Prop :=
  match ev with
  | CallCorrelate j | CallDeform j | CallValidate j => j = i
  | CallReplaceOutliers j => j = i /\ i + 1 <> num_iterations s
  | CallSmoothn j => j = i /\ smoothn s = true /\ i + 1 <> num_iterations s
  | CallSave => False
  end.

(** The passes of [l] that are not the last of the run. *)
Definition not_last (s : PIVSettings) (l : list nat) : list nat :=
  filter (fun i => negb (i + 1 =? num_iterations s)) l.

(** Each pass listed twice, for the two smoothing calls ([u] and [v]). *)
Definition twice (l : list nat) : list nat := flat_map (fun i => [i; i]) l.

(** What a whole run with settings [s] may log besides correlation,
    deformation and validation: outlier replacement on a pass that is
    followed by another, or on the only pass when [replace_vectors] asks for
    it; smoothing after the first pass, or after a later pass that is
    followed by another. *)
Definition run_event (s : PIVSettings) (ev : event) : Prop :=
  match ev with
  | CallCorrelate _ | CallDeform _ | CallValidate _ => True
  | CallReplaceOutliers i =>
      i + 1 < num_iterations s \/
      (i = 0 /\ num_iterations s = 1 /\ replace_vectors s = true)
  | CallSmoothn i =>
      smoothn s = true /\ (i = 0 \/ i + 1 < num_iterations s)
  | CallSave => False
  end.

(** The passes on which a completed run repairs, and those after which it
    smooths. *)
Definition repair_plan (s : PIVSettings) : list nat :=
  if (num_iterations s =? 1) && replace_vectors s then [0]
  else seq 0 (num_iterations s - 1).

Definition smoothing_plan (s : PIVSettings) : list nat :=
  if smoothn s then twice (0 :: seq 1 (num_iterations s - 2)) else [].

(** The claim's words: the previous pass's field [z], given on the grid
    [(x_old, y_old)], resampled onto the grid of pass [i]. *)
Definition resampled_on_new_grid `{Collaborators} (frame_a : ndarray Q)
    (i : nat) (x_old y_old z : ndarray Q) (s : PIVSettings)
  : result (ndarray Q) :=
  try window_size := py_index (windowsizes s) i in
  try ovl := py_index (overlap s) i in
  try grid := get_rect_coordinates (shape frame_a) window_size ovl in
  try y_old := col0 y_old in
  try x_old := row0 x_old in
  try y_new := col0 (snd grid) in
  try x_new := row0 (fst grid) in
  Ok (spline_on_grid
        (RectBivariateSpline y_old x_old z
           (interpolation_order s) (interpolation_order s))
        y_new x_new).


Module DemoInputs.

(** The 3 x 3 grid of 4-pixel windows with overlap 2 on an 8 x 8 frame. *)
Definition grid_x : ndarray Q :=
  fst (meshgrid (grid_axis 3 4 2) (grid_axis 3 4 2)).
Definition grid_y : ndarray Q :=
  snd (meshgrid (grid_axis 3 4 2) (grid_axis 3 4 2)).

(** A uniform displacement of half a pixel to the right. *)
Definition half_right : ndarray Q := full 3 3 (1 # 2)%Q.
Definition still : ndarray Q := full 3 3 0%Q.

End DemoInputs.

(** More inputs for the small world. *)
Module DemoRuns.

(** The 2 x 2 grid of the first pass (4-pixel windows, no overlap). *)
Definition coarse_x : ndarray Q :=
  fst (meshgrid (grid_axis 2 4 0) (grid_axis 2 4 0)).
Definition coarse_y : ndarray Q :=
  snd (meshgrid (grid_axis 2 4 0) (grid_axis 2 4 0)).

Definition at_rest : field := Plain (full 2 2 0%Q).

(** A correlation engine that reports one pixel to the right everywhere,
    except for a spurious 50 pixels at window 4, the centre of the 3 x 3
    grid. *)
Definition spike : nat -> nat -> nat -> Q * Q * Q :=
  fun _ _ k => if k =? 4 then (50%Q, 0%Q, 2%Q) else (1%Q, 0%Q, 2%Q).

(** The same spurious 50 pixels at window 0, a corner of either grid. *)
Definition corner_spike : nat -> nat -> nat -> Q * Q * Q :=
  fun _ _ k => if k =? 0 then (50%Q, 0%Q, 2%Q) else (1%Q, 0%Q, 2%Q).

(** A correlation engine that reports 50 pixels everywhere. *)
Definition storm : nat -> nat -> nat -> Q * Q * Q :=
  fun _ _ _ => (50%Q, 0%Q, 2%Q).

(** A correlation engine that reports 50 pixels everywhere on the first
    pass (the one without overlap) and takes them back on the next. *)
Definition false_start : nat -> nat -> nat -> Q * Q * Q :=
  fun _ ovl _ => if ovl =? 0 then (50%Q, 0%Q, 2%Q) else ((-50)%Q, 0%Q, 2%Q).

Definition three_passes : PIVSettings := Demo.settings 3 false false None 1.
Definition two_passes : PIVSettings := Demo.settings 2 false false None 1.

Definition three_smoothed : PIVSettings := Demo.settings 3 true false None 1.

(** Three passes with an outlier filter that is allowed no iteration. *)
Definition no_repair_iterations : PIVSettings :=
  Demo.settings 3 false false None 0.

(** A single pass with [replace_vectors], and one with smoothing. *)
Definition single_with_repair : PIVSettings :=
  Demo.settings 1 false true None 1.
Definition single_with_smoothing : PIVSettings :=
  Demo.settings 1 true false None 1.

(** Two passes behind a static mask that covers the whole frame. *)
Definition all_masked : ndarray bool := full 8 8 true.
Definition two_passes_masked : PIVSettings :=
  Demo.settings 2 false false (Some all_masked) 1.

End DemoRuns.


(** The claim C1 as it holds, for one returned pass of the CPU engine:
    the validated field [(u_acc, v_acc)] is the residual plus the previous
    field resampled onto the new grid, and the returned [(u, v)] is that
    field on the last pass and its repair on an earlier pass. *)
Definition cpu_accumulation `{Collaborators} (frame_a frame_b : ndarray Q)
    (i : nat) (x_old y_old : ndarray Q) (u_old v_old : field)
    (s : PIVSettings)
    (out : ndarray Q * ndarray Q * field * field * ndarray bool
           * ndarray bool * PIVSettings) : Prop :=
  let '(x, y, u, v, grid_mask, flags, s') := out in
  exists ws ov u_pre v_pre res_u res_v s2n u_acc v_acc,
    resampled_on_new_grid frame_a i x_old y_old (np_ma_filled u_old 0%Q) s
      = Ok u_pre /\
    resampled_on_new_grid frame_a i x_old y_old (np_ma_filled v_old 0%Q) s
      = Ok v_pre /\
    Windef.residual frame_a frame_b i ws ov x y u_pre v_pre s
      = ([CallDeform i; CallCorrelate i], Ok (res_u, res_v, s2n, s')) /\
    arr_eq (fdata u_acc) (arr_zip Qplus res_u u_pre) /\
    arr_eq (fdata v_acc) (arr_zip Qplus res_v v_pre) /\
    flags = typical_validation u_acc v_acc s2n s' /\
    (u, v) = (if i + 1 =? num_iterations s then (u_acc, v_acc)
              else replace_outliers u_acc v_acc flags (filter_method s')
                     (max_filter_iteration s') (filter_kernel_size s')).

(** The same for the GPU engine, which resamples onto a padded grid
    [(x_pad, y_pad)] and accumulates the part of it that lies on the new
    grid. *)
Definition gpu_accumulation `{Collaborators} (frame_a frame_b : ndarray Q)
    (i : nat) (x_old y_old : ndarray Q) (u_old v_old : field)
    (s : PIVSettings)
    (out : ndarray Q * ndarray Q * field * field * ndarray bool
           * ndarray bool * PIVSettings) : Prop :=
  let '(x, y, u, v, grid_mask, flags, s') := out in
  exists ws ov x_pad y_pad u_pad v_pad res_u res_v s2n u_pre v_pre
         u_acc v_acc validated,
    resampled_on_new_grid frame_a i x_old y_old (fdata u_old) s = Ok u_pre /\
    resampled_on_new_grid frame_a i x_old y_old (fdata v_old) s = Ok v_pre /\
    WindefGpu.residual frame_a frame_b i ws ov x_pad y_pad u_pad v_pad s
      = ([CallDeform i; CallCorrelate i], Ok (res_u, res_v, s2n, s')) /\
    arr_eq u_acc (arr_zip Qplus res_u u_pre) /\
    arr_eq v_acc (arr_zip Qplus res_v v_pre) /\
    validated = typical_validation (Plain u_acc) (Plain v_acc) s2n s' /\
    (u, v) = (if i + 1 =? num_iterations s
              then (Plain u_acc, Plain v_acc)
              else replace_outliers (Plain u_acc) (Plain v_acc) validated
                     (filter_method s') (max_filter_iteration s')
                     (filter_kernel_size s')).

(** What a completed CPU run of two or more passes hands over, in terms of
    its last pass: the grid and the flags that the validation of pass
    [num_iterations s - 1] returned, and its validated field, zero-filled
    under the mask, flipped and negated; no repair and no smoothing in
    between. *)
Definition cpu_saves_last_validated `{Collaborators} (raw_a raw_b : ndarray Q)
    (s : PIVSettings) (sv : saved) : Prop :=
  exists frame_a frame_b im x_old y_old u_old v_old s1 u v gm s',
    Windef.prepare_images raw_a raw_b s = Ok (frame_a, frame_b, im) /\
    Windef.validated_pass frame_a frame_b (num_iterations s - 1)
      x_old y_old u_old v_old s1
      = ([CallDeform (num_iterations s - 1);
          CallCorrelate (num_iterations s - 1);
          CallValidate (num_iterations s - 1)],
         Ok (sv_x sv, sv_y sv, u, v, gm, sv_flags sv, s')) /\
    fdata (sv_u sv) = arr_neg (flipud (np_ma_filled u 0%Q)) /\
    fdata (sv_v sv) = arr_neg (flipud (np_ma_filled v 0%Q)).

(** The same for the GPU engine, whose validated field is a plain array on
    a grid [(x_pad, y_pad)] that is still padded. *)
Definition gpu_saves_last_validated `{Collaborators} (raw_a raw_b : ndarray Q)
    (s : PIVSettings) (sv : saved) : Prop :=
  exists frame_a frame_b x_old y_old u_old v_old s1 y_add x_add x_pad y_pad
         u v gm s',
    WindefGpu.prepare_images raw_a raw_b s = Ok (frame_a, frame_b) /\
    WindefGpu.validated_pass frame_a frame_b (num_iterations s - 1)
      x_old y_old u_old v_old s1
      = ([CallDeform (num_iterations s - 1);
          CallCorrelate (num_iterations s - 1);
          CallValidate (num_iterations s - 1)],
         Ok (y_add, x_add, x_pad, y_pad, u, v, gm, sv_flags sv, s')) /\
    sv_u sv = neg_flipud (Plain u) /\
    sv_v sv = neg_flipud (Plain v).

(** Whether a run completed. *)
Definition completed {A} (m : M A) : bool :=
  match outcome m with Ok _ => true | Raise _ => false end.

(** The flags in what [validated_pass] and [multipass_img_deform] return:
    the last but one component of either tuple. *)
Definition flags_of {A B C : Type} (out : A * B * C) : B := snd (fst out).

(** The state of either engine before pass 1 of three in the small world:
    the 2 x 2 grid of the first pass with a field at rest. *)
Module DemoStates.

Definition cpu_before_pass_1 : Windef.pass_state :=
  {| Windef.ps_x := DemoRuns.coarse_x; Windef.ps_y := DemoRuns.coarse_y;
     Windef.ps_u := DemoRuns.at_rest; Windef.ps_v := DemoRuns.at_rest;
     Windef.ps_grid_mask := full 2 2 false;
     Windef.ps_flags := full 2 2 false;
     Windef.ps_settings := DemoRuns.three_passes;
     Windef.ps_i := None |}.

Definition gpu_before_pass_1 : WindefGpu.pass_state :=
  {| WindefGpu.ps_x := DemoRuns.coarse_x; WindefGpu.ps_y := DemoRuns.coarse_y;
     WindefGpu.ps_u := DemoRuns.at_rest; WindefGpu.ps_v := DemoRuns.at_rest;
     WindefGpu.ps_flags := full 2 2 false;
     WindefGpu.ps_settings := DemoRuns.three_passes |}.

End DemoStates.

(** What the CPU pass [i] returns once its validation returned [out] with
    some cell left unflagged: the pass returns, and the flags it returns
    are the flags of the validation. *)
Definition cpu_flags_kept `{Collaborators} (frame_a frame_b : ndarray Q)
    (i : nat) (x_old y_old : ndarray Q) (u_old v_old : field)
    (s : PIVSettings)
    (out : ndarray Q * ndarray Q * field * field * ndarray bool
           * ndarray bool * PIVSettings) : Prop :=
  exists t' out',
    Windef.multipass_img_deform frame_a frame_b i x_old y_old u_old v_old s
      = (t', Ok out') /\
    flags_of out' = flags_of out.

(** The same for the GPU pass: it returns, with the flags of the validation
    on the last pass and with no cell flagged on an earlier pass. *)
Definition gpu_flags_reset `{Collaborators} (frame_a frame_b : ndarray Q)
    (i : nat) (x_old y_old : ndarray Q) (u_old v_old : field)
    (s : PIVSettings)
    (out : (Z * Z) * (Z * Z) * ndarray Q * ndarray Q * ndarray Q * ndarray Q
           * ndarray bool * ndarray bool * PIVSettings) : Prop :=
  exists t' out',
    WindefGpu.multipass_img_deform frame_a frame_b i x_old y_old u_old v_old s
      = (t', Ok out') /\
    (i + 1 = num_iterations s -> flags_of out' = flags_of out) /\
    (i + 1 <> num_iterations s ->
     forall r c, item (flags_of out') r c = false).

(** The cell [(r, c)] of an exported field [out], against the internal
    field [w] and the grid mask [m]: its value is that of the internal cell
    in the mirrored row, zero if that cell was masked, negated; it is masked
    where the flipped grid mask is set. *)
Definition exported_cell (w : field) (m : ndarray bool) (out : field)
    (r c : nat) : Prop :=
  let r' := nrows (fdata w) - 1 - r in
  item (fdata out) r c
  = Qopp (if item (fmask w) r' c then 0%Q else item (fdata w) r' c) /\
  item (fmask out) r c = item (flipud m) r c.

(** What a completed CPU run hands to [tools.save], in terms of the image
    mask [im] and the state [st] that its passes left. *)
Definition cpu_export `{Collaborators} (im : option (ndarray bool))
    (st : Windef.pass_state) (sv : saved) : Prop :=
  sv_x sv = Windef.ps_x st /\ sv_y sv = Windef.ps_y st /\
  sv_flags sv = Windef.ps_flags st /\
  sv_grid_mask sv
  = match im with
    | Some m => mask_on_grid m (Windef.ps_y st) (Windef.ps_x st)
    | None => Windef.ps_grid_mask st
    end /\
  let final_mask :=
    match im with
    | Some _ => sv_grid_mask sv
    | None => zeros_like_bool (fdata (Windef.ps_u st))
    end in
  forall r c,
    exported_cell (Windef.ps_u st) final_mask (sv_u sv) r c /\
    exported_cell (Windef.ps_v st) final_mask (sv_v sv) r c.

Definition cpu_finalized `{Collaborators} (raw_a raw_b : ndarray Q)
    (s : PIVSettings) (t : list event) (sv : saved) : Prop :=
  exists t1 im st,
    Windef.run_passes raw_a raw_b s = (t1, Ok (im, st)) /\
    t = t1 ++ [CallSave] /\
    cpu_export im st sv.

(** The cell [(r, c)] of a field [out] that is handed over as it is: its
    value is that of the internal cell in the mirrored row, negated, and its
    mask is the internal mask, mirrored; nothing is filled and no grid mask
    is applied. *)
Definition passed_on_cell (w : field) (out : field) (r c : nat) : Prop :=
  let r' := nrows (fdata w) - 1 - r in
  item (fdata out) r c = Qopp (item (fdata w) r' c) /\
  item (fmask out) r c = item (flipud (fmask w)) r c.

(** What a completed GPU run hands to [tools.save]: the field of the state
    [st] with its rows mirrored and its values negated, no cell filled, and
    a grid mask with no cell set that is not applied to the field. *)
Definition gpu_export (st : WindefGpu.pass_state) (sv : saved) : Prop :=
  sv_x sv = WindefGpu.ps_x st /\ sv_y sv = WindefGpu.ps_y st /\
  sv_flags sv = WindefGpu.ps_flags st /\
  sv_grid_mask sv = zeros_like_bool (fdata (WindefGpu.ps_u st)) /\
  sv_u sv = neg_flipud (WindefGpu.ps_u st) /\
  sv_v sv = neg_flipud (WindefGpu.ps_v st) /\
  forall r c,
    passed_on_cell (WindefGpu.ps_u st) (sv_u sv) r c /\
    passed_on_cell (WindefGpu.ps_v st) (sv_v sv) r c.

Definition gpu_finalized `{Collaborators} (raw_a raw_b : ndarray Q)
    (s : PIVSettings) (t : list event) (sv : saved) : Prop :=
  exists t1 st,
    WindefGpu.run_passes raw_a raw_b s = (t1, Ok st) /\
    t = t1 ++ [CallSave] /\
    gpu_export st sv.

(** The claim C8 as it holds for a completed CPU run whose prepared images
    come with the mask [m]: the grid handed over is the grid of the last
    pass, fixed by the frame and the settings, and the grid mask is [m]
    sampled at each of its window centres. *)
Definition cpu_grid_mask_sampled `{Collaborators} (frame_a : ndarray Q)
    (m : ndarray bool) (s : PIVSettings) (sv : saved) : Prop :=
  (exists ws ov,
      py_index (windowsizes s) (num_iterations s - 1) = Ok ws /\
      py_index (overlap s) (num_iterations s - 1) = Ok ov /\
      get_rect_coordinates (shape frame_a) ws ov = Ok (sv_x sv, sv_y sv)) /\
  forall r c,
    item (sv_grid_mask sv) r c
    = map_coordinates_mask m (item (sv_y sv) r c) (item (sv_x sv) r c).

(** The calls of a run, in the order the source makes them.  The first
    pass correlates, smooths, validates, repairs; a later pass deforms,
    correlates, validates, and then, if another pass follows, repairs and
    smooths. *)
Definition first_pass_calls (s : PIVSettings) : list event :=
  [CallCorrelate 0]
  ++ (if smoothn s then [CallSmoothn 0; CallSmoothn 0] else [])
  ++ (if validation_first_pass s then [CallValidate 0] else [])
  ++ (if (num_iterations s =? 1) && replace_vectors s
         || (1 <? num_iterations s)
      then [CallReplaceOutliers 0] else []).

Definition pass_calls (s : PIVSettings) (i : nat) : list event :=
  [CallDeform i; CallCorrelate i; CallValidate i]
  ++ (if i + 1 =? num_iterations s then []
      else CallReplaceOutliers i
           :: (if smoothn s then [CallSmoothn i; CallSmoothn i] else [])).

Definition schedule (s : PIVSettings) : list event :=
  first_pass_calls s
  ++ flat_map (pass_calls s) (seq 1 (num_iterations s - 1))
  ++ [CallSave].

(** The settings as a pass after the first leaves them:
    [if settings.sig2noise_validate is False: settings.sig2noise_method = None]. *)
Definition settled (s : PIVSettings) : PIVSettings :=
  if sig2noise_validate s then s else clear_sig2noise_method s.

(** Settings with other window sizes and overlaps. *)
Definition with_windows (s : PIVSettings) (ws ov : list nat) : PIVSettings :=
  {| windowsizes := ws;
     overlap := ov;
     num_iterations := num_iterations s;
     roi := roi s;
     invert := invert s;
     static_mask := static_mask s;
     dynamic_masking_method := dynamic_masking_method s;
     dynamic_masking_filter_size := dynamic_masking_filter_size s;
     dynamic_masking_threshold := dynamic_masking_threshold s;
     sig2noise_mask := sig2noise_mask s;
     subpixel_method := subpixel_method s;
     sig2noise_method := sig2noise_method s;
     sig2noise_validate := sig2noise_validate s;
     correlation_method := correlation_method s;
     normalized_correlation := normalized_correlation s;
     max_array_size := max_array_size s;
     smoothn := smoothn s;
     smoothn_p := smoothn_p s;
     validation_first_pass := validation_first_pass s;
     replace_vectors := replace_vectors s;
     filter_method := filter_method s;
     max_filter_iteration := max_filter_iteration s;
     filter_kernel_size := filter_kernel_size s;
     interpolation_order := interpolation_order s |}.

Module DemoEdge.

(** Two passes on the 8 x 8 frame, the second with windows of 2 pixels
    that tile the frame exactly: the last window centre is pixel 7. *)
Definition tight_windows : PIVSettings :=
  with_windows DemoRuns.two_passes [4; 2] [0; 0].

End DemoEdge.

(** The trailing counts [y_add[1]] and [x_add[1]] in what [predict] of the
    GPU engine returns. *)
Definition room_after
    (p : nat * nat * (Z * Z) * (Z * Z)
         * ndarray Q * ndarray Q * ndarray Q * ndarray Q) : Z * Z :=
  let '(_, _, y_add, x_add, _, _, _, _) := p in (snd y_add, snd x_add).

(** Settings with another region of interest and static mask. *)
Definition with_region (s : PIVSettings) (r : option (Z * Z * Z * Z))
    (m : option (ndarray bool)) : PIVSettings :=
  {| windowsizes := windowsizes s;
     overlap := overlap s;
     num_iterations := num_iterations s;
     roi := r;
     invert := invert s;
     static_mask := m;
     dynamic_masking_method := dynamic_masking_method s;
     dynamic_masking_filter_size := dynamic_masking_filter_size s;
     dynamic_masking_threshold := dynamic_masking_threshold s;
     sig2noise_mask := sig2noise_mask s;
     subpixel_method := subpixel_method s;
     sig2noise_method := sig2noise_method s;
     sig2noise_validate := sig2noise_validate s;
     correlation_method := correlation_method s;
     normalized_correlation := normalized_correlation s;
     max_array_size := max_array_size s;
     smoothn := smoothn s;
     smoothn_p := smoothn_p s;
     validation_first_pass := validation_first_pass s;
     replace_vectors := replace_vectors s;
     filter_method := filter_method s;
     max_filter_iteration := max_filter_iteration s;
     filter_kernel_size := filter_kernel_size s;
     interpolation_order := interpolation_order s |}.

(** [skimage.util.invert] if [settings.invert] is set. *)
Definition toned `{Collaborators} (s : PIVSettings) (q : Q) : Q :=
  if invert s then invert_value q else q.

(** Two extents that NumPy can broadcast against each other. *)
Definition broadcastable (n k : nat) : Prop := n = k \/ n = 1 \/ k = 1.

Module DemoMasks.

(** A mask over the left half of a 4 x 4 region. *)
Definition left_half : ndarray bool := NdArray 4 4 (fun _ c => c <? 2).

(** The top left 4 x 4 pixels of the frame as region of interest, with the
    mask over the left half of that region, and with a mask that has the
    size of the whole frame. *)
Definition corner_roi : option (Z * Z * Z * Z) := Some (0%Z, 4%Z, 0%Z, 4%Z).
Definition masked_corner : PIVSettings :=
  with_region DemoRuns.two_passes corner_roi (Some left_half).
Definition frame_sized_mask : PIVSettings :=
  with_region DemoRuns.two_passes corner_roi (Some DemoRuns.all_masked).

End DemoMasks.

(** The claim of the padding, for one pixel of the frame: the coordinates
    at which the GPU deformer reads the coarse field [w] for pixel
    [(r, c)], given the padded grid [(x, y)], lie inside [w]. *)
Definition reads_inside (x y w : ndarray Q) (window_size ovl r c : nat)
  : Prop :=
  let step := inject_Z (Z.of_nat window_size - Z.of_nat ovl) in
  let row := ((inject_Z (Z.of_nat r) - item y 0 0) / step)%Q in
  let col := ((inject_Z (Z.of_nat c) - item x 0 0) / step)%Q in
  (0 <= row)%Q /\ (row <= inject_Z (Z.of_nat (nrows w)) - 1)%Q /\
  (0 <= col)%Q /\ (col <= inject_Z (Z.of_nat (ncols w)) - 1)%Q.

(* ===================================================================== *)
(** * Slices                                                              *)
(* ===================================================================== *)

Lemma py_clip_inside (n : nat) (i : Z) :
  (0 <= i <= Z.of_nat n)%Z -> py_clip n i = Z.to_nat i.
Proof.
  intros Hi. unfold py_clip.
  destruct (Z.ltb_spec i 0); [lia|].
  rewrite Z.min_l by lia. reflexivity.
Qed.

Lemma py_clip_negative (n : nat) (i : Z) :
  (0 < i <= Z.of_nat n)%Z -> py_clip n (- i) = n - Z.to_nat i.
Proof.
  intros Hi. unfold py_clip.
  destruct (Z.ltb_spec (- i) 0); [|lia].
  rewrite Z.max_l by lia. lia.
Qed.

Lemma py_clip_le (n : nat) (i : Z) : py_clip n i <= n.
Proof.
  unfold py_clip. destruct (Z.ltb_spec i 0); lia.
Qed.

(* ===================================================================== *)
(** * [prepare_images]                                                    *)
(* ===================================================================== *)

Lemma half_diff_nat (a b : nat) :
  a <= b ->
  ((Z.of_nat b - Z.of_nat a) / 2)%Z = Z.of_nat ((b - a) / 2).
Proof.
  intros Hab.
  rewrite Nat2Z.inj_div, Nat2Z.inj_sub by lia. reflexivity.
Qed.

Lemma half_le (n : nat) : n / 2 <= n.
Proof. apply Nat.Div0.div_le_upper_bound. lia. Qed.

Lemma half_sub_zero (a b : nat) : a <= b -> (a - b) / 2 = 0.
Proof. intros Hle. replace (a - b) with 0 by lia. reflexivity. Qed.

Lemma crop_cols_facts (a : ndarray Q) (n : nat) :
  n <= ncols a ->
  let off := ((Z.of_nat (ncols a) - Z.of_nat n) / 2)%Z in
  let b := slice_cols a off (off + Z.of_nat n) in
  nrows b = nrows a /\ ncols b = n /\
  forall r c, item b r c = item a r ((ncols a - n) / 2 + c).
Proof.
  intros Hn off b. subst off b.
  unfold slice_cols, py_slice.
  rewrite half_diff_nat by lia.
  pose proof (half_le (ncols a - n)).
  rewrite !py_clip_inside by lia.
  rewrite Z2Nat.inj_add, !Nat2Z.id by lia.
  cbn [nrows ncols item]. repeat split; lia.
Qed.

Lemma crop_rows_facts (a : ndarray Q) (n : nat) :
  n <= nrows a ->
  let off := ((Z.of_nat (nrows a) - Z.of_nat n) / 2)%Z in
  let b := slice_rows a off (off + Z.of_nat n) in
  nrows b = n /\ ncols b = ncols a /\
  forall r c, item b r c = item a ((nrows a - n) / 2 + r) c.
Proof.
  intros Hn off b. subst off b.
  unfold slice_rows, py_slice.
  rewrite half_diff_nat by lia.
  pose proof (half_le (nrows a - n)).
  rewrite !py_clip_inside by lia.
  rewrite Z2Nat.inj_add, !Nat2Z.id by lia.
  cbn [nrows ncols item]. repeat split; lia.
Qed.

Lemma np_pad_nat (a : ndarray Q) (t b l r : nat) :
  np_pad a (Z.of_nat t) (Z.of_nat b) (Z.of_nat l) (Z.of_nat r) =
  Ok (NdArray (t + nrows a + b) (l + ncols a + r)
        (fun i j =>
           if (t <=? i) && (i <? t + nrows a) && (l <=? j) && (j <? l + ncols a)
           then item a (i - t) (j - l) else 0%Q)).
Proof.
  unfold np_pad.
  destruct (Z.ltb_spec (Z.of_nat t) 0); [lia|].
  destruct (Z.ltb_spec (Z.of_nat b) 0); [lia|].
  destruct (Z.ltb_spec (Z.of_nat l) 0); [lia|].
  destruct (Z.ltb_spec (Z.of_nat r) 0); [lia|].
  cbn [orb]. rewrite !Nat2Z.id. reflexivity.
Qed.

Lemma pad_widths (nb na : nat) :
  nb <= na ->
  let a := (Z.opp (Z.of_nat nb - Z.of_nat na) / 2)%Z in
  a = Z.of_nat ((na - nb) / 2) /\
  (- a + Z.of_nat na - Z.of_nat nb)%Z = Z.of_nat (na - nb - (na - nb) / 2).
Proof.
  intros Hle a. subst a.
  replace (- (Z.of_nat nb - Z.of_nat na))%Z with (Z.of_nat na - Z.of_nat nb)%Z by lia.
  rewrite half_diff_nat by lia.
  pose proof (half_le (na - nb)). split; lia.
Qed.

Lemma match_frame_b_spec (frame_a frame_b : ndarray Q) :
  exists b', match_frame_b frame_a frame_b = Ok b' /\
             arr_eq b' (central_crop_pad frame_a frame_b).
Proof.
  unfold match_frame_b. cbv zeta.
  set (b1 := if ncols frame_a <? ncols frame_b then _ else frame_b).
  assert (F1 : nrows b1 = nrows frame_b /\
               ncols b1 = Nat.min (ncols frame_a) (ncols frame_b) /\
               forall r c, item b1 r c =
                 item frame_b r ((ncols frame_b - ncols frame_a) / 2 + c)).
  { subst b1. destruct (Nat.ltb_spec (ncols frame_a) (ncols frame_b)) as [Hw|Hw].
    - destruct (crop_cols_facts frame_b (ncols frame_a)) as (E1 & E2 & E3); [lia|].
      split; [exact E1 | split; [lia | exact E3]].
    - replace (ncols frame_b - ncols frame_a) with 0 by lia.
      split; [reflexivity | split; [lia | reflexivity]]. }
  clearbody b1.
  set (b2 := if nrows frame_a <? nrows b1 then _ else b1).
  assert (F2 : nrows b2 = Nat.min (nrows frame_a) (nrows frame_b) /\
               ncols b2 = Nat.min (ncols frame_a) (ncols frame_b) /\
               forall r c, item b2 r c =
                 item frame_b ((nrows frame_b - nrows frame_a) / 2 + r)
                              ((ncols frame_b - ncols frame_a) / 2 + c)).
  { destruct F1 as (E1 & E2 & E3). subst b2.
    destruct (Nat.ltb_spec (nrows frame_a) (nrows b1)) as [Hh|Hh].
    - destruct (crop_rows_facts b1 (nrows frame_a)) as (G1 & G2 & G3); [lia|].
      split; [lia | split; [lia |]]. intros r c. rewrite G3, E3, E1. reflexivity.
    - replace (nrows frame_b - nrows frame_a) with 0 by lia.
      split; [lia | split; [lia |]]. intros r c. rewrite E3. reflexivity. }
  clearbody b2. clear b1 F1.
  destruct F2 as (E1 & E2 & E3).
  set (padded := if (nrows b2 <? nrows frame_a) || (ncols b2 <? ncols frame_a) then _ else Ok b2).
  assert (F3 : exists b3, padded = Ok b3 /\ nrows b3 = nrows frame_a /\
               ncols b3 = ncols frame_a /\
               forall i j, i < nrows frame_a -> j < ncols frame_a -> item b3 i j =
                 if ((nrows frame_a - nrows b2) / 2 <=? i) &&
                    (i <? (nrows frame_a - nrows b2) / 2 + nrows b2) &&
                    ((ncols frame_a - ncols b2) / 2 <=? j) &&
                    (j <? (ncols frame_a - ncols b2) / 2 + ncols b2)
                 then item b2 (i - (nrows frame_a - nrows b2) / 2)
                              (j - (ncols frame_a - ncols b2) / 2)
                 else 0%Q).
  { subst padded.
    destruct ((nrows b2 <? nrows frame_a) || (ncols b2 <? ncols frame_a)) eqn:Hpad.
    - destruct (pad_widths (nrows b2) (nrows frame_a)) as (A1 & A2); [lia|].
      destruct (pad_widths (ncols b2) (ncols frame_a)) as (B1 & B2); [lia|].
      rewrite A2, B2, A1, B1. rewrite np_pad_nat.
      pose proof (half_le (nrows frame_a - nrows b2)).
      pose proof (half_le (ncols frame_a - ncols b2)).
      eexists; split; [reflexivity|]. cbn [nrows ncols item].
      split; [lia | split; [lia |]]. intros i j _ _. reflexivity.
    - apply orb_false_iff in Hpad. destruct Hpad as [P1 P2].
      apply Nat.ltb_ge in P1, P2.
      exists b2. split; [reflexivity|].
      replace (nrows frame_a - nrows b2) with 0 by lia.
      replace (ncols frame_a - ncols b2) with 0 by lia.
      split; [lia | split; [lia |]]. intros i j Hi Hj.
      change (0 / 2) with 0. cbn [Nat.leb andb Nat.add].
      rewrite !Nat.sub_0_r.
      destruct (Nat.ltb_spec i (nrows b2)); [|lia].
      destruct (Nat.ltb_spec j (ncols b2)); [|lia]. reflexivity. }
  clearbody padded.
  destruct F3 as (b3 & -> & G1 & G2 & G3). cbn [rbind].
  rewrite G1, G2, !Nat.eqb_refl. cbn [negb orb].
  exists b3. split; [reflexivity|].
  unfold arr_eq, shape, central_crop_pad, central_source. cbn [nrows ncols item].
  split; [congruence|]. intros r c Hr Hc.
  rewrite G3 by lia. rewrite E1, E2.
  destruct (Nat.ltb_spec (nrows frame_a) (nrows frame_b)) as [Hh|Hh];
    destruct (Nat.ltb_spec (ncols frame_a) (ncols frame_b)) as [Hw|Hw].
  all: repeat first
       [ rewrite (Nat.min_l (nrows frame_a) (nrows frame_b)) by lia
       | rewrite (Nat.min_r (nrows frame_a) (nrows frame_b)) by lia
       | rewrite (Nat.min_l (ncols frame_a) (ncols frame_b)) by lia
       | rewrite (Nat.min_r (ncols frame_a) (ncols frame_b)) by lia ].
  all: rewrite ?Nat.sub_diag.
  all: try replace (nrows frame_a - nrows frame_b) with 0 by lia.
  all: try replace (nrows frame_b - nrows frame_a) with 0 by lia.
  all: try replace (ncols frame_a - ncols frame_b) with 0 by lia.
  all: try replace (ncols frame_b - ncols frame_a) with 0 by lia.
  all: change (0 / 2) with 0.
  all: pose proof (half_le (nrows frame_a - nrows frame_b));
       pose proof (half_le (ncols frame_a - ncols frame_b)).
  all: repeat match goal with
       | |- context [Nat.leb ?a ?b] => destruct (Nat.leb_spec a b)
       | |- context [Nat.ltb ?a ?b] => destruct (Nat.ltb_spec a b)
       end; cbn [andb]; try reflexivity; try (exfalso; lia).
  all: rewrite E3;
       rewrite ?(half_sub_zero (nrows frame_b) (nrows frame_a)),
               ?(half_sub_zero (ncols frame_b) (ncols frame_a)) by lia;
       f_equal; lia.
Qed.

(* ===================================================================== *)
(** * The tiled deformer                                                  *)
(* ===================================================================== *)

Lemma nth_arange_from (a b k : nat) :
  a + k < b ->
  nth k (WindefGpu.arange_from a b) 0%Q = inject_Z (Z.of_nat (a + k)).
Proof.
  intros Hk. unfold WindefGpu.arange_from.
  change 0%Q with ((fun k => inject_Z (Z.of_nat k)) 0) at 1.
  rewrite map_nth, seq_nth by lia. reflexivity.
Qed.

Lemma deform_tile_item `{Collaborators} (frame u v : ndarray Q) (x0 y0 : Q)
    (ws ov o1 o2 ys ye xs xe r c : nat) :
  ys <= r < ye -> xs <= c < xe ->
  item (WindefGpu.deform_tile frame u v x0 y0 ws ov o1 o2 ys ye xs xe)
       (r - ys) (c - xs) =
  sampled_pixel frame o1 false
    (gpu_dense u x0 y0 ws ov o2) (gpu_dense v x0 y0 ws ov o2) r c.
Proof.
  intros Hr Hc.
  unfold WindefGpu.deform_tile, meshgrid, map_coordinates, arr_zip, arr_map,
    sampled_pixel, gpu_dense.
  cbn [nrows ncols item].
  rewrite !nth_arange_from by lia.
  replace (ys + (r - ys)) with r by lia.
  replace (xs + (c - xs)) with c by lia.
  reflexivity.
Qed.

Section Tiles.
Context `{Collaborators}.
Variables (frame u v : ndarray Q) (x0 y0 : Q) (ws ov o1 o2 ts : nat).
Hypothesis ts_pos : 0 < ts.

Let target : ndarray Q :=
  warped frame o1 false astype_uint8
    (gpu_dense u x0 y0 ws ov o2) (gpu_dense v x0 y0 ws ov o2).

Let tile_step (y_start : nat) (frame_def : ndarray Q) (x_start : nat) :=
  let y_end := Nat.min (y_start + ts) (nrows frame) in
  let x_end := Nat.min (x_start + ts) (ncols frame) in
  WindefGpu.assign_tile frame_def y_start y_end x_start x_end
    (WindefGpu.deform_tile frame u v x0 y0 ws ov o1 o2
       y_start y_end x_start x_end).

Let row_step (frame_def : ndarray Q) (y_start : nat) :=
  fold_left (tile_step y_start) (py_range_step (ncols frame) ts) frame_def.

(** A cell is settled once it holds the pixel the claim describes. *)
Let settled (a : ndarray Q) (r c : nat) : Prop :=
  item a r c = item target r c.

Lemma tile_step_shape ys a xs :
  shape (tile_step ys a xs) = shape a.
Proof. reflexivity. Qed.

Lemma tile_step_keeps ys a xs r c :
  settled a r c -> settled (tile_step ys a xs) r c.
Proof.
  unfold settled, tile_step, WindefGpu.assign_tile. cbn [item].
  intros Hs.
  destruct (Nat.leb_spec ys r); cbn [andb]; [|exact Hs].
  destruct (Nat.ltb_spec r (Nat.min (ys + ts) (nrows frame))); cbn [andb]; [|exact Hs].
  destruct (Nat.leb_spec xs c); cbn [andb]; [|exact Hs].
  destruct (Nat.ltb_spec c (Nat.min (xs + ts) (ncols frame))); [|exact Hs].
  rewrite deform_tile_item by lia. reflexivity.
Qed.

Lemma tile_step_settles ys a xs r c :
  ys <= r < Nat.min (ys + ts) (nrows frame) ->
  xs <= c < Nat.min (xs + ts) (ncols frame) ->
  settled (tile_step ys a xs) r c.
Proof.
  unfold settled, tile_step, WindefGpu.assign_tile. cbn [item].
  intros Hr Hc.
  destruct (Nat.leb_spec ys r); [|lia].
  destruct (Nat.ltb_spec r (Nat.min (ys + ts) (nrows frame))); [|lia].
  destruct (Nat.leb_spec xs c); [|lia].
  destruct (Nat.ltb_spec c (Nat.min (xs + ts) (ncols frame))); [|lia].
  cbn [andb]. rewrite deform_tile_item by lia. reflexivity.
Qed.

Lemma inner_loop_shape ys l a :
  shape (fold_left (tile_step ys) l a) = shape a.
Proof.
  revert a. induction l as [|xs l IH]; intros a; [reflexivity|].
  cbn [fold_left]. rewrite IH. apply tile_step_shape.
Qed.

Lemma inner_loop_keeps ys l a r c :
  settled a r c -> settled (fold_left (tile_step ys) l a) r c.
Proof.
  revert a. induction l as [|xs l IH]; intros a Hs; [exact Hs|].
  cbn [fold_left]. apply IH, tile_step_keeps, Hs.
Qed.

Lemma inner_loop_settles ys l a xs r c :
  In xs l ->
  ys <= r < Nat.min (ys + ts) (nrows frame) ->
  xs <= c < Nat.min (xs + ts) (ncols frame) ->
  settled (fold_left (tile_step ys) l a) r c.
Proof.
  revert a. induction l as [|x l IH]; intros a Hin Hr Hc; [destruct Hin|].
  cbn [fold_left]. destruct Hin as [->|Hin].
  - apply inner_loop_keeps, tile_step_settles; assumption.
  - apply IH; assumption.
Qed.

(** Every index below [stop] lies in the tile of one start of the range. *)
Lemma py_range_step_covers (stop k : nat) :
  k < stop ->
  exists start, In start (py_range_step stop ts) /\
                start <= k < Nat.min (start + ts) stop.
Proof.
  intros Hk. exists (k / ts * ts).
  assert (Hts : ts <> 0) by lia.
  pose proof (Nat.Div0.mul_div_le k ts) as Hlo.
  pose proof (Nat.mul_succ_div_gt k ts Hts) as Hhi.
  split.
  - unfold py_range_step. apply in_map_iff. exists (k / ts). split; [reflexivity|].
    apply in_seq. split; [lia|]. cbn [Nat.add].
    apply Nat.lt_le_trans with (m := S (k / ts)); [lia|].
    apply Nat.div_le_lower_bound; [exact Hts|]. lia.
  - lia.
Qed.

Lemma outer_loop_shape l a :
  shape (fold_left row_step l a) = shape a.
Proof.
  revert a. induction l as [|ys l IH]; intros a; [reflexivity|].
  cbn [fold_left]. rewrite IH. apply inner_loop_shape.
Qed.

Lemma outer_loop_keeps l a r c :
  settled a r c -> settled (fold_left row_step l a) r c.
Proof.
  revert a. induction l as [|ys l IH]; intros a Hs; [exact Hs|].
  cbn [fold_left]. apply IH. apply inner_loop_keeps, Hs.
Qed.

Lemma outer_loop_settles l a ys r c :
  In ys l ->
  ys <= r < Nat.min (ys + ts) (nrows frame) ->
  c < ncols frame ->
  settled (fold_left row_step l a) r c.
Proof.
  revert a. induction l as [|y l IH]; intros a Hin Hr Hc; [destruct Hin|].
  cbn [fold_left]. destruct Hin as [->|Hin].
  - apply outer_loop_keeps.
    destruct (py_range_step_covers _ _ Hc) as (xs & Hxs & Hcx).
    apply (inner_loop_settles ys _ a xs); assumption.
  - apply IH; assumption.
Qed.

Lemma tiles_settle_every_pixel (a : ndarray Q) :
  shape a = shape frame ->
  arr_eq (fold_left row_step (py_range_step (nrows frame) ts) a) target.
Proof.
  intros Ha. split.
  - rewrite outer_loop_shape. exact Ha.
  - intros r c Hr Hc.
    assert (Hs : shape (fold_left row_step (py_range_step (nrows frame) ts) a)
                 = shape frame) by (rewrite outer_loop_shape; exact Ha).
    unfold shape in Hs. injection Hs as Hs1 Hs2. rewrite Hs1 in Hr. rewrite Hs2 in Hc.
    destruct (py_range_step_covers _ _ Hr) as (ys & Hys & Hry).
    apply (outer_loop_settles _ a ys); assumption.
Qed.

End Tiles.

Lemma deform_windows_tiled_spec `{Collaborators} (ts : nat)
    (frame x y u v : ndarray Q) (ws ov o1 o2 : nat) :
  0 < ts ->
  match WindefGpu.deform_windows_tiled ts frame x y u v ws ov o1 o2 with
  | Ok out =>
      arr_eq out
        (warped frame o1 false astype_uint8
           (gpu_dense u (item x 0 0) (item y 0 0) ws ov o2)
           (gpu_dense v (item x 0 0) (item y 0 0) ws ov o2))
  | Raise e =>
      e = IndexError /\
      (nrows x = 0 \/ ncols x = 0 \/ nrows y = 0 \/ ncols y = 0)
  end.
Proof.
  intros Hts. unfold WindefGpu.deform_windows_tiled.
  destruct (Nat.eqb_spec (nrows x) 0); [cbn [orb]; split; [reflexivity|tauto]|].
  destruct (Nat.eqb_spec (ncols x) 0); [cbn [orb]; split; [reflexivity|tauto]|].
  destruct (Nat.eqb_spec (nrows y) 0); [cbn [orb]; split; [reflexivity|tauto]|].
  destruct (Nat.eqb_spec (ncols y) 0); [cbn [orb]; split; [reflexivity|tauto]|].
  cbn [orb].
  apply (tiles_settle_every_pixel frame u v (item x 0 0) (item y 0 0) ws ov o1 o2 ts Hts).
  reflexivity.
Qed.

(* ===================================================================== *)
(** * The monad                                                           *)
(* ===================================================================== *)

Lemma bind_ok {A B} (m : M A) (f : A -> M B) (t : list event) (b : B) :
  bind m f = (t, Ok b) ->
  exists t1 a t2, m = (t1, Ok a) /\ f a = (t2, Ok b) /\ t = t1 ++ t2.
Proof.
  destruct m as [t1 [a|e]]; cbn [bind]; [|discriminate].
  destruct (f a) as [t2 r] eqn:Hf. intros Heq.
  injection Heq as <- ->. exists t1, a, t2. auto.
Qed.

Lemma bind_raise {A B} (m : M A) (f : A -> M B) (t : list event) (e : exn) :
  bind m f = (t, Raise e) ->
  m = (t, Raise e) \/
  exists t1 a t2, m = (t1, Ok a) /\ f a = (t2, Raise e) /\ t = t1 ++ t2.
Proof.
  destruct m as [t1 [a|e1]]; cbn [bind].
  - destruct (f a) as [t2 r] eqn:Hf. intros Heq.
    injection Heq as <- ->. right. exists t1, a, t2. auto.
  - intros Heq. injection Heq as <- <-. left. reflexivity.
Qed.

Lemma lift_ok {A} (r : result A) (t : list event) (a : A) :
  lift r = (t, Ok a) -> r = Ok a /\ t = [].
Proof. unfold lift. intros Heq. injection Heq as <- ->. auto. Qed.

Lemma call_ok {A} (ev : event) (x : A) (t : list event) (a : A) :
  call ev x = (t, Ok a) -> a = x /\ t = [ev].
Proof. unfold call. intros Heq. injection Heq as <- <-. auto. Qed.

Lemma ret_ok {A} (x : A) (t : list event) (a : A) :
  ret x = (t, Ok a) -> a = x /\ t = [].
Proof. unfold ret. intros Heq. injection Heq as <- <-. auto. Qed.

Lemma rbind_ok {A B} (m : result A) (f : A -> result B) (b : B) :
  rbind m f = Ok b -> exists a, m = Ok a /\ f a = Ok b.
Proof. destruct m as [a|e]; cbn [rbind]; [eauto|discriminate]. Qed.

Lemma trace_bind {A B} (m : M A) (f : A -> M B) (P : event -> Prop) :
  Forall P (trace m) ->
  (forall a, outcome m = Ok a -> Forall P (trace (f a))) ->
  Forall P (trace (bind m f)).
Proof.
  destruct m as [t [a|e]]; cbn [bind trace outcome fst snd]; intros Hm Hf.
  - specialize (Hf a eq_refl). destruct (f a) as [t2 r]. cbn [trace fst] in *.
    apply Forall_app. auto.
  - exact Hm.
Qed.

Lemma trace_lift {A} (r : result A) (P : event -> Prop) :
  Forall P (trace (lift r)).
Proof. constructor. Qed.

Lemma trace_ret {A} (a : A) (P : event -> Prop) : Forall P (trace (ret a)).
Proof. constructor. Qed.

Lemma trace_raise {A} (e : exn) (P : event -> Prop) :
  Forall P (trace (@raise A e)).
Proof. constructor. Qed.

Lemma trace_call {A} (ev : event) (a : A) (P : event -> Prop) :
  P ev -> Forall P (trace (call ev a)).
Proof. intros Hp. constructor; [exact Hp|constructor]. Qed.

(** Opens one monadic step of a run that returned. *)
Ltac step_ok H :=
  let t1 := fresh "t" in
  let a := fresh "a" in
  let t2 := fresh "t" in
  let H1 := fresh "Hstep" in
  let Ht := fresh "Htrace" in
  apply bind_ok in H; destruct H as (t1 & a & t2 & H1 & H & Ht).

Ltac trace_steps :=
  repeat first
    [ apply trace_lift | apply trace_ret | apply trace_raise
    | apply trace_call
    | apply trace_bind; [|intros ? ?] ].

Lemma same_plan_refl (s : PIVSettings) : same_plan s s.
Proof. left. reflexivity. Qed.

Lemma same_plan_step (s s' : PIVSettings) :
  same_plan s s' ->
  same_plan s (if sig2noise_validate s' then s' else clear_sig2noise_method s').
Proof.
  intros [-> | ->]; destruct (sig2noise_validate _); unfold same_plan; auto.
Qed.

Lemma same_plan_iterations (s s' : PIVSettings) :
  same_plan s s' -> num_iterations s' = num_iterations s.
Proof. intros [-> | ->]; reflexivity. Qed.

Lemma same_plan_smoothn (s s' : PIVSettings) :
  same_plan s s' -> smoothn s' = smoothn s.
Proof. intros [-> | ->]; reflexivity. Qed.

Lemma same_plan_windowsizes (s s' : PIVSettings) :
  same_plan s s' -> windowsizes s' = windowsizes s /\ overlap s' = overlap s.
Proof. intros [-> | ->]; split; reflexivity. Qed.

(** Tactics that open the next step of a run that returned. *)
Tactic Notation "open_bind" hyp(H) "as" simple_intropattern(a) ident(Hs) :=
  let t1 := fresh "t" in
  let t2 := fresh "t" in
  let Ht := fresh "Htrace" in
  apply bind_ok in H; destruct H as (t1 & a & t2 & Hs & H & Ht).

Tactic Notation "open_lift" hyp(H) "as" simple_intropattern(a) ident(Hs) :=
  let t1 := fresh "t" in
  let t2 := fresh "t" in
  let Ht := fresh "Htrace" in
  let Hnil := fresh "Hnil" in
  apply bind_ok in H; destruct H as (t1 & a & t2 & Hs & H & Ht);
  apply lift_ok in Hs; destruct Hs as [Hs Hnil];
  rewrite Hnil in Ht; cbn [app] in Ht; clear Hnil.

Tactic Notation "open_call" hyp(H) "as" simple_intropattern(a) ident(Hs) :=
  let t1 := fresh "t" in
  let t2 := fresh "t" in
  let Ht := fresh "Htrace" in
  let Hev := fresh "Hev" in
  apply bind_ok in H; destruct H as (t1 & a & t2 & Hs & H & Ht);
  apply call_ok in Hs; destruct Hs as [Hs Hev];
  rewrite Hev in Ht; cbn [app] in Ht; clear Hev.


(* ===================================================================== *)
(** * One pass of the CPU engine                                          *)
(* ===================================================================== *)

Lemma reshape_ok (flat : list Q) (shp : nat * nat) (a : ndarray Q) :
  reshape flat shp = Ok a -> shape a = shp.
Proof.
  destruct shp as [h w]. unfold reshape.
  destruct (length flat =? h * w); [|discriminate].
  intros Heq. injection Heq as <-. reflexivity.
Qed.

Lemma np_iadd_ok (u w a : ndarray Q) :
  np_iadd u w = Ok a ->
  shape w = shape u ->
  arr_eq a (arr_zip Qplus u w).
Proof.
  unfold np_iadd. intros Hadd Hshape.
  destruct (_ && _); [|discriminate]. injection Hadd as <-.
  unfold shape in Hshape. injection Hshape as Hr Hc.
  split; [reflexivity|]. cbn [nrows ncols item arr_zip].
  intros r c Hlt_r Hlt_c. unfold bidx.
  destruct (Nat.eqb_spec (nrows w) 1); destruct (Nat.eqb_spec (ncols w) 1).
  all: repeat f_equal; lia.
Qed.

Lemma masked_array_ok (d : ndarray Q) (m : ndarray bool) (f : field) :
  masked_array d m = Ok f -> f = Masked d m /\ shape m = shape d.
Proof.
  unfold masked_array, shape_eqb.
  destruct (Nat.eqb_spec (nrows d) (nrows m)); [|discriminate].
  destruct (Nat.eqb_spec (ncols d) (ncols m)); [|discriminate].
  cbn [andb]. intros Heq. injection Heq as <-. unfold shape. split; congruence.
Qed.

Lemma length_grid_axis (n ws ov : nat) : length (grid_axis n ws ov) = n.
Proof. unfold grid_axis. rewrite length_map, length_seq. reflexivity. Qed.

Lemma get_rect_coordinates_ok (size : nat * nat) (ws ov : nat)
    (x y : ndarray Q) :
  get_rect_coordinates size ws ov = Ok (x, y) ->
  exists n_rows n_cols,
    get_field_shape size ws ov = Ok (n_rows, n_cols) /\
    x = fst (meshgrid (grid_axis n_cols ws ov) (grid_axis n_rows ws ov)) /\
    y = snd (meshgrid (grid_axis n_cols ws ov) (grid_axis n_rows ws ov)) /\
    shape x = (n_rows, n_cols) /\ shape y = (n_rows, n_cols).
Proof.
  unfold get_rect_coordinates.
  destruct (get_field_shape size ws ov) as [[n_rows n_cols]|e]; [|discriminate].
  intros Heq. injection Heq as <- <-.
  exists n_rows, n_cols. unfold meshgrid, shape. cbn [fst snd nrows ncols].
  rewrite !length_grid_axis. auto.
Qed.

Lemma col0_ok (a : ndarray Q) (l : list Q) :
  col0 a = Ok l -> length l = nrows a /\
                   forall r, r < nrows a -> nth r l 0%Q = item a r 0.
Proof.
  unfold col0. destruct (ncols a =? 0); [discriminate|].
  intros Heq. injection Heq as <-. rewrite length_map, length_seq.
  split; [reflexivity|]. intros r Hr.
  rewrite (nth_indep _ 0%Q (item a 0 0))
    by (rewrite length_map, length_seq; exact Hr).
  pose proof (map_nth (fun r => item a r 0) (seq 0 (nrows a)) 0 r) as E.
  cbv beta in E. rewrite E, seq_nth by exact Hr. reflexivity.
Qed.

Lemma row0_ok (a : ndarray Q) (l : list Q) :
  row0 a = Ok l -> length l = ncols a /\
                   forall c, c < ncols a -> nth c l 0%Q = item a 0 c.
Proof.
  unfold row0. destruct (nrows a =? 0); [discriminate|].
  intros Heq. injection Heq as <-. rewrite length_map, length_seq.
  split; [reflexivity|]. intros c Hc.
  rewrite (nth_indep _ 0%Q (item a 0 0))
    by (rewrite length_map, length_seq; exact Hc).
  pose proof (map_nth (fun c => item a 0 c) (seq 0 (ncols a)) 0 c) as E.
  cbv beta in E. rewrite E, seq_nth by exact Hc. reflexivity.
Qed.

(** The new grid has the shape of the field, and so has the prediction. *)
Lemma cpu_predict_ok `{Collaborators} (frame_a : ndarray Q) (i : nat)
    (x_old y_old : ndarray Q) (u_old v_old : field) (s : PIVSettings)
    (ws ov : nat) (x y u_pre v_pre : ndarray Q) :
  Windef.predict frame_a i x_old y_old u_old v_old s
    = Ok (ws, ov, x, y, u_pre, v_pre) ->
  py_index (windowsizes s) i = Ok ws /\
  py_index (overlap s) i = Ok ov /\
  get_rect_coordinates (shape frame_a) ws ov = Ok (x, y) /\
  exists shp, get_field_shape (shape frame_a) ws ov = Ok shp /\
              shape u_pre = shp /\ shape v_pre = shp /\
              shape x = shp /\ shape y = shp.
Proof.
  unfold Windef.predict. intros Hp.
  apply rbind_ok in Hp. destruct Hp as (ws' & Hws & Hp).
  apply rbind_ok in Hp. destruct Hp as (ov' & Hov & Hp).
  apply rbind_ok in Hp. destruct Hp as ([x' y'] & Hgrid & Hp).
  apply rbind_ok in Hp. destruct Hp as (yo & Hyo & Hp).
  apply rbind_ok in Hp. destruct Hp as (xo & Hxo & Hp).
  apply rbind_ok in Hp. destruct Hp as (yi & Hyi & Hp).
  apply rbind_ok in Hp. destruct Hp as (xi & Hxi & Hp).
  injection Hp as <- <- <- <- <- <-.
  repeat split; try assumption.
  destruct (get_rect_coordinates_ok _ _ _ _ _ Hgrid)
    as (n_rows & n_cols & Hshape & _ & _ & Hsx & Hsy).
  exists (n_rows, n_cols). split; [exact Hshape|].
  apply col0_ok in Hyi. apply row0_ok in Hxi.
  destruct Hyi as [Hyl _], Hxi as [Hxl _].
  unfold shape in Hsx, Hsy. injection Hsx as Hx1 Hx2. injection Hsy as Hy1 Hy2.
  unfold Windef.resample_previous, spline_on_grid, shape. cbn [nrows ncols].
  repeat split; congruence.
Qed.

Lemma cpu_residual_ok `{Collaborators} (frame_a frame_b : ndarray Q) (i : nat)
    (ws ov : nat) (x y u_pre v_pre : ndarray Q) (s : PIVSettings)
    (t : list event) (u v s2n : ndarray Q) (s' : PIVSettings) :
  Windef.residual frame_a frame_b i ws ov x y u_pre v_pre s
    = (t, Ok (u, v, s2n, s')) ->
  t = [CallDeform i; CallCorrelate i] /\
  s' = (if sig2noise_validate s then s else clear_sig2noise_method s) /\
  exists shp, get_field_shape (shape frame_a) ws ov = Ok shp /\
              shape u = shp /\ shape v = shp /\ shape s2n = shp.
Proof.
  unfold Windef.residual. intros Hr.
  open_lift Hr as deformed Hdef.
  open_call Hr as fb' Hfb. subst fb'.
  open_call Hr as [[cu cv] cs] Hcorr.
  open_lift Hr as shp Hshape.
  open_lift Hr as u' Hu.
  open_lift Hr as v' Hv.
  open_lift Hr as s2n' Hs.
  apply ret_ok in Hr. destruct Hr as [Heq ->].
  injection Heq as <- <- <- <-. subst.
  split; [reflexivity|]. split; [reflexivity|].
  exists shp. apply reshape_ok in Hu, Hv, Hs. auto.
Qed.

Lemma cpu_validated_pass_ok `{Collaborators} (frame_a frame_b : ndarray Q)
    (i : nat) (x_old y_old : ndarray Q) (u_old v_old : field)
    (s : PIVSettings) (t : list event) (x y : ndarray Q) (u v : field)
    (grid_mask flags : ndarray bool) (s' : PIVSettings) :
  Windef.validated_pass frame_a frame_b i x_old y_old u_old v_old s
    = (t, Ok (x, y, u, v, grid_mask, flags, s')) ->
  exists ws ov u_pre v_pre res_u res_v s2n,
    Windef.predict frame_a i x_old y_old u_old v_old s
      = Ok (ws, ov, x, y, u_pre, v_pre) /\
    Windef.residual frame_a frame_b i ws ov x y u_pre v_pre s
      = ([CallDeform i; CallCorrelate i], Ok (res_u, res_v, s2n, s')) /\
    arr_eq (fdata u) (arr_zip Qplus res_u u_pre) /\
    arr_eq (fdata v) (arr_zip Qplus res_v v_pre) /\
    fmask u = grid_mask /\ fmask v = grid_mask /\
    grid_mask = match static_mask s with
                | Some m => mask_on_grid m y x
                | None => zeros_like_bool (fdata u)
                end /\
    flags = typical_validation u v s2n s' /\
    t = [CallDeform i; CallCorrelate i; CallValidate i].
Proof.
  unfold Windef.validated_pass. intros Hv.
  open_lift Hv as [[[[[ws ov] x'] y'] u_pre] v_pre] Hpred.
  open_bind Hv as [[[res_u res_v] s2n] s1] Hres.
  pose proof (cpu_residual_ok _ _ _ _ _ _ _ _ _ _ _ _ _ _ _ Hres)
    as (Ht & Hs1 & shp & Hshape & Hsu & Hsv & Hss).
  rewrite Ht in Hres.
  pose proof (cpu_predict_ok _ _ _ _ _ _ _ _ _ _ _ _ _ Hpred)
    as (_ & _ & _ & shp' & Hshape' & Hpu & Hpv & _ & _).
  assert (shp' = shp) by congruence. subst shp'.
  open_lift Hv as ua Hau.
  open_lift Hv as va Hav.
  open_lift Hv as um Hmu.
  open_lift Hv as vm Hmv.
  open_call Hv as fl Hfl.
  apply ret_ok in Hv. destruct Hv as [Heq ->].
  apply masked_array_ok in Hmu, Hmv.
  destruct Hmu as [Eu _]. destruct Hmv as [Ev _]. subst um vm.
  injection Heq as E1 E2 E3 E4 E5 E6 E7. subst x y u v flags s' t.
  exists ws, ov, u_pre, v_pre, res_u, res_v, s2n.
  split; [exact Hpred|]. split; [exact Hres|].
  cbn [fdata fmask].
  split; [apply np_iadd_ok; [exact Hau|congruence]|].
  split; [apply np_iadd_ok; [exact Hav|congruence]|].
  split; [symmetry; exact E5|]. split; [symmetry; exact E5|].
  split.
  - rewrite E5. replace (static_mask s1) with (static_mask s); [reflexivity|].
    rewrite Hs1. destruct (sig2noise_validate s); reflexivity.
  - split; [exact Hfl|]. subst. reflexivity.
Qed.

Lemma outcome_eq {A} (m : M A) (r : result A) :
  outcome m = r -> m = (trace m, r).
Proof. destruct m as [t r']. cbn [outcome trace fst snd]. congruence. Qed.

Lemma cpu_residual_trace `{Collaborators} (frame_a frame_b : ndarray Q)
    (i ws ov : nat) (x y u_pre v_pre : ndarray Q) (s : PIVSettings)
    (P : event -> Prop) :
  P (CallDeform i) -> P (CallCorrelate i) ->
  Forall P (trace (Windef.residual frame_a frame_b i ws ov x y u_pre v_pre s)).
Proof.
  intros Hd Hc. unfold Windef.residual.
  apply trace_bind; [apply trace_lift|]. intros deformed _.
  apply trace_bind; [apply trace_call, Hd|]. intros fb' _.
  apply trace_bind; [apply trace_call, Hc|]. intros [[cu cv] cs] _.
  trace_steps.
Qed.

Lemma cpu_validated_pass_trace `{Collaborators} (frame_a frame_b : ndarray Q)
    (i : nat) (x_old y_old : ndarray Q) (u_old v_old : field)
    (s : PIVSettings) (P : event -> Prop) :
  P (CallDeform i) -> P (CallCorrelate i) -> P (CallValidate i) ->
  Forall P (trace (Windef.validated_pass frame_a frame_b i x_old y_old
                     u_old v_old s)).
Proof.
  intros Hd Hc Hv. unfold Windef.validated_pass.
  apply trace_bind; [apply trace_lift|].
  intros [[[[[ws ov] x] y] u_pre] v_pre] _.
  apply trace_bind; [apply cpu_residual_trace; assumption|].
  intros [[[u v] s2n] s1] _.
  trace_steps. exact Hv.
Qed.

Lemma cpu_validated_pass_plan `{Collaborators} (frame_a frame_b : ndarray Q)
    (i : nat) (x_old y_old : ndarray Q) (u_old v_old : field)
    (s : PIVSettings) (t : list event) (x y : ndarray Q) (u v : field)
    (grid_mask flags : ndarray bool) (s' : PIVSettings) :
  Windef.validated_pass frame_a frame_b i x_old y_old u_old v_old s
    = (t, Ok (x, y, u, v, grid_mask, flags, s')) ->
  s' = (if sig2noise_validate s then s else clear_sig2noise_method s).
Proof.
  intros Hv. apply cpu_validated_pass_ok in Hv.
  destruct Hv as (ws & ov & u_pre & v_pre & res_u & res_v & s2n & _ & Hres & _).
  apply cpu_residual_ok in Hres. tauto.
Qed.

(** A pass that returns has validated its accumulated field, found a cell
    that is valid, and repaired the field unless it is the last pass. *)
Lemma cpu_pass_ok `{Collaborators} (frame_a frame_b : ndarray Q)
    (i : nat) (x_old y_old : ndarray Q) (u_old v_old : field)
    (s : PIVSettings) (t : list event) (x y : ndarray Q) (u v : field)
    (grid_mask flags : ndarray bool) (s' : PIVSettings) :
  Windef.multipass_img_deform frame_a frame_b i x_old y_old u_old v_old s
    = (t, Ok (x, y, u, v, grid_mask, flags, s')) ->
  exists u_acc v_acc,
    Windef.validated_pass frame_a frame_b i x_old y_old u_old v_old s
      = ([CallDeform i; CallCorrelate i; CallValidate i],
         Ok (x, y, u_acc, v_acc, grid_mask, flags, s')) /\
    np_all flags = false /\
    (u, v) = (if i + 1 =? num_iterations s' then (u_acc, v_acc)
              else replace_outliers u_acc v_acc flags (filter_method s')
                     (max_filter_iteration s') (filter_kernel_size s')) /\
    t = [CallDeform i; CallCorrelate i; CallValidate i]
        ++ (if i + 1 =? num_iterations s' then []
            else [CallReplaceOutliers i]).
Proof.
  unfold Windef.multipass_img_deform. intros Hp.
  open_bind Hp as [[[[[[x1 y1] u1] v1] gm1] fl1] s1] Hvp.
  pose proof (cpu_validated_pass_ok _ _ _ _ _ _ _ _ _ _ _ _ _ _ _ _ Hvp)
    as (ws & ov & u_pre & v_pre & res_u & res_v & s2n & _ & _ & _ & _ & _ & _
        & _ & _ & Ht).
  destruct (np_all fl1) eqn:Hall; [discriminate|].
  destruct (Nat.eqb_spec (i + 1) (num_iterations s1)) as [Hlast|Hlast];
    cbn [negb] in Hp.
  - open_bind Hp as [u2 v2] Hret. apply ret_ok in Hret.
    destruct Hret as [Huv ->]. apply ret_ok in Hp. destruct Hp as [Heq ->].
    injection Huv as -> ->. injection Heq as E1 E2 E3 E4 E5 E6 E7.
    subst x y u v grid_mask flags s' t t0. subst.
    exists u1, v1. rewrite Hlast, Nat.eqb_refl, !app_nil_r. auto.
  - open_bind Hp as [u2 v2] Hrep. apply call_ok in Hrep.
    destruct Hrep as [Huv ->]. apply ret_ok in Hp. destruct Hp as [Heq ->].
    injection Heq as E1 E2 E3 E4 E5 E6 E7.
    subst x y u v grid_mask flags s' t t0. subst.
    apply Nat.eqb_neq in Hlast.
    exists u1, v1. rewrite Hlast, !app_nil_r, Huv. auto.
Qed.

(** A pass whose validation flags every cell raises at once. *)
Lemma cpu_pass_all_invalid `{Collaborators} (frame_a frame_b : ndarray Q)
    (i : nat) (x_old y_old : ndarray Q) (u_old v_old : field)
    (s : PIVSettings) (t : list event) (x y : ndarray Q) (u v : field)
    (grid_mask flags : ndarray bool) (s' : PIVSettings) :
  Windef.validated_pass frame_a frame_b i x_old y_old u_old v_old s
    = (t, Ok (x, y, u, v, grid_mask, flags, s')) ->
  np_all flags = true ->
  Windef.multipass_img_deform frame_a frame_b i x_old y_old u_old v_old s
    = (t, Raise (ValueError "Something happened in the validation")).
Proof.
  intros Hvp Hall. unfold Windef.multipass_img_deform.
  rewrite Hvp. cbn [bind]. rewrite Hall. cbn [raise].
  rewrite app_nil_r. reflexivity.
Qed.

Lemma cpu_pass_trace `{Collaborators} (frame_a frame_b : ndarray Q)
    (i : nat) (x_old y_old : ndarray Q) (u_old v_old : field)
    (s0 s : PIVSettings) :
  same_plan s0 s ->
  Forall (later_pass_event s0 i)
    (trace (Windef.multipass_img_deform frame_a frame_b i x_old y_old
              u_old v_old s)).
Proof.
  intros Hplan. unfold Windef.multipass_img_deform.
  apply trace_bind.
  - apply cpu_validated_pass_trace; reflexivity.
  - intros [[[[[[x y] u] v] gm] fl] s1] Hout.
    apply outcome_eq, cpu_validated_pass_plan in Hout.
    assert (Hplan1 : same_plan s0 s1) by (subst s1; apply same_plan_step, Hplan).
    destruct (np_all fl); [apply trace_raise|].
    apply trace_bind; [|intros [u2 v2] _; apply trace_ret].
    destruct (Nat.eqb_spec (i + 1) (num_iterations s1)) as [Hlast|Hlast];
      cbn [negb]; [apply trace_ret|].
    apply trace_call. cbn. rewrite <- (same_plan_iterations _ _ Hplan1). auto.
Qed.

(* ===================================================================== *)
(** * The loop of the CPU engine                                          *)
(* ===================================================================== *)

Lemma cpu_body_ok `{Collaborators} (frame_a frame_b : ndarray Q) (i : nat)
    (st st' : Windef.pass_state) (t : list event) :
  Windef.multipass_body frame_a frame_b i st = (t, Ok st') ->
  exists x y u v gm fl s' t1,
    Windef.multipass_img_deform frame_a frame_b i (Windef.ps_x st)
      (Windef.ps_y st) (Windef.ps_u st) (Windef.ps_v st)
      (Windef.ps_settings st) = (t1, Ok (x, y, u, v, gm, fl, s')) /\
    Windef.ps_x st' = x /\ Windef.ps_y st' = y /\
    Windef.ps_grid_mask st' = gm /\ Windef.ps_flags st' = fl /\
    Windef.ps_settings st' = s' /\ Windef.ps_i st' = Some i /\
    (Windef.ps_u st', Windef.ps_v st') =
      (if smoothn s' && negb (i + 1 =? num_iterations s')
       then (smoothn_smoothn u (smoothn_p s'), smoothn_smoothn v (smoothn_p s'))
       else (u, v)) /\
    t = t1 ++ (if smoothn s' && negb (i + 1 =? num_iterations s')
               then [CallSmoothn i; CallSmoothn i] else []).
Proof.
  unfold Windef.multipass_body. intros Hb.
  open_bind Hb as [[[[[[x y] u] v] gm] fl] s'] Hpass.
  exists x, y, u, v, gm, fl, s'.
  destruct (smoothn s' && negb (i + 1 =? num_iterations s')).
  - open_bind Hb as [u2 v2] Hsm. unfold Windef.smooth_pair in Hsm.
    open_call Hsm as u3 Hu3. open_call Hsm as v3 Hv3.
    apply ret_ok in Hsm. destruct Hsm as [Huv Ht2].
    apply ret_ok in Hb. destruct Hb as [Hst Ht3].
    injection Huv as -> ->. subst. cbn [Windef.ps_x Windef.ps_y Windef.ps_u
      Windef.ps_v Windef.ps_grid_mask Windef.ps_flags Windef.ps_settings
      Windef.ps_i].
    eexists. split; [exact Hpass|]. rewrite !app_nil_r.
    repeat (split; [reflexivity|]). reflexivity.
  - open_bind Hb as [u2 v2] Hsm. apply ret_ok in Hsm. destruct Hsm as [Huv Ht2].
    apply ret_ok in Hb. destruct Hb as [Hst Ht3].
    injection Huv as -> ->. subst. cbn [Windef.ps_x Windef.ps_y Windef.ps_u
      Windef.ps_v Windef.ps_grid_mask Windef.ps_flags Windef.ps_settings
      Windef.ps_i].
    eexists. split; [exact Hpass|]. rewrite !app_nil_r.
    repeat (split; [reflexivity|]). reflexivity.
Qed.

Lemma cpu_pass_plan `{Collaborators} (frame_a frame_b : ndarray Q)
    (i : nat) (x_old y_old : ndarray Q) (u_old v_old : field)
    (s0 s : PIVSettings) (t : list event) (x y : ndarray Q) (u v : field)
    (grid_mask flags : ndarray bool) (s' : PIVSettings) :
  same_plan s0 s ->
  Windef.multipass_img_deform frame_a frame_b i x_old y_old u_old v_old s
    = (t, Ok (x, y, u, v, grid_mask, flags, s')) ->
  same_plan s0 s'.
Proof.
  intros Hplan Hp. apply cpu_pass_ok in Hp.
  destruct Hp as (u_acc & v_acc & Hvp & _).
  apply cpu_validated_pass_plan in Hvp. subst s'.
  apply same_plan_step, Hplan.
Qed.

Lemma cpu_body_plan `{Collaborators} (frame_a frame_b : ndarray Q) (i : nat)
    (s0 : PIVSettings) (st st' : Windef.pass_state) (t : list event) :
  same_plan s0 (Windef.ps_settings st) ->
  Windef.multipass_body frame_a frame_b i st = (t, Ok st') ->
  same_plan s0 (Windef.ps_settings st').
Proof.
  intros Hplan Hb. apply cpu_body_ok in Hb.
  destruct Hb as (x & y & u & v & gm & fl & s' & t1 & Hp & _ & _ & _ & _ & <- & _).
  eapply cpu_pass_plan; eassumption.
Qed.

Lemma cpu_body_trace `{Collaborators} (frame_a frame_b : ndarray Q) (i : nat)
    (s0 : PIVSettings) (st : Windef.pass_state) :
  same_plan s0 (Windef.ps_settings st) ->
  Forall (later_pass_event s0 i)
    (trace (Windef.multipass_body frame_a frame_b i st)).
Proof.
  intros Hplan. unfold Windef.multipass_body.
  apply trace_bind; [apply cpu_pass_trace, Hplan|].
  intros [[[[[[x y] u] v] gm] fl] s'] Hout.
  apply outcome_eq in Hout.
  pose proof (cpu_pass_plan _ _ _ _ _ _ _ _ _ _ _ _ _ _ _ _ _ Hplan Hout) as Hplan'.
  apply trace_bind; [|intros [u2 v2] _; apply trace_ret].
  destruct (smoothn s') eqn:Hsm; cbn [andb]; [|apply trace_ret].
  destruct (Nat.eqb_spec (i + 1) (num_iterations s')) as [Hlast|Hlast];
    cbn [negb]; [apply trace_ret|].
  rewrite (same_plan_iterations _ _ Hplan') in Hlast.
  rewrite (same_plan_smoothn _ _ Hplan') in Hsm.
  unfold Windef.smooth_pair.
  apply trace_bind; [apply trace_call; cbn; auto|]. intros u3 _.
  apply trace_bind; [apply trace_call; cbn; auto|]. intros v3 _.
  apply trace_ret.
Qed.

Lemma cpu_loop_trace `{Collaborators} (frame_a frame_b : ndarray Q)
    (s0 : PIVSettings) (l : list nat) (st : Windef.pass_state) :
  same_plan s0 (Windef.ps_settings st) ->
  Forall (fun ev => exists i, In i l /\ later_pass_event s0 i ev)
    (trace (Windef.multipass_loop frame_a frame_b l st)).
Proof.
  revert st. induction l as [|i l IH]; intros st Hplan; cbn [Windef.multipass_loop].
  - apply trace_ret.
  - apply trace_bind.
    + eapply Forall_impl; [|apply cpu_body_trace, Hplan].
      intros ev Hev. exists i. split; [left; reflexivity|exact Hev].
    + intros st' Hout. apply outcome_eq in Hout.
      eapply Forall_impl; [|apply IH; eapply cpu_body_plan; eassumption].
      intros ev (j & Hj & Hev). exists j. split; [right; exact Hj|exact Hev].
Qed.

Lemma repaired_passes_app (t1 t2 : list event) :
  repaired_passes (t1 ++ t2) = repaired_passes t1 ++ repaired_passes t2.
Proof. apply flat_map_app. Qed.

Lemma smoothed_passes_app (t1 t2 : list event) :
  smoothed_passes (t1 ++ t2) = smoothed_passes t1 ++ smoothed_passes t2.
Proof. apply flat_map_app. Qed.

Lemma correlated_passes_app (t1 t2 : list event) :
  correlated_passes (t1 ++ t2) = correlated_passes t1 ++ correlated_passes t2.
Proof. apply flat_map_app. Qed.

(** The calls of one completed body of the loop. *)
Lemma cpu_body_calls `{Collaborators} (frame_a frame_b : ndarray Q) (i : nat)
    (s0 : PIVSettings) (st st' : Windef.pass_state) (t : list event) :
  same_plan s0 (Windef.ps_settings st) ->
  Windef.multipass_body frame_a frame_b i st = (t, Ok st') ->
  repaired_passes t = not_last s0 [i] /\
  smoothed_passes t = (if smoothn s0 then twice (not_last s0 [i]) else []) /\
  correlated_passes t = [i].
Proof.
  intros Hplan Hb.
  pose proof (cpu_body_plan _ _ _ _ _ _ _ Hplan Hb) as Hplan'.
  apply cpu_body_ok in Hb.
  destruct Hb as (x & y & u & v & gm & fl & s' & t1 & Hp & _ & _ & _ & _ & Hs
                  & _ & _ & ->).
  rewrite Hs in Hplan'.
  apply cpu_pass_ok in Hp. destruct Hp as (ua & va & _ & _ & _ & ->).
  rewrite (same_plan_iterations _ _ Hplan'), (same_plan_smoothn _ _ Hplan').
  unfold not_last, twice. cbn [filter].
  destruct (i + 1 =? num_iterations s0); destruct (smoothn s0); cbn; auto.
Qed.

Lemma not_last_app (s : PIVSettings) (l1 l2 : list nat) :
  not_last s (l1 ++ l2) = not_last s l1 ++ not_last s l2.
Proof. apply filter_app. Qed.

Lemma twice_app (l1 l2 : list nat) : twice (l1 ++ l2) = twice l1 ++ twice l2.
Proof. apply flat_map_app. Qed.

Lemma cpu_loop_calls `{Collaborators} (frame_a frame_b : ndarray Q)
    (s0 : PIVSettings) (l : list nat) (st st' : Windef.pass_state)
    (t : list event) :
  same_plan s0 (Windef.ps_settings st) ->
  Windef.multipass_loop frame_a frame_b l st = (t, Ok st') ->
  same_plan s0 (Windef.ps_settings st') /\
  repaired_passes t = not_last s0 l /\
  smoothed_passes t = (if smoothn s0 then twice (not_last s0 l) else []) /\
  correlated_passes t = l.
Proof.
  revert st t. induction l as [|i l IH]; intros st t Hplan Hl;
    cbn [Windef.multipass_loop] in Hl.
  - apply ret_ok in Hl. destruct Hl as [-> ->].
    destruct (smoothn s0); auto.
  - open_bind Hl as st1 Hb.
    pose proof (cpu_body_plan _ _ _ _ _ _ _ Hplan Hb) as Hplan1.
    pose proof (cpu_body_calls _ _ _ _ _ _ _ Hplan Hb) as (Hr1 & Hs1 & Hc1).
    destruct (IH _ _ Hplan1 Hl) as (Hplan' & Hr2 & Hs2 & Hc2).
    subst t. rewrite repaired_passes_app, smoothed_passes_app,
      correlated_passes_app, Hr1, Hr2, Hs1, Hs2, Hc1, Hc2.
    change (i :: l) with ([i] ++ l). rewrite not_last_app.
    destruct (smoothn s0); [rewrite twice_app|]; auto.
Qed.

Lemma cpu_loop_snoc `{Collaborators} (frame_a frame_b : ndarray Q)
    (l : list nat) (i : nat) (st st' : Windef.pass_state) (t : list event) :
  Windef.multipass_loop frame_a frame_b (l ++ [i]) st = (t, Ok st') ->
  exists t1 st1 t2,
    Windef.multipass_loop frame_a frame_b l st = (t1, Ok st1) /\
    Windef.multipass_body frame_a frame_b i st1 = (t2, Ok st') /\
    t = t1 ++ t2.
Proof.
  revert st t. induction l as [|j l IH]; intros st t Hl;
    cbn [app Windef.multipass_loop] in Hl.
  - open_bind Hl as st1 Hb. apply ret_ok in Hl. destruct Hl as [-> ->].
    exists [], st, t0. subst t. rewrite app_nil_r. auto.
  - open_bind Hl as st1 Hb.
    destruct (IH _ _ Hl) as (t1' & st2 & t2' & Hl1 & Hb2 & ->).
    exists (t0 ++ t1'), st2, t2'. cbn [Windef.multipass_loop].
    rewrite Hb. cbn [bind]. rewrite Hl1. subst t. rewrite app_assoc. auto.
Qed.

Lemma filter_all {A} (f : A -> bool) (l : list A) :
  (forall x, In x l -> f x = true) -> filter f l = l.
Proof.
  induction l as [|a l IH]; intros Hall; [reflexivity|].
  cbn [filter]. rewrite (Hall a) by (left; reflexivity).
  rewrite IH; [reflexivity|]. intros x Hx. apply Hall. right. exact Hx.
Qed.

(** Of the passes 1 .. n-1 of the loop, all but the last repair. *)
Lemma not_last_loop (s : PIVSettings) :
  not_last s (seq 1 (num_iterations s - 1)) = seq 1 (num_iterations s - 2).
Proof.
  unfold not_last. set (n := num_iterations s).
  destruct (Nat.le_gt_cases n 1) as [Hn|Hn].
  - replace (n - 1) with 0 by lia. replace (n - 2) with 0 by lia. reflexivity.
  - replace (n - 1) with ((n - 2) + 1) by lia. rewrite seq_app, filter_app.
    cbn [seq filter]. replace (1 + (n - 2) + 1) with n by lia.
    rewrite Nat.eqb_refl. cbn [negb]. rewrite app_nil_r.
    apply filter_all. intros x Hx. apply in_seq in Hx.
    apply negb_true_iff, Nat.eqb_neq. lia.
Qed.

Tactic Notation "open_bind" hyp(H) "as" simple_intropattern(a) ident(Hs)
    "trace" ident(t1) :=
  let t2 := fresh "t" in
  let Ht := fresh "Htrace" in
  apply bind_ok in H; destruct H as (t1 & a & t2 & Hs & H & Ht).


(* ===================================================================== *)
(** * Whole runs of the CPU engine                                        *)
(* ===================================================================== *)

Lemma cpu_first_pass_ok `{Collaborators} (frame_a frame_b : ndarray Q)
    (s : PIVSettings) (t : list event) (x y u v s2n : ndarray Q) :
  Windef.first_pass frame_a frame_b s = (t, Ok (x, y, u, v, s2n)) ->
  t = [CallCorrelate 0] /\
  exists ws0 ov0,
    py_index (windowsizes s) 0 = Ok ws0 /\ py_index (overlap s) 0 = Ok ov0 /\
    get_rect_coordinates (shape frame_a) ws0 ov0 = Ok (x, y).
Proof.
  unfold Windef.first_pass. intros Hf.
  open_lift Hf as ws0 Hws. open_lift Hf as ov0 Hov.
  open_call Hf as [[cu cv] cs] Hcorr.
  open_lift Hf as shp Hshape.
  open_lift Hf as u' Hu. open_lift Hf as v' Hv. open_lift Hf as s2n' Hs.
  open_lift Hf as [x' y'] Hgrid.
  apply ret_ok in Hf. destruct Hf as [Heq Ht].
  injection Heq as E1 E2 E3 E4 E5. subst.
  split; [reflexivity|]. exists ws0, ov0. auto.
Qed.

Lemma cpu_first_pass_trace `{Collaborators} (frame_a frame_b : ndarray Q)
    (s : PIVSettings) (P : event -> Prop) :
  P (CallCorrelate 0) ->
  Forall P (trace (Windef.first_pass frame_a frame_b s)).
Proof.
  intros Hc. unfold Windef.first_pass.
  apply trace_bind; [apply trace_lift|]. intros ws0 _.
  apply trace_bind; [apply trace_lift|]. intros ov0 _.
  apply trace_bind; [apply trace_call, Hc|]. intros [[cu cv] cs] _.
  apply trace_bind; [apply trace_lift|]. intros shp _.
  apply trace_bind; [apply trace_lift|]. intros u _.
  apply trace_bind; [apply trace_lift|]. intros v _.
  apply trace_bind; [apply trace_lift|]. intros s2n _.
  apply trace_bind; [apply trace_lift|]. intros [x y] _.
  apply trace_ret.
Qed.

Lemma later_pass_is_run_event (s : PIVSettings) (ev : event) :
  (exists i, In i (seq 1 (num_iterations s - 1)) /\ later_pass_event s i ev) ->
  run_event s ev.
Proof.
  intros (i & Hi & Hev). apply in_seq in Hi.
  destruct ev; cbn in *; auto; try contradiction.
  - destruct Hev as [-> Hlast]. left. lia.
  - destruct Hev as (-> & Hsm & Hlast). split; [exact Hsm|]. right. lia.
Qed.

Lemma cpu_run_trace `{Collaborators} (raw_a raw_b : ndarray Q)
    (s : PIVSettings) :
  Forall (run_event s) (trace (Windef.run_passes raw_a raw_b s)).
Proof.
  unfold Windef.run_passes.
  apply trace_bind; [apply trace_lift|]. intros [[frame_a frame_b] im] _.
  apply trace_bind; [apply cpu_first_pass_trace; exact I|].
  intros [[[[x y] u] v] s2n] _.
  apply trace_bind.
  { destruct (smoothn s) eqn:Hsm; [|apply trace_ret].
    unfold Windef.smooth_pair.
    apply trace_bind; [apply trace_call; cbn; auto|]. intros u3 _.
    apply trace_bind; [apply trace_call; cbn; auto|]. intros v3 _.
    apply trace_ret. }
  intros [u1 v1] _.
  apply trace_bind.
  { destruct (validation_first_pass s); [apply trace_call; exact I|apply trace_ret]. }
  intros flags _.
  apply trace_bind.
  { destruct ((num_iterations s =? 1) && replace_vectors s
              || (1 <? num_iterations s)) eqn:Hguard; [|apply trace_ret].
    apply trace_call. cbn.
    apply orb_true_iff in Hguard. destruct Hguard as [Hone|Hmore].
    - apply andb_true_iff in Hone. destruct Hone as [Hone Hrv].
      apply Nat.eqb_eq in Hone. right. auto.
    - apply Nat.ltb_lt in Hmore. left. lia. }
  intros [u2 v2] _.
  apply trace_bind; [|intros st _; apply trace_ret].
  eapply Forall_impl; [apply later_pass_is_run_event|].
  apply cpu_loop_trace. apply same_plan_refl.
Qed.

Lemma cpu_finalize_trace `{Collaborators} (im : option (ndarray bool))
    (st : Windef.pass_state) (P : event -> Prop) :
  P CallSave -> Forall P (trace (Windef.finalize im st)).
Proof.
  intros Hsave. unfold Windef.finalize.
  apply trace_bind; [destruct (Windef.ps_i st); [apply trace_ret|apply trace_raise]|].
  intros _ _.
  apply trace_bind; [apply trace_lift|]. intros u _.
  apply trace_bind; [apply trace_lift|]. intros v _.
  apply trace_bind.
  { destruct im; [|apply trace_ret].
    apply trace_bind; [apply trace_lift|]. intros u1 _.
    apply trace_bind; [apply trace_lift|]. intros v1 _. apply trace_ret. }
  intros [[u1 v1] gm] _. apply trace_call, Hsave.
Qed.

Lemma cpu_multipass_trace `{Collaborators} (raw_a raw_b : ndarray Q)
    (s : PIVSettings) :
  Forall (fun ev => run_event s ev \/ ev = CallSave)
    (trace (Windef.multipass raw_a raw_b s)).
Proof.
  unfold Windef.multipass. apply trace_bind.
  - eapply Forall_impl; [|apply cpu_run_trace]. intros ev Hev. left. exact Hev.
  - intros [im st] _. apply cpu_finalize_trace. right. reflexivity.
Qed.

Lemma repair_plan_split (s : PIVSettings) :
  (if (num_iterations s =? 1) && replace_vectors s || (1 <? num_iterations s)
   then [0] else []) ++ seq 1 (num_iterations s - 2) = repair_plan s.
Proof.
  unfold repair_plan. set (n := num_iterations s).
  destruct (Nat.eqb_spec n 1) as [Hone|Hone]; cbn [andb orb].
  - rewrite Hone. destruct (replace_vectors s); reflexivity.
  - destruct (Nat.ltb_spec 1 n) as [Hmore|Hmore].
    + replace (n - 1) with (S (n - 2)) by lia. reflexivity.
    + replace (n - 2) with 0 by lia. replace (n - 1) with 0 by lia. reflexivity.
Qed.

(** The calls of a completed run up to the end of its loop. *)
Lemma cpu_run_calls `{Collaborators} (raw_a raw_b : ndarray Q)
    (s : PIVSettings) (t : list event) (im : option (ndarray bool))
    (st : Windef.pass_state) :
  Windef.run_passes raw_a raw_b s = (t, Ok (im, st)) ->
  same_plan s (Windef.ps_settings st) /\
  repaired_passes t = repair_plan s /\
  smoothed_passes t = smoothing_plan s /\
  correlated_passes t = seq 0 (S (num_iterations s - 1)).
Proof.
  unfold Windef.run_passes. intros Hr.
  open_lift Hr as [[frame_a frame_b] im'] Hprep.
  open_bind Hr as [[[[x y] u] v] s2n] Hfirst trace tf.
  apply cpu_first_pass_ok in Hfirst. destruct Hfirst as (Ht0 & _).
  open_bind Hr as [u1 v1] Hsm trace ts.
  assert (Hsm' : smoothed_passes ts = (if smoothn s then [0; 0] else [])
                 /\ repaired_passes ts = [] /\ correlated_passes ts = []).
  { destruct (smoothn s).
    - unfold Windef.smooth_pair in Hsm.
      open_call Hsm as u3 Hu3. open_call Hsm as v3 Hv3.
      apply ret_ok in Hsm. destruct Hsm as [_ Ht]. subst. auto.
    - apply ret_ok in Hsm. destruct Hsm as [_ Ht]. subst. auto. }
  clear Hsm. destruct Hsm' as (Hs3 & Hr3 & Hc3).
  open_bind Hr as flags Hval trace tv.
  assert (Hval' : smoothed_passes tv = [] /\ repaired_passes tv = []
                  /\ correlated_passes tv = []).
  { destruct (validation_first_pass s).
    - apply call_ok in Hval. destruct Hval as [_ ->]. auto.
    - apply ret_ok in Hval. destruct Hval as [_ ->]. auto. }
  clear Hval. destruct Hval' as (Hs5 & Hr5 & Hc5).
  open_bind Hr as [u2 v2] Hrep trace tr.
  assert (Hrep' : smoothed_passes tr = [] /\ correlated_passes tr = [] /\
                  repaired_passes tr =
                    (if (num_iterations s =? 1) && replace_vectors s
                        || (1 <? num_iterations s) then [0] else [])).
  { destruct ((num_iterations s =? 1) && replace_vectors s
              || (1 <? num_iterations s)).
    - apply call_ok in Hrep. destruct Hrep as [_ ->]. auto.
    - apply ret_ok in Hrep. destruct Hrep as [_ ->]. auto. }
  clear Hrep. destruct Hrep' as (Hs7 & Hc7 & Hr7).
  open_bind Hr as st' Hloop trace tl.
  apply cpu_loop_calls with (s0 := s) in Hloop; [|apply same_plan_refl].
  destruct Hloop as (Hplan & Hr9 & Hs9 & Hc9).
  apply ret_ok in Hr. destruct Hr as [Heq Ht10]. injection Heq as E1 E2.
  subst im st tf. subst.
  rewrite !repaired_passes_app, !smoothed_passes_app, !correlated_passes_app.
  rewrite Hs3, Hr3, Hc3, Hs5, Hr5, Hc5, Hs7, Hr7, Hc7, Hr9, Hs9, Hc9.
  rewrite not_last_loop. cbn [repaired_passes smoothed_passes
    correlated_passes flat_map app]. rewrite ?app_nil_r.
  split; [exact Hplan|]. split; [apply repair_plan_split|]. split.
  - unfold smoothing_plan. destruct (smoothn s); reflexivity.
  - reflexivity.
Qed.

Lemma cpu_finalize_ok `{Collaborators} (im : option (ndarray bool))
    (st : Windef.pass_state) (t : list event) (sv : saved) :
  Windef.finalize im st = (t, Ok sv) ->
  exists i ud um vd vm,
    Windef.ps_i st = Some i /\
    Windef.ps_u st = Masked ud um /\ Windef.ps_v st = Masked vd vm /\
    sv_x sv = Windef.ps_x st /\ sv_y sv = Windef.ps_y st /\
    sv_flags sv = Windef.ps_flags st /\
    sv_grid_mask sv =
      match im with
      | Some m => mask_on_grid m (Windef.ps_y st) (Windef.ps_x st)
      | None => Windef.ps_grid_mask st
      end /\
    sv_u sv = neg_flipud
                (Masked (fill_masked ud um 0%Q)
                   match im with
                   | Some m => mask_on_grid m (Windef.ps_y st) (Windef.ps_x st)
                   | None => zeros_like_bool (fill_masked ud um 0%Q)
                   end) /\
    sv_v sv = neg_flipud
                (Masked (fill_masked vd vm 0%Q)
                   match im with
                   | Some m => mask_on_grid m (Windef.ps_y st) (Windef.ps_x st)
                   | None => zeros_like_bool (fill_masked vd vm 0%Q)
                   end) /\
    t = [CallSave].
Proof.
  unfold Windef.finalize. intros Hf.
  open_bind Hf as [] Hi trace ti.
  destruct (Windef.ps_i st) as [i|] eqn:Hps; [|discriminate].
  apply ret_ok in Hi. destruct Hi as [_ ->].
  open_lift Hf as u Hu. open_lift Hf as v Hv.
  destruct (Windef.ps_u st) as [ud|ud um] eqn:Hpu; [discriminate|].
  destruct (Windef.ps_v st) as [vd|vd vm] eqn:Hpv; [discriminate|].
  cbn [filled_method] in Hu, Hv. injection Hu as <-. injection Hv as <-.
  exists i, ud, um, vd, vm.
  open_bind Hf as [[u1 v1] gm] Hmask trace tm.
  apply call_ok in Hf. destruct Hf as [-> ->].
  cbn [sv_x sv_y sv_flags sv_grid_mask sv_u sv_v].
  destruct im as [m|].
  - open_lift Hmask as u2 Hu2. open_lift Hmask as v2 Hv2.
    apply ret_ok in Hmask. destruct Hmask as [Heq ->].
    apply masked_array_ok in Hu2, Hv2.
    destruct Hu2 as [Eu _]. destruct Hv2 as [Ev _].
    injection Heq as E1 E2 E3. subst. repeat (split; [reflexivity|]).
    reflexivity.
  - apply ret_ok in Hmask. destruct Hmask as [Heq ->].
    injection Heq as E1 E2 E3. subst. repeat (split; [reflexivity|]).
    reflexivity.
Qed.

Lemma cpu_multipass_split `{Collaborators} (raw_a raw_b : ndarray Q)
    (s : PIVSettings) (t : list event) (sv : saved) :
  Windef.multipass raw_a raw_b s = (t, Ok sv) ->
  exists t1 im st,
    Windef.run_passes raw_a raw_b s = (t1, Ok (im, st)) /\
    Windef.finalize im st = ([CallSave], Ok sv) /\
    t = t1 ++ [CallSave].
Proof.
  unfold Windef.multipass. intros Hm.
  open_bind Hm as [im st] Hrun trace t1.
  pose proof (cpu_finalize_ok _ _ _ _ Hm) as (i & ud & um & vd & vm & Hfin).
  assert (Ht : t0 = [CallSave]) by tauto. subst t0.
  exists t1, im, st. auto.
Qed.

(** The state in which the loop of a completed CPU run leaves the engine:
    the last pass has validated its accumulated field and neither repaired
    nor smoothed it. *)
Lemma cpu_run_last `{Collaborators} (raw_a raw_b : ndarray Q)
    (s : PIVSettings) (t : list event) (im : option (ndarray bool))
    (st : Windef.pass_state) :
  Windef.run_passes raw_a raw_b s = (t, Ok (im, st)) ->
  2 <= num_iterations s ->
  exists frame_a frame_b st1 x y u v gm fl s',
    Windef.prepare_images raw_a raw_b s = Ok (frame_a, frame_b, im) /\
    same_plan s (Windef.ps_settings st1) /\
    Windef.validated_pass frame_a frame_b (num_iterations s - 1)
      (Windef.ps_x st1) (Windef.ps_y st1) (Windef.ps_u st1) (Windef.ps_v st1)
      (Windef.ps_settings st1)
      = ([CallDeform (num_iterations s - 1);
          CallCorrelate (num_iterations s - 1);
          CallValidate (num_iterations s - 1)],
         Ok (x, y, u, v, gm, fl, s')) /\
    np_all fl = false /\
    Windef.ps_x st = x /\ Windef.ps_y st = y /\
    Windef.ps_u st = u /\ Windef.ps_v st = v /\
    Windef.ps_grid_mask st = gm /\ Windef.ps_flags st = fl /\
    Windef.ps_i st = Some (num_iterations s - 1).
Proof.
  unfold Windef.run_passes. intros Hr Hn.
  open_lift Hr as [[frame_a frame_b] im'] Hprep.
  open_bind Hr as [[[[x0 y0] u0] v0] s2n] Hfirst trace tf.
  open_bind Hr as [u1 v1] Hsm trace ts.
  open_bind Hr as flags Hval trace tv.
  open_bind Hr as [u2 v2] Hrep trace tr.
  open_bind Hr as st' Hloop trace tl.
  apply ret_ok in Hr. destruct Hr as [Heq _]. injection Heq as E1 E2.
  subst im' st'.
  replace (num_iterations s - 1) with ((num_iterations s - 2) + 1) in Hloop by lia.
  rewrite seq_app in Hloop. cbn [seq] in Hloop.
  replace (1 + (num_iterations s - 2)) with (num_iterations s - 1) in Hloop by lia.
  apply cpu_loop_snoc in Hloop.
  destruct Hloop as (tl1 & st1 & tl2 & Hl1 & Hbody & _).
  apply cpu_loop_calls with (s0 := s) in Hl1; [|apply same_plan_refl].
  destruct Hl1 as (Hplan1 & _).
  pose proof (cpu_body_plan _ _ _ _ _ _ _ Hplan1 Hbody) as Hplan.
  apply cpu_body_ok in Hbody.
  destruct Hbody as (x & y & u & v & gm & fl & s' & tp & Hpass & Ex & Ey & Eg
                     & Ef & Es & Ei & Euv & _).
  rewrite Es in Hplan.
  rewrite (same_plan_iterations _ _ Hplan) in Euv.
  replace (num_iterations s - 1 + 1) with (num_iterations s) in Euv by lia.
  rewrite Nat.eqb_refl, andb_false_r in Euv. injection Euv as Eu Ev.
  apply cpu_pass_ok in Hpass.
  destruct Hpass as (ua & va & Hvp & Hall & Huv & _).
  rewrite (same_plan_iterations _ _ Hplan) in Huv.
  replace (num_iterations s - 1 + 1) with (num_iterations s) in Huv by lia.
  rewrite Nat.eqb_refl in Huv. injection Huv as Hu' Hv'. subst ua va.
  exists frame_a, frame_b, st1, x, y, u, v, gm, fl, s'.
  repeat (split; [assumption|]). assumption.
Qed.

(** A run of the CPU engine with fewer than two passes does not complete:
    the report line after the loop reads the loop variable. *)
Lemma cpu_single_pass_raises `{Collaborators} (raw_a raw_b : ndarray Q)
    (s : PIVSettings) (t : list event) (sv : saved) :
  Windef.multipass raw_a raw_b s = (t, Ok sv) -> 2 <= num_iterations s.
Proof.
  intros Hm. apply cpu_multipass_split in Hm.
  destruct Hm as (t1 & im & st & Hrun & Hfin & _).
  apply cpu_finalize_ok in Hfin.
  destruct Hfin as (i & ud & um & vd & vm & Hi & _).
  destruct (Nat.le_gt_cases 2 (num_iterations s)) as [Hn|Hn]; [exact Hn|].
  exfalso. unfold Windef.run_passes in Hrun.
  open_lift Hrun as [[frame_a frame_b] im'] Hprep.
  open_bind Hrun as [[[[x0 y0] u0] v0] s2n] Hfirst trace tf.
  open_bind Hrun as [u1 v1] Hsm trace ts.
  open_bind Hrun as flags Hval trace tv.
  open_bind Hrun as [u2 v2] Hrep trace tr.
  open_bind Hrun as st' Hloop trace tl.
  apply ret_ok in Hrun. destruct Hrun as [Heq _]. injection Heq as E1 E2.
  subst im' st'.
  replace (num_iterations s - 1) with 0 in Hloop by lia.
  cbn [seq Windef.multipass_loop] in Hloop.
  apply ret_ok in Hloop. destruct Hloop as [-> _].
  cbn [Windef.ps_i] in Hi. discriminate.
Qed.

(* ===================================================================== *)
(** * The padded grid of the GPU engine                                   *)
(* ===================================================================== *)

Lemma nth_map_seq {A} (f : nat -> A) (a n k : nat) (d : A) :
  k < n -> nth k (map f (seq a n)) d = f (a + k).
Proof.
  intros Hk.
  rewrite (nth_indep _ d (f 0)) by (rewrite length_map, length_seq; exact Hk).
  pose proof (map_nth f (seq a n) 0 k) as E. rewrite E.
  rewrite seq_nth by exact Hk. reflexivity.
Qed.

Lemma Qceiling_nonneg (q : Q) : (-1 < q)%Q -> (0 <= Qceiling q)%Z.
Proof.
  intros Hq. pose proof (Qle_ceiling q) as Hc.
  assert (Hlt : (inject_Z (-1) < inject_Z (Qceiling q))%Q).
  { eapply Qlt_le_trans; [|exact Hc]. exact Hq. }
  rewrite <- Zlt_Qlt in Hlt. lia.
Qed.

Lemma Qceiling_pos (q : Q) : (0 < q)%Q -> (1 <= Qceiling q)%Z.
Proof.
  intros Hq. pose proof (Qle_ceiling q) as Hc.
  assert (Hlt : (inject_Z 0 < inject_Z (Qceiling q))%Q).
  { eapply Qlt_le_trans; [|exact Hc]. exact Hq. }
  rewrite <- Zlt_Qlt in Hlt. lia.
Qed.

Lemma nth_grid_axis (n ws ov k : nat) :
  k < n ->
  nth k (grid_axis n ws ov) 0%Q =
  (inject_Z (Z.of_nat (k * (ws - ov))) + inject_Z (Z.of_nat ws) / 2)%Q.
Proof.
  intros Hk. unfold grid_axis. rewrite nth_map_seq by exact Hk. reflexivity.
Qed.

Lemma last_nth {A} (l : list A) (d : A) : last l d = nth (length l - 1) l d.
Proof.
  induction l as [|a l IH]; [reflexivity|].
  destruct l as [|b l]; [reflexivity|].
  change (last (a :: b :: l) d) with (last (b :: l) d). rewrite IH.
  cbn [length]. replace (S (S (length l)) - 1) with (S (length l - 0)) by lia.
  replace (S (length l) - 1) with (length l - 0) by lia. reflexivity.
Qed.

Lemma map_nth_seq (l : list Q) :
  map (fun r => nth r l 0%Q) (seq 0 (length l)) = l.
Proof.
  apply nth_ext with (d := 0%Q) (d' := 0%Q).
  - rewrite length_map, length_seq. reflexivity.
  - intros n Hn. rewrite length_map, length_seq in Hn.
    rewrite nth_map_seq by exact Hn. reflexivity.
Qed.

(** The 1-D coordinate vectors read back from the new grid are the axes it
    was built from. *)
Lemma new_grid_axes (size : nat * nat) (ws ov : nat) (x y : ndarray Q)
    (y_int x_int : list Q) :
  get_rect_coordinates size ws ov = Ok (x, y) ->
  col0 y = Ok y_int -> row0 x = Ok x_int ->
  exists n_rows n_cols,
    get_field_shape size ws ov = Ok (n_rows, n_cols) /\
    y_int = grid_axis n_rows ws ov /\ x_int = grid_axis n_cols ws ov.
Proof.
  intros Hgrid Hy Hx.
  apply get_rect_coordinates_ok in Hgrid.
  destruct Hgrid as (n_rows & n_cols & Hshape & -> & -> & _ & _).
  exists n_rows, n_cols. split; [exact Hshape|].
  unfold col0, row0, meshgrid in Hy, Hx. cbn [fst snd nrows ncols item] in Hy, Hx.
  destruct (length (grid_axis n_cols ws ov) =? 0); [discriminate|].
  destruct (length (grid_axis n_rows ws ov) =? 0); [discriminate|].
  injection Hy as <-. injection Hx as <-.
  rewrite !map_nth_seq. auto.
Qed.

Lemma get_field_shape_ok (h w ws ov n_rows n_cols : nat) :
  get_field_shape (h, w) ws ov = Ok (n_rows, n_cols) ->
  ov < ws /\ ws <= h /\ ws <= w /\
  n_rows = (h - ws) / (ws - ov) + 1 /\ n_cols = (w - ws) / (ws - ov) + 1.
Proof.
  unfold get_field_shape.
  destruct (Nat.leb_spec ws ov); [discriminate|].
  destruct (Nat.ltb_spec h ws); [discriminate|].
  destruct (Nat.ltb_spec w ws); [discriminate|].
  cbn [orb]. intros Heq. injection Heq as <- <-. lia.
Qed.

(** The numbers of grid points that [pad_axis] adds around an axis of the
    new grid are not negative. *)
Lemma pad_axis_grid (dim ws ov : nat) :
  ov < ws -> ws <= dim ->
  let n := (dim - ws) / (ws - ov) + 1 in
  let step := inject_Z (Z.of_nat ws - Z.of_nat ov) in
  exists add0 add1,
    WindefGpu.pad_axis (grid_axis n ws ov) dim ws ov =
      Ok (add0, add1,
          WindefGpu.pad_before (nth 0 (grid_axis n ws ov) 0%Q) add0 step
          ++ grid_axis n ws ov
          ++ WindefGpu.pad_after (last (grid_axis n ws ov) 0%Q) add1 step) /\
    (1 <= add0)%Z /\ (0 <= add1)%Z.
Proof.
  intros Hov Hws n step.
  unfold WindefGpu.pad_axis.
  assert (Hlen : length (grid_axis n ws ov) = n) by apply length_grid_axis.
  assert (Hn : 0 < n) by (subst n; lia).
  unfold py_index.
  destruct (grid_axis n ws ov) as [|g0 rest] eqn:Hg; [cbn in Hlen; lia|].
  cbn [nth_error rbind WindefGpu.py_last nth].
  eexists _, _. split; [reflexivity|].
  assert (Hstep : (1 <= step)%Q).
  { subst step. change 1%Q with (inject_Z 1). rewrite <- Zle_Qle. lia. }
  assert (Hg0 : g0 = nth 0 (grid_axis n ws ov) 0%Q) by (rewrite Hg; reflexivity).
  rewrite nth_grid_axis in Hg0 by exact Hn.
  assert (Hlast : last (g0 :: rest) 0%Q
                  = nth (n - 1) (grid_axis n ws ov) 0%Q).
  { rewrite <- Hg, last_nth, length_grid_axis. reflexivity. }
  rewrite nth_grid_axis in Hlast by lia.
  assert (Hws0 : (1 <= inject_Z (Z.of_nat ws))%Q).
  { change 1%Q with (inject_Z 1). rewrite <- Zle_Qle. lia. }
  split.
  - fold step. apply Qceiling_pos. apply Qlt_shift_div_l; [lra|].
    rewrite Hg0. cbn [Nat.mul].
    change (inject_Z (Z.of_nat 0)) with 0%Q.
    clearbody step. revert Hws0. generalize (inject_Z (Z.of_nat ws)). intros w Hw.
    unfold Qdiv. change (/ 2)%Q with (1 # 2)%Q. lra.
  - fold step. apply Qceiling_nonneg. apply Qlt_shift_div_l; [lra|].
    rewrite Hlast.
    assert (Hfit : (inject_Z (Z.of_nat ((n - 1) * (ws - ov)))
                    + inject_Z (Z.of_nat ws) <= inject_Z (Z.of_nat dim))%Q).
    { rewrite <- inject_Z_plus, <- Zle_Qle, <- Nat2Z.inj_add.
      apply inj_le. subst n.
      replace ((dim - ws) / (ws - ov) + 1 - 1) with ((dim - ws) / (ws - ov)) by lia.
      pose proof (Nat.Div0.mul_div_le (dim - ws) (ws - ov)). lia. }
    clearbody step. revert Hws0 Hfit.
    generalize (inject_Z (Z.of_nat ws)), (inject_Z (Z.of_nat dim)),
      (inject_Z (Z.of_nat ((n - 1) * (ws - ov)))).
    intros w d k Hw Hfit.
    unfold Qdiv. change (/ 2)%Q with (1 # 2)%Q. lra.
Qed.

Lemma length_pad_before (first : Q) (n : Z) (step : Q) :
  length (WindefGpu.pad_before first n step) = Z.to_nat n.
Proof.
  unfold WindefGpu.pad_before. rewrite length_map, length_rev, length_seq.
  reflexivity.
Qed.

Lemma length_pad_after (lst : Q) (n : Z) (step : Q) :
  length (WindefGpu.pad_after lst n step) = Z.to_nat n.
Proof.
  unfold WindefGpu.pad_after. rewrite length_map, length_seq. reflexivity.
Qed.

(** Cutting the added points off a padded axis gives the axis back. *)
Lemma slice_of_padded (before g after : list Q) (a0 a1 : Z) :
  length before = Z.to_nat a0 -> length after = Z.to_nat a1 ->
  (0 <= a0)%Z -> (1 <= a1)%Z ->
  let n := length (before ++ g ++ after) in
  py_slice n a0 (- a1) = (Z.to_nat a0, Z.to_nat a0 + length g) /\
  forall k, k < length g ->
            nth (Z.to_nat a0 + k) (before ++ g ++ after) 0%Q = nth k g 0%Q.
Proof.
  intros Hb Ha H0 H1 n.
  assert (Hn : n = Z.to_nat a0 + length g + Z.to_nat a1).
  { subst n. rewrite !length_app. lia. }
  split.
  - unfold py_slice. rewrite py_clip_inside by lia.
    rewrite py_clip_negative by lia. f_equal. lia.
  - intros k Hk. rewrite app_nth2 by lia.
    replace (Z.to_nat a0 + k - length before) with k by lia.
    apply app_nth1. exact Hk.
Qed.

(** With nothing added after the axis, the slice [[a0 : -0]] is empty. *)
Lemma slice_to_zero (n : nat) (a0 : Z) :
  (1 <= a0)%Z -> snd (py_slice n a0 (- 0)) - fst (py_slice n a0 (- 0)) = 0.
Proof.
  intros H0. unfold py_slice, py_clip. cbn [fst snd Z.opp Z.ltb Z.compare].
  destruct (Z.ltb_spec a0 0); lia.
Qed.

Lemma gpu_predict_ok `{Collaborators} (frame_a : ndarray Q) (i : nat)
    (x_old y_old : ndarray Q) (u_old v_old : field) (s : PIVSettings)
    (ws ov : nat) (y_add x_add : Z * Z) (x y u_pre v_pre : ndarray Q) :
  WindefGpu.predict frame_a i x_old y_old u_old v_old s
    = Ok (ws, ov, y_add, x_add, x, y, u_pre, v_pre) ->
  exists n_rows n_cols y_old1 x_old1 y_pad x_pad,
    py_index (windowsizes s) i = Ok ws /\
    py_index (overlap s) i = Ok ov /\
    get_field_shape (shape frame_a) ws ov = Ok (n_rows, n_cols) /\
    col0 y_old = Ok y_old1 /\ row0 x_old = Ok x_old1 /\
    (1 <= fst y_add)%Z /\ (0 <= snd y_add)%Z /\
    (1 <= fst x_add)%Z /\ (0 <= snd x_add)%Z /\
    WindefGpu.pad_axis (grid_axis n_rows ws ov) (nrows frame_a) ws ov
      = Ok (fst y_add, snd y_add, y_pad) /\
    WindefGpu.pad_axis (grid_axis n_cols ws ov) (ncols frame_a) ws ov
      = Ok (fst x_add, snd x_add, x_pad) /\
    (x, y) = meshgrid x_pad y_pad /\
    u_pre = spline_on_grid
              (RectBivariateSpline y_old1 x_old1 (fdata u_old)
                 (interpolation_order s) (interpolation_order s))
              y_pad x_pad /\
    v_pre = spline_on_grid
              (RectBivariateSpline y_old1 x_old1 (fdata v_old)
                 (interpolation_order s) (interpolation_order s))
              y_pad x_pad.
Proof.
  unfold WindefGpu.predict. intros Hp.
  apply rbind_ok in Hp. destruct Hp as (ws' & Hws & Hp).
  apply rbind_ok in Hp. destruct Hp as (ov' & Hov & Hp).
  apply rbind_ok in Hp. destruct Hp as ([x0 y0] & Hgrid & Hp).
  apply rbind_ok in Hp. destruct Hp as (yo & Hyo & Hp).
  apply rbind_ok in Hp. destruct Hp as (xo & Hxo & Hp).
  apply rbind_ok in Hp. destruct Hp as (yi & Hyi & Hp).
  apply rbind_ok in Hp. destruct Hp as (xi & Hxi & Hp).
  destruct (new_grid_axes _ _ _ _ _ _ _ Hgrid Hyi Hxi)
    as (n_rows & n_cols & Hshape & -> & ->).
  destruct frame_a as [h w fa]. cbn [shape nrows ncols] in *.
  pose proof (get_field_shape_ok _ _ _ _ _ _ Hshape)
    as (Hlt & Hh & Hw & -> & ->).
  destruct (pad_axis_grid h ws' ov' Hlt Hh) as (ya0 & ya1 & Hpy & Hy0 & Hy1).
  destruct (pad_axis_grid w ws' ov' Hlt Hw) as (xa0 & xa1 & Hpx & Hx0 & Hx1).
  cbn [shape nrows ncols] in *.
  cbv zeta in Hpy, Hpx. rewrite Hpy in Hp. cbn [rbind] in Hp.
  rewrite Hpx in Hp. cbn [rbind] in Hp.
  injection Hp as <- <- <- <- <- <- <- <-.
  exists ((h - ws') / (ws' - ov') + 1), ((w - ws') / (ws' - ov') + 1), yo, xo.
  eexists _, _. cbn [fst snd].
  repeat split; try assumption; try reflexivity.
Qed.

Lemma pad_axis_ok (g : list Q) (dim ws ov : nat) (a0 a1 : Z) (p : list Q) :
  WindefGpu.pad_axis g dim ws ov = Ok (a0, a1, p) ->
  exists before after,
    p = before ++ g ++ after /\
    length before = Z.to_nat a0 /\ length after = Z.to_nat a1.
Proof.
  unfold WindefGpu.pad_axis. intros Hp.
  apply rbind_ok in Hp. destruct Hp as (first & _ & Hp).
  apply rbind_ok in Hp. destruct Hp as (lst & _ & Hp).
  injection Hp as <- <- <-.
  eexists _, _. split; [reflexivity|].
  rewrite length_pad_before, length_pad_after. auto.
Qed.

Lemma slice2_padded_spline (ip : Q -> Q -> Q) (gy gx by_ ay bx ax : list Q)
    (a0 a1 b0 b1 : Z) :
  length by_ = Z.to_nat a0 -> length ay = Z.to_nat a1 ->
  length bx = Z.to_nat b0 -> length ax = Z.to_nat b1 ->
  (0 <= a0)%Z -> (1 <= a1)%Z -> (0 <= b0)%Z -> (1 <= b1)%Z ->
  arr_eq (slice2 (spline_on_grid ip (by_ ++ gy ++ ay) (bx ++ gx ++ ax))
            a0 (- a1) b0 (- b1))
         (spline_on_grid ip gy gx).
Proof.
  intros Hby Hay Hbx Hax Ha0 Ha1 Hb0 Hb1.
  destruct (slice_of_padded by_ gy ay a0 a1 Hby Hay Ha0 Ha1) as [Hsy Hny].
  destruct (slice_of_padded bx gx ax b0 b1 Hbx Hax Hb0 Hb1) as [Hsx Hnx].
  cbv zeta in Hsy, Hsx.
  unfold slice2, slice_cols, slice_rows, spline_on_grid.
  cbn [nrows ncols item]. rewrite Hsy. cbn [nrows ncols item]. rewrite Hsx.
  cbn [nrows ncols item]. split.
  - unfold shape. cbn [nrows ncols]. f_equal; lia.
  - intros r c Hr Hc. cbn [nrows ncols item] in *.
    rewrite Hny, Hnx by lia. reflexivity.
Qed.

Lemma arr_zip_eq_r (u w w' : ndarray Q) :
  shape w = shape u -> arr_eq w w' ->
  arr_eq (arr_zip Qplus u w) (arr_zip Qplus u w').
Proof.
  intros Hs [_ Hw]. split; [reflexivity|].
  cbn [arr_zip nrows ncols item]. intros r c Hr Hc.
  unfold shape in Hs. injection Hs as Hs1 Hs2.
  rewrite Hw by lia. reflexivity.
Qed.

Lemma arr_eq_trans {A} (a b c : ndarray A) :
  arr_eq a b -> arr_eq b c -> arr_eq a c.
Proof.
  intros [Hs1 H1] [Hs2 H2]. split; [congruence|].
  intros r k Hr Hk. rewrite H1 by assumption. apply H2.
  - unfold shape in Hs1. injection Hs1 as E1 E2. lia.
  - unfold shape in Hs1. injection Hs1 as E1 E2. lia.
Qed.

(** From the shape of the grid to the grid and its axes. *)
Lemma new_grid_of_shape (size : nat * nat) (ws ov n_rows n_cols : nat) :
  get_field_shape size ws ov = Ok (n_rows, n_cols) ->
  let grid := meshgrid (grid_axis n_cols ws ov) (grid_axis n_rows ws ov) in
  get_rect_coordinates size ws ov = Ok grid /\
  col0 (snd grid) = Ok (grid_axis n_rows ws ov) /\
  row0 (fst grid) = Ok (grid_axis n_cols ws ov).
Proof.
  intros Hshape grid. unfold get_rect_coordinates. rewrite Hshape.
  split; [reflexivity|].
  destruct size as [h w].
  pose proof (get_field_shape_ok _ _ _ _ _ _ Hshape) as (_ & _ & _ & Hr & Hc).
  subst grid. unfold col0, row0, meshgrid. cbn [fst snd nrows ncols item].
  rewrite !length_grid_axis.
  destruct (Nat.eqb_spec n_cols 0); [lia|].
  destruct (Nat.eqb_spec n_rows 0); [lia|].
  pose proof (map_nth_seq (grid_axis n_rows ws ov)) as Ey.
  pose proof (map_nth_seq (grid_axis n_cols ws ov)) as Ex.
  rewrite length_grid_axis in Ey, Ex. rewrite Ey, Ex. auto.
Qed.

(** On the CPU the prediction is the previous field, zero-filled where it
    is masked, resampled onto the new grid. *)
Lemma cpu_predict_resampled `{Collaborators} (frame_a : ndarray Q) (i : nat)
    (x_old y_old : ndarray Q) (u_old v_old : field) (s : PIVSettings)
    (ws ov : nat) (x y u_pre v_pre : ndarray Q) :
  Windef.predict frame_a i x_old y_old u_old v_old s
    = Ok (ws, ov, x, y, u_pre, v_pre) ->
  resampled_on_new_grid frame_a i x_old y_old (np_ma_filled u_old 0%Q) s
    = Ok u_pre /\
  resampled_on_new_grid frame_a i x_old y_old (np_ma_filled v_old 0%Q) s
    = Ok v_pre.
Proof.
  unfold Windef.predict, resampled_on_new_grid. intros Hp.
  apply rbind_ok in Hp. destruct Hp as (ws' & Hws & Hp).
  apply rbind_ok in Hp. destruct Hp as (ov' & Hov & Hp).
  apply rbind_ok in Hp. destruct Hp as ([x' y'] & Hgrid & Hp).
  apply rbind_ok in Hp. destruct Hp as (yo & Hyo & Hp).
  apply rbind_ok in Hp. destruct Hp as (xo & Hxo & Hp).
  apply rbind_ok in Hp. destruct Hp as (yi & Hyi & Hp).
  apply rbind_ok in Hp. destruct Hp as (xi & Hxi & Hp).
  rewrite Hws, Hov. cbn [rbind]. rewrite Hgrid. cbn [rbind fst snd].
  rewrite Hyo, Hxo. cbn [rbind]. rewrite Hyi, Hxi. cbn [rbind].
  injection Hp as <- <- <- <- <- <-. split; reflexivity.
Qed.

(** On the GPU the slice of the padded prediction that is accumulated is the
    previous field resampled onto the new grid. *)
Lemma gpu_accumulate `{Collaborators} (frame_a : ndarray Q) (i : nat)
    (x_old y_old : ndarray Q) (u_old v_old : field) (s : PIVSettings)
    (ws ov : nat) (y_add x_add : Z * Z) (x y u_pre v_pre : ndarray Q)
    (res_u res_v u v : ndarray Q) (shp : nat * nat) :
  WindefGpu.predict frame_a i x_old y_old u_old v_old s
    = Ok (ws, ov, y_add, x_add, x, y, u_pre, v_pre) ->
  get_field_shape (shape frame_a) ws ov = Ok shp ->
  shape res_u = shp -> shape res_v = shp ->
  np_iadd res_u (slice2 u_pre (fst y_add) (- snd y_add)
                               (fst x_add) (- snd x_add)) = Ok u ->
  np_iadd res_v (slice2 v_pre (fst y_add) (- snd y_add)
                               (fst x_add) (- snd x_add)) = Ok v ->
  exists pre_u pre_v,
    resampled_on_new_grid frame_a i x_old y_old (fdata u_old) s = Ok pre_u /\
    resampled_on_new_grid frame_a i x_old y_old (fdata v_old) s = Ok pre_v /\
    arr_eq u (arr_zip Qplus res_u pre_u) /\
    arr_eq v (arr_zip Qplus res_v pre_v).
Proof.
  intros Hp Hshape Hsu Hsv Hau Hav.
  apply gpu_predict_ok in Hp.
  destruct Hp as (n_rows & n_cols & yo & xo & y_pad & x_pad & Hws & Hov
                  & Hshape' & Hyo & Hxo & Hy0 & Hy1 & Hx0 & Hx1 & Hpy & Hpx
                  & Hgrid & -> & ->).
  assert (Hshp : shp = (n_rows, n_cols)) by congruence.
  rewrite Hshp in Hshape, Hsu, Hsv. clear Hshp.
  destruct (new_grid_of_shape _ _ _ _ _ Hshape) as (Hrect & Hcol & Hrow).
  cbv zeta in Hrect, Hcol, Hrow.
  apply pad_axis_ok in Hpy. destruct Hpy as (by_ & ay & -> & Hby & Hay).
  apply pad_axis_ok in Hpx. destruct Hpx as (bx & ax & -> & Hbx & Hax).
  destruct frame_a as [h w fa].
  pose proof (get_field_shape_ok _ _ _ _ _ _ Hshape) as (_ & _ & _ & Hnr & Hnc).
  (* the slices are not empty, so points were added after each axis *)
  assert (Hy1' : (1 <= snd y_add)%Z).
  { destruct (Z.eq_dec (snd y_add) 0) as [Hz|Hz]; [|lia]. exfalso.
    unfold np_iadd in Hau. unfold slice2, slice_cols, slice_rows in Hau.
    destruct (py_slice _ (fst y_add) _) as [sy ey] eqn:Hsy in Hau.
    cbn [nrows ncols] in Hau.
    destruct (py_slice _ (fst x_add) _) as [sx ex] eqn:Hsx in Hau.
    cbn [nrows ncols] in Hau.
    pose proof (slice_to_zero (length (by_ ++ grid_axis n_rows ws ov ++ ay))
                  (fst y_add) Hy0) as Hzero.
    rewrite Hz in Hsy. unfold spline_on_grid in Hsy. cbn [nrows] in Hsy.
    rewrite Hsy in Hzero. cbn [fst snd] in Hzero.
    unfold shape in Hsu. injection Hsu as Hr Hc. rewrite Hzero, Hr in Hau.
    destruct (Nat.eqb_spec 0 n_rows); [lia|]. cbn [Nat.eqb orb andb] in Hau.
    discriminate. }
  assert (Hx1' : (1 <= snd x_add)%Z).
  { destruct (Z.eq_dec (snd x_add) 0) as [Hz|Hz]; [|lia]. exfalso.
    unfold np_iadd in Hau. unfold slice2, slice_cols, slice_rows in Hau.
    destruct (py_slice _ (fst y_add) _) as [sy ey] eqn:Hsy in Hau.
    cbn [nrows ncols] in Hau.
    destruct (py_slice _ (fst x_add) _) as [sx ex] eqn:Hsx in Hau.
    cbn [nrows ncols] in Hau.
    pose proof (slice_to_zero (length (bx ++ grid_axis n_cols ws ov ++ ax))
                  (fst x_add) Hx0) as Hzero.
    rewrite Hz in Hsx. unfold spline_on_grid in Hsx. cbn [ncols] in Hsx.
    rewrite Hsx in Hzero. cbn [fst snd] in Hzero.
    unfold shape in Hsu. injection Hsu as Hr Hc. rewrite Hzero, Hc in Hau.
    destruct (Nat.eqb_spec 0 n_cols); [lia|].
    rewrite andb_comm in Hau. cbn [Nat.eqb orb andb] in Hau.
    discriminate. }
  set (ipu := RectBivariateSpline yo xo (fdata u_old)
                (interpolation_order s) (interpolation_order s)) in *.
  set (ipv := RectBivariateSpline yo xo (fdata v_old)
                (interpolation_order s) (interpolation_order s)) in *.
  exists (spline_on_grid ipu (grid_axis n_rows ws ov) (grid_axis n_cols ws ov)),
         (spline_on_grid ipv (grid_axis n_rows ws ov) (grid_axis n_cols ws ov)).
  unfold resampled_on_new_grid.
  rewrite Hws, Hov. cbn [rbind]. rewrite Hrect. cbn [rbind].
  rewrite Hyo, Hxo. cbn [rbind]. rewrite Hcol, Hrow. cbn [rbind].
  split; [reflexivity|]. split; [reflexivity|].
  assert (Hal : forall ip,
    arr_eq (slice2 (spline_on_grid ip (by_ ++ grid_axis n_rows ws ov ++ ay)
                      (bx ++ grid_axis n_cols ws ov ++ ax))
              (fst y_add) (- snd y_add) (fst x_add) (- snd x_add))
           (spline_on_grid ip (grid_axis n_rows ws ov) (grid_axis n_cols ws ov))).
  { intros ip. apply slice2_padded_spline; try assumption; lia. }
  assert (Hss : forall ip,
    shape (slice2 (spline_on_grid ip (by_ ++ grid_axis n_rows ws ov ++ ay)
                      (bx ++ grid_axis n_cols ws ov ++ ax))
              (fst y_add) (- snd y_add) (fst x_add) (- snd x_add))
    = (n_rows, n_cols)).
  { intros ip. destruct (Hal ip) as [Hs _]. rewrite Hs.
    unfold shape, spline_on_grid. cbn [nrows ncols].
    rewrite !length_grid_axis. reflexivity. }
  split.
  - eapply arr_eq_trans; [apply np_iadd_ok; [exact Hau|]|].
    + rewrite Hss. symmetry. exact Hsu.
    + apply arr_zip_eq_r; [rewrite Hss; symmetry; exact Hsu|apply Hal].
  - eapply arr_eq_trans; [apply np_iadd_ok; [exact Hav|]|].
    + rewrite Hss. symmetry. exact Hsv.
    + apply arr_zip_eq_r; [rewrite Hss; symmetry; exact Hsv|apply Hal].
Qed.

(* ===================================================================== *)
(** * One pass of the GPU engine                                          *)
(* ===================================================================== *)

Lemma gpu_residual_ok `{Collaborators} (frame_a frame_b : ndarray Q) (i : nat)
    (ws ov : nat) (x y u_pre v_pre : ndarray Q) (s : PIVSettings)
    (t : list event) (u v s2n : ndarray Q) (s' : PIVSettings) :
  WindefGpu.residual frame_a frame_b i ws ov x y u_pre v_pre s
    = (t, Ok (u, v, s2n, s')) ->
  t = [CallDeform i; CallCorrelate i] /\
  s' = (if sig2noise_validate s then s else clear_sig2noise_method s) /\
  exists shp, get_field_shape (shape frame_a) ws ov = Ok shp /\
              shape u = shp /\ shape v = shp /\ shape s2n = shp.
Proof.
  unfold WindefGpu.residual. intros Hr.
  open_lift Hr as deformed Hdef.
  open_call Hr as fb' Hfb. subst fb'.
  open_call Hr as [[cu cv] cs] Hcorr.
  open_lift Hr as shp Hshape.
  open_lift Hr as u' Hu.
  open_lift Hr as v' Hv.
  open_lift Hr as s2n' Hs.
  apply ret_ok in Hr. destruct Hr as [Heq ->].
  injection Heq as <- <- <- <-. subst.
  split; [reflexivity|]. split; [reflexivity|].
  exists shp. apply reshape_ok in Hu, Hv, Hs. auto.
Qed.

Lemma gpu_residual_trace `{Collaborators} (frame_a frame_b : ndarray Q)
    (i ws ov : nat) (x y u_pre v_pre : ndarray Q) (s : PIVSettings)
    (P : event -> Prop) :
  P (CallDeform i) -> P (CallCorrelate i) ->
  Forall P (trace (WindefGpu.residual frame_a frame_b i ws ov x y
                     u_pre v_pre s)).
Proof.
  intros Hd Hc. unfold WindefGpu.residual.
  apply trace_bind; [apply trace_lift|]. intros deformed _.
  apply trace_bind; [apply trace_call, Hd|]. intros fb' _.
  apply trace_bind; [apply trace_call, Hc|]. intros [[cu cv] cs] _.
  trace_steps.
Qed.

Lemma gpu_validated_pass_ok `{Collaborators} (frame_a frame_b : ndarray Q)
    (i : nat) (x_old y_old : ndarray Q) (u_old v_old : field)
    (s : PIVSettings) (t : list event) (y_add x_add : Z * Z)
    (x y u v : ndarray Q) (grid_mask flags : ndarray bool)
    (s' : PIVSettings) :
  WindefGpu.validated_pass frame_a frame_b i x_old y_old u_old v_old s
    = (t, Ok (y_add, x_add, x, y, u, v, grid_mask, flags, s')) ->
  exists ws ov u_pre v_pre res_u res_v s2n pre_u pre_v,
    WindefGpu.predict frame_a i x_old y_old u_old v_old s
      = Ok (ws, ov, y_add, x_add, x, y, u_pre, v_pre) /\
    WindefGpu.residual frame_a frame_b i ws ov x y u_pre v_pre s
      = ([CallDeform i; CallCorrelate i], Ok (res_u, res_v, s2n, s')) /\
    resampled_on_new_grid frame_a i x_old y_old (fdata u_old) s = Ok pre_u /\
    resampled_on_new_grid frame_a i x_old y_old (fdata v_old) s = Ok pre_v /\
    arr_eq u (arr_zip Qplus res_u pre_u) /\
    arr_eq v (arr_zip Qplus res_v pre_v) /\
    grid_mask = zeros_like_bool u /\
    flags = typical_validation (Plain u) (Plain v) s2n s' /\
    t = [CallDeform i; CallCorrelate i; CallValidate i].
Proof.
  unfold WindefGpu.validated_pass. intros Hv.
  open_lift Hv as [[[[[[[ws ov] ya] xa] x'] y'] u_pre] v_pre] Hpred.
  open_bind Hv as [[[res_u res_v] s2n] s1] Hres trace tr.
  pose proof (gpu_residual_ok _ _ _ _ _ _ _ _ _ _ _ _ _ _ _ Hres)
    as (Ht & Hs1 & shp & Hshape & Hsu & Hsv & Hss).
  rewrite Ht in Hres.
  open_lift Hv as ua Hau.
  open_lift Hv as va Hav.
  open_call Hv as fl Hfl.
  apply ret_ok in Hv. destruct Hv as [Heq Hnil].
  injection Heq as E1 E2 E3 E4 E5 E6 E7 E8 E9.
  subst y_add x_add x y u v grid_mask flags s'.
  destruct (gpu_accumulate _ _ _ _ _ _ _ _ _ _ _ _ _ _ _ _ _ _ _ _
              Hpred Hshape Hsu Hsv Hau Hav)
    as (pre_u & pre_v & Hpu & Hpv & Hequ & Heqv).
  exists ws, ov, u_pre, v_pre, res_u, res_v, s2n, pre_u, pre_v.
  repeat (split; [first [assumption | reflexivity]|]).
  subst. reflexivity.
Qed.

Lemma gpu_validated_pass_trace `{Collaborators} (frame_a frame_b : ndarray Q)
    (i : nat) (x_old y_old : ndarray Q) (u_old v_old : field)
    (s : PIVSettings) (P : event -> Prop) :
  P (CallDeform i) -> P (CallCorrelate i) -> P (CallValidate i) ->
  Forall P (trace (WindefGpu.validated_pass frame_a frame_b i x_old y_old
                     u_old v_old s)).
Proof.
  intros Hd Hc Hv. unfold WindefGpu.validated_pass.
  apply trace_bind; [apply trace_lift|].
  intros [[[[[[[ws ov] ya] xa] x] y] u_pre] v_pre] _.
  apply trace_bind; [apply gpu_residual_trace; assumption|].
  intros [[[u v] s2n] s1] _.
  trace_steps. exact Hv.
Qed.

Lemma gpu_validated_pass_plan `{Collaborators} (frame_a frame_b : ndarray Q)
    (i : nat) (x_old y_old : ndarray Q) (u_old v_old : field)
    (s : PIVSettings) (t : list event) (y_add x_add : Z * Z)
    (x y u v : ndarray Q) (grid_mask flags : ndarray bool)
    (s' : PIVSettings) :
  WindefGpu.validated_pass frame_a frame_b i x_old y_old u_old v_old s
    = (t, Ok (y_add, x_add, x, y, u, v, grid_mask, flags, s')) ->
  s' = (if sig2noise_validate s then s else clear_sig2noise_method s).
Proof.
  intros Hv. apply gpu_validated_pass_ok in Hv.
  destruct Hv as (ws & ov & u_pre & v_pre & res_u & res_v & s2n & pre_u
                  & pre_v & _ & Hres & _).
  apply gpu_residual_ok in Hres. tauto.
Qed.

(** A pass that returns has validated its accumulated field, found a cell
    that is valid and, unless it is the last pass, repaired the field and
    cleared the flags. *)
Lemma gpu_pass_ok `{Collaborators} (frame_a frame_b : ndarray Q)
    (i : nat) (x_old y_old : ndarray Q) (u_old v_old : field)
    (s : PIVSettings) (t : list event) (x y : ndarray Q) (u v : field)
    (grid_mask flags : ndarray bool) (s' : PIVSettings) :
  WindefGpu.multipass_img_deform frame_a frame_b i x_old y_old u_old v_old s
    = (t, Ok (x, y, u, v, grid_mask, flags, s')) ->
  exists y_add x_add x_pad y_pad u_acc v_acc validated,
    WindefGpu.validated_pass frame_a frame_b i x_old y_old u_old v_old s
      = ([CallDeform i; CallCorrelate i; CallValidate i],
         Ok (y_add, x_add, x_pad, y_pad, u_acc, v_acc, grid_mask, validated,
             s')) /\
    np_all validated = false /\
    (u, v) = (if i + 1 =? num_iterations s' then (Plain u_acc, Plain v_acc)
              else replace_outliers (Plain u_acc) (Plain v_acc) validated
                     (filter_method s') (max_filter_iteration s')
                     (filter_kernel_size s')) /\
    flags = (if i + 1 =? num_iterations s' then validated
             else zeros_like_bool (fdata u)) /\
    t = [CallDeform i; CallCorrelate i; CallValidate i]
        ++ (if i + 1 =? num_iterations s' then []
            else [CallReplaceOutliers i]).
Proof.
  unfold WindefGpu.multipass_img_deform. intros Hp.
  open_bind Hp as [[[[[[[[ya xa] x1] y1] u1] v1] gm1] fl1] s1] Hvp trace tv.
  pose proof (gpu_validated_pass_ok _ _ _ _ _ _ _ _ _ _ _ _ _ _ _ _ _ _ Hvp)
    as (ws & ov & u_pre & v_pre & res_u & res_v & s2n & pre_u & pre_v & _ & _
        & _ & _ & _ & _ & _ & _ & Ht).
  destruct (np_all fl1) eqn:Hall; [discriminate|].
  destruct (Nat.eqb_spec (i + 1) (num_iterations s1)) as [Hlast|Hlast];
    cbn [negb] in Hp.
  - open_bind Hp as [[u2 v2] fl2] Hret trace tr. apply ret_ok in Hret.
    destruct Hret as [Huv Hnil]. apply ret_ok in Hp. destruct Hp as [Heq Hnil'].
    injection Huv as Eu Ev Ef. injection Heq as E1 E2 E3 E4 E5 E6 E7.
    subst x y u v grid_mask flags s' u2 v2 fl2. subst.
    exists ya, xa, x1, y1, u1, v1, fl1.
    rewrite Hlast, Nat.eqb_refl, !app_nil_r. auto.
  - open_bind Hp as [[u2 v2] fl2] Hrep trace tr.
    open_call Hrep as [u3 v3] Hcall. apply ret_ok in Hrep.
    destruct Hrep as [Huv Hnil]. apply ret_ok in Hp. destruct Hp as [Heq Hnil'].
    injection Huv as Eu Ev Ef. injection Heq as E1 E2 E3 E4 E5 E6 E7.
    subst x y u v grid_mask flags s' u2 v2 fl2. subst.
    apply Nat.eqb_neq in Hlast.
    exists ya, xa, x1, y1, u1, v1, fl1.
    rewrite Hlast, !app_nil_r, Hcall. auto.
Qed.

(** A pass whose validation flags every cell raises at once. *)
Lemma gpu_pass_all_invalid `{Collaborators} (frame_a frame_b : ndarray Q)
    (i : nat) (x_old y_old : ndarray Q) (u_old v_old : field)
    (s : PIVSettings) (t : list event) (y_add x_add : Z * Z)
    (x y u v : ndarray Q) (grid_mask flags : ndarray bool)
    (s' : PIVSettings) :
  WindefGpu.validated_pass frame_a frame_b i x_old y_old u_old v_old s
    = (t, Ok (y_add, x_add, x, y, u, v, grid_mask, flags, s')) ->
  np_all flags = true ->
  WindefGpu.multipass_img_deform frame_a frame_b i x_old y_old u_old v_old s
    = (t, Raise (ValueError "Something happened in the validation")).
Proof.
  intros Hvp Hall. unfold WindefGpu.multipass_img_deform.
  rewrite Hvp. cbn [bind]. rewrite Hall. cbn [raise].
  rewrite app_nil_r. reflexivity.
Qed.

Lemma gpu_pass_trace `{Collaborators} (frame_a frame_b : ndarray Q)
    (i : nat) (x_old y_old : ndarray Q) (u_old v_old : field)
    (s0 s : PIVSettings) :
  same_plan s0 s ->
  Forall (later_pass_event s0 i)
    (trace (WindefGpu.multipass_img_deform frame_a frame_b i x_old y_old
              u_old v_old s)).
Proof.
  intros Hplan. unfold WindefGpu.multipass_img_deform.
  apply trace_bind.
  - apply gpu_validated_pass_trace; reflexivity.
  - intros [[[[[[[[ya xa] x] y] u] v] gm] fl] s1] Hout.
    apply outcome_eq, gpu_validated_pass_plan in Hout.
    assert (Hplan1 : same_plan s0 s1) by (subst s1; apply same_plan_step, Hplan).
    destruct (np_all fl); [apply trace_raise|].
    apply trace_bind; [|intros [[u2 v2] fl2] _; apply trace_ret].
    destruct (Nat.eqb_spec (i + 1) (num_iterations s1)) as [Hlast|Hlast];
      cbn [negb]; [apply trace_ret|].
    apply trace_bind; [|intros [u3 v3] _; apply trace_ret].
    apply trace_call. cbn. rewrite <- (same_plan_iterations _ _ Hplan1). auto.
Qed.

Lemma gpu_pass_plan `{Collaborators} (frame_a frame_b : ndarray Q)
    (i : nat) (x_old y_old : ndarray Q) (u_old v_old : field)
    (s0 s : PIVSettings) (t : list event) (x y : ndarray Q) (u v : field)
    (grid_mask flags : ndarray bool) (s' : PIVSettings) :
  same_plan s0 s ->
  WindefGpu.multipass_img_deform frame_a frame_b i x_old y_old u_old v_old s
    = (t, Ok (x, y, u, v, grid_mask, flags, s')) ->
  same_plan s0 s'.
Proof.
  intros Hplan Hp. apply gpu_pass_ok in Hp.
  destruct Hp as (ya & xa & xp & yp & u_acc & v_acc & fl & Hvp & _).
  apply gpu_validated_pass_plan in Hvp. subst s'.
  apply same_plan_step, Hplan.
Qed.

(* ===================================================================== *)
(** * The loop and whole runs of the GPU engine                           *)
(* ===================================================================== *)

Lemma gpu_body_ok `{Collaborators} (frame_a frame_b : ndarray Q) (i : nat)
    (st st' : WindefGpu.pass_state) (t : list event) :
  WindefGpu.multipass_body frame_a frame_b i st = (t, Ok st') ->
  exists x y u v gm fl s' t1,
    WindefGpu.multipass_img_deform frame_a frame_b i (WindefGpu.ps_x st)
      (WindefGpu.ps_y st) (WindefGpu.ps_u st) (WindefGpu.ps_v st)
      (WindefGpu.ps_settings st) = (t1, Ok (x, y, u, v, gm, fl, s')) /\
    WindefGpu.ps_x st' = x /\ WindefGpu.ps_y st' = y /\
    WindefGpu.ps_flags st' = fl /\ WindefGpu.ps_settings st' = s' /\
    (WindefGpu.ps_u st', WindefGpu.ps_v st') =
      (if smoothn s' && negb (i + 1 =? num_iterations s')
       then (smoothn_smoothn u (smoothn_p s'), smoothn_smoothn v (smoothn_p s'))
       else (u, v)) /\
    t = t1 ++ (if smoothn s' && negb (i + 1 =? num_iterations s')
               then [CallSmoothn i; CallSmoothn i] else []).
Proof.
  unfold WindefGpu.multipass_body. intros Hb.
  open_bind Hb as [[[[[[x y] u] v] gm] fl] s'] Hpass trace tp.
  exists x, y, u, v, gm, fl, s'.
  destruct (smoothn s' && negb (i + 1 =? num_iterations s')).
  - open_bind Hb as [u2 v2] Hsm trace ts. unfold WindefGpu.smooth_pair in Hsm.
    open_call Hsm as u3 Hu3. open_call Hsm as v3 Hv3.
    apply ret_ok in Hsm. destruct Hsm as [Huv Ht2].
    apply ret_ok in Hb. destruct Hb as [Hst Ht3].
    injection Huv as -> ->. subst. cbn [WindefGpu.ps_x WindefGpu.ps_y
      WindefGpu.ps_u WindefGpu.ps_v WindefGpu.ps_flags WindefGpu.ps_settings].
    eexists. split; [exact Hpass|]. rewrite !app_nil_r.
    repeat (split; [reflexivity|]). reflexivity.
  - open_bind Hb as [u2 v2] Hsm trace ts. apply ret_ok in Hsm.
    destruct Hsm as [Huv Ht2].
    apply ret_ok in Hb. destruct Hb as [Hst Ht3].
    injection Huv as -> ->. subst. cbn [WindefGpu.ps_x WindefGpu.ps_y
      WindefGpu.ps_u WindefGpu.ps_v WindefGpu.ps_flags WindefGpu.ps_settings].
    eexists. split; [exact Hpass|]. rewrite !app_nil_r.
    repeat (split; [reflexivity|]). reflexivity.
Qed.

Lemma gpu_body_plan `{Collaborators} (frame_a frame_b : ndarray Q) (i : nat)
    (s0 : PIVSettings) (st st' : WindefGpu.pass_state) (t : list event) :
  same_plan s0 (WindefGpu.ps_settings st) ->
  WindefGpu.multipass_body frame_a frame_b i st = (t, Ok st') ->
  same_plan s0 (WindefGpu.ps_settings st').
Proof.
  intros Hplan Hb. apply gpu_body_ok in Hb.
  destruct Hb as (x & y & u & v & gm & fl & s' & t1 & Hp & _ & _ & _ & <- & _).
  eapply gpu_pass_plan; eassumption.
Qed.

Lemma gpu_body_trace `{Collaborators} (frame_a frame_b : ndarray Q) (i : nat)
    (s0 : PIVSettings) (st : WindefGpu.pass_state) :
  same_plan s0 (WindefGpu.ps_settings st) ->
  Forall (later_pass_event s0 i)
    (trace (WindefGpu.multipass_body frame_a frame_b i st)).
Proof.
  intros Hplan. unfold WindefGpu.multipass_body.
  apply trace_bind; [apply gpu_pass_trace, Hplan|].
  intros [[[[[[x y] u] v] gm] fl] s'] Hout.
  apply outcome_eq in Hout.
  pose proof (gpu_pass_plan _ _ _ _ _ _ _ _ _ _ _ _ _ _ _ _ _ Hplan Hout) as Hplan'.
  apply trace_bind; [|intros [u2 v2] _; apply trace_ret].
  destruct (smoothn s') eqn:Hsm; cbn [andb]; [|apply trace_ret].
  destruct (Nat.eqb_spec (i + 1) (num_iterations s')) as [Hlast|Hlast];
    cbn [negb]; [apply trace_ret|].
  rewrite (same_plan_iterations _ _ Hplan') in Hlast.
  rewrite (same_plan_smoothn _ _ Hplan') in Hsm.
  unfold WindefGpu.smooth_pair.
  apply trace_bind; [apply trace_call; cbn; auto|]. intros u3 _.
  apply trace_bind; [apply trace_call; cbn; auto|]. intros v3 _.
  apply trace_ret.
Qed.

Lemma gpu_loop_trace `{Collaborators} (frame_a frame_b : ndarray Q)
    (s0 : PIVSettings) (l : list nat) (st : WindefGpu.pass_state) :
  same_plan s0 (WindefGpu.ps_settings st) ->
  Forall (fun ev => exists i, In i l /\ later_pass_event s0 i ev)
    (trace (WindefGpu.multipass_loop frame_a frame_b l st)).
Proof.
  revert st. induction l as [|i l IH]; intros st Hplan;
    cbn [WindefGpu.multipass_loop].
  - apply trace_ret.
  - apply trace_bind.
    + eapply Forall_impl; [|apply gpu_body_trace, Hplan].
      intros ev Hev. exists i. split; [left; reflexivity|exact Hev].
    + intros st' Hout. apply outcome_eq in Hout.
      eapply Forall_impl; [|apply IH; eapply gpu_body_plan; eassumption].
      intros ev (j & Hj & Hev). exists j. split; [right; exact Hj|exact Hev].
Qed.

Lemma gpu_body_calls `{Collaborators} (frame_a frame_b : ndarray Q) (i : nat)
    (s0 : PIVSettings) (st st' : WindefGpu.pass_state) (t : list event) :
  same_plan s0 (WindefGpu.ps_settings st) ->
  WindefGpu.multipass_body frame_a frame_b i st = (t, Ok st') ->
  repaired_passes t = not_last s0 [i] /\
  smoothed_passes t = (if smoothn s0 then twice (not_last s0 [i]) else []) /\
  correlated_passes t = [i].
Proof.
  intros Hplan Hb.
  pose proof (gpu_body_plan _ _ _ _ _ _ _ Hplan Hb) as Hplan'.
  apply gpu_body_ok in Hb.
  destruct Hb as (x & y & u & v & gm & fl & s' & t1 & Hp & _ & _ & _ & Hs
                  & _ & ->).
  rewrite Hs in Hplan'.
  apply gpu_pass_ok in Hp.
  destruct Hp as (ya & xa & xp & yp & ua & va & fv & _ & _ & _ & _ & ->).
  rewrite (same_plan_iterations _ _ Hplan'), (same_plan_smoothn _ _ Hplan').
  unfold not_last, twice. cbn [filter].
  destruct (i + 1 =? num_iterations s0); destruct (smoothn s0); cbn; auto.
Qed.

Lemma gpu_loop_calls `{Collaborators} (frame_a frame_b : ndarray Q)
    (s0 : PIVSettings) (l : list nat) (st st' : WindefGpu.pass_state)
    (t : list event) :
  same_plan s0 (WindefGpu.ps_settings st) ->
  WindefGpu.multipass_loop frame_a frame_b l st = (t, Ok st') ->
  same_plan s0 (WindefGpu.ps_settings st') /\
  repaired_passes t = not_last s0 l /\
  smoothed_passes t = (if smoothn s0 then twice (not_last s0 l) else []) /\
  correlated_passes t = l.
Proof.
  revert st t. induction l as [|i l IH]; intros st t Hplan Hl;
    cbn [WindefGpu.multipass_loop] in Hl.
  - apply ret_ok in Hl. destruct Hl as [-> ->].
    destruct (smoothn s0); auto.
  - open_bind Hl as st1 Hb trace tb.
    pose proof (gpu_body_plan _ _ _ _ _ _ _ Hplan Hb) as Hplan1.
    pose proof (gpu_body_calls _ _ _ _ _ _ _ Hplan Hb) as (Hr1 & Hs1 & Hc1).
    destruct (IH _ _ Hplan1 Hl) as (Hplan' & Hr2 & Hs2 & Hc2).
    subst t. rewrite repaired_passes_app, smoothed_passes_app,
      correlated_passes_app, Hr1, Hr2, Hs1, Hs2, Hc1, Hc2.
    change (i :: l) with ([i] ++ l). rewrite not_last_app.
    destruct (smoothn s0); [rewrite twice_app|]; auto.
Qed.

Lemma gpu_loop_snoc `{Collaborators} (frame_a frame_b : ndarray Q)
    (l : list nat) (i : nat) (st st' : WindefGpu.pass_state)
    (t : list event) :
  WindefGpu.multipass_loop frame_a frame_b (l ++ [i]) st = (t, Ok st') ->
  exists t1 st1 t2,
    WindefGpu.multipass_loop frame_a frame_b l st = (t1, Ok st1) /\
    WindefGpu.multipass_body frame_a frame_b i st1 = (t2, Ok st') /\
    t = t1 ++ t2.
Proof.
  revert st t. induction l as [|j l IH]; intros st t Hl;
    cbn [app WindefGpu.multipass_loop] in Hl.
  - open_bind Hl as st1 Hb trace tb. apply ret_ok in Hl.
    destruct Hl as [-> ->].
    exists [], st, tb. subst t. rewrite app_nil_r. auto.
  - open_bind Hl as st1 Hb trace tb.
    destruct (IH _ _ Hl) as (t1' & st2 & t2' & Hl1 & Hb2 & ->).
    exists (tb ++ t1'), st2, t2'. cbn [WindefGpu.multipass_loop].
    rewrite Hb. cbn [bind]. rewrite Hl1. subst t. rewrite app_assoc. auto.
Qed.

Lemma gpu_first_pass_trace `{Collaborators} (frame_a frame_b : ndarray Q)
    (s : PIVSettings) (P : event -> Prop) :
  P (CallCorrelate 0) ->
  Forall P (trace (WindefGpu.first_pass frame_a frame_b s)).
Proof.
  intros Hc. unfold WindefGpu.first_pass.
  apply trace_bind; [apply trace_lift|]. intros ws0 _.
  apply trace_bind; [apply trace_lift|]. intros ov0 _.
  apply trace_bind; [apply trace_call, Hc|]. intros [[cu cv] cs] _.
  apply trace_bind; [apply trace_lift|]. intros shp _.
  apply trace_bind; [apply trace_lift|]. intros u _.
  apply trace_bind; [apply trace_lift|]. intros v _.
  apply trace_bind; [apply trace_lift|]. intros s2n _.
  apply trace_bind; [apply trace_lift|]. intros [x y] _.
  apply trace_ret.
Qed.

Lemma gpu_first_pass_ok `{Collaborators} (frame_a frame_b : ndarray Q)
    (s : PIVSettings) (t : list event) (x y u v s2n : ndarray Q) :
  WindefGpu.first_pass frame_a frame_b s = (t, Ok (x, y, u, v, s2n)) ->
  t = [CallCorrelate 0].
Proof.
  unfold WindefGpu.first_pass. intros Hf.
  open_lift Hf as ws0 Hws. open_lift Hf as ov0 Hov.
  open_call Hf as [[cu cv] cs] Hcorr.
  open_lift Hf as shp Hshape.
  open_lift Hf as u' Hu. open_lift Hf as v' Hv. open_lift Hf as s2n' Hs.
  open_lift Hf as [x' y'] Hgrid.
  apply ret_ok in Hf. destruct Hf as [Heq Ht]. subst. reflexivity.
Qed.

Lemma gpu_run_trace `{Collaborators} (raw_a raw_b : ndarray Q)
    (s : PIVSettings) :
  Forall (run_event s) (trace (WindefGpu.run_passes raw_a raw_b s)).
Proof.
  unfold WindefGpu.run_passes.
  apply trace_bind; [apply trace_lift|]. intros [frame_a frame_b] _.
  apply trace_bind; [apply gpu_first_pass_trace; exact I|].
  intros [[[[x y] u] v] s2n] _.
  apply trace_bind.
  { destruct (smoothn s) eqn:Hsm; [|apply trace_ret].
    unfold WindefGpu.smooth_pair.
    apply trace_bind; [apply trace_call; cbn; auto|]. intros u3 _.
    apply trace_bind; [apply trace_call; cbn; auto|]. intros v3 _.
    apply trace_ret. }
  intros [u1 v1] _.
  apply trace_bind.
  { destruct (validation_first_pass s); [apply trace_call; exact I|apply trace_ret]. }
  intros flags _.
  apply trace_bind.
  { destruct ((num_iterations s =? 1) && replace_vectors s
              || (1 <? num_iterations s)) eqn:Hguard; [|apply trace_ret].
    apply trace_call. cbn.
    apply orb_true_iff in Hguard. destruct Hguard as [Hone|Hmore].
    - apply andb_true_iff in Hone. destruct Hone as [Hone Hrv].
      apply Nat.eqb_eq in Hone. right. auto.
    - apply Nat.ltb_lt in Hmore. left. lia. }
  intros [u2 v2] _.
  eapply Forall_impl; [apply later_pass_is_run_event|].
  apply gpu_loop_trace. apply same_plan_refl.
Qed.

Lemma gpu_multipass_trace `{Collaborators} (raw_a raw_b : ndarray Q)
    (s : PIVSettings) :
  Forall (fun ev => run_event s ev \/ ev = CallSave)
    (trace (WindefGpu.multipass raw_a raw_b s)).
Proof.
  unfold WindefGpu.multipass. apply trace_bind.
  - eapply Forall_impl; [|apply gpu_run_trace]. intros ev Hev. left. exact Hev.
  - intros st _. unfold WindefGpu.finalize. apply trace_call. right. reflexivity.
Qed.

Lemma gpu_multipass_split `{Collaborators} (raw_a raw_b : ndarray Q)
    (s : PIVSettings) (t : list event) (sv : saved) :
  WindefGpu.multipass raw_a raw_b s = (t, Ok sv) ->
  exists t1 st,
    WindefGpu.run_passes raw_a raw_b s = (t1, Ok st) /\
    sv = {| sv_x := WindefGpu.ps_x st; sv_y := WindefGpu.ps_y st;
            sv_u := neg_flipud (WindefGpu.ps_u st);
            sv_v := neg_flipud (WindefGpu.ps_v st);
            sv_flags := WindefGpu.ps_flags st;
            sv_grid_mask := zeros_like_bool (fdata (WindefGpu.ps_u st)) |} /\
    t = t1 ++ [CallSave].
Proof.
  unfold WindefGpu.multipass. intros Hm.
  open_bind Hm as st Hrun trace t1.
  unfold WindefGpu.finalize in Hm. apply call_ok in Hm. destruct Hm as [-> ->].
  exists t1, st. auto.
Qed.

(** The calls of a completed run up to the end of its loop. *)
Lemma gpu_run_calls `{Collaborators} (raw_a raw_b : ndarray Q)
    (s : PIVSettings) (t : list event) (st : WindefGpu.pass_state) :
  WindefGpu.run_passes raw_a raw_b s = (t, Ok st) ->
  same_plan s (WindefGpu.ps_settings st) /\
  repaired_passes t = repair_plan s /\
  smoothed_passes t = smoothing_plan s /\
  correlated_passes t = seq 0 (S (num_iterations s - 1)).
Proof.
  unfold WindefGpu.run_passes. intros Hr.
  open_lift Hr as [frame_a frame_b] Hprep.
  open_bind Hr as [[[[x y] u] v] s2n] Hfirst trace tf.
  apply gpu_first_pass_ok in Hfirst.
  open_bind Hr as [u1 v1] Hsm trace ts.
  assert (Hsm' : smoothed_passes ts = (if smoothn s then [0; 0] else [])
                 /\ repaired_passes ts = [] /\ correlated_passes ts = []).
  { destruct (smoothn s).
    - unfold WindefGpu.smooth_pair in Hsm.
      open_call Hsm as u3 Hu3. open_call Hsm as v3 Hv3.
      apply ret_ok in Hsm. destruct Hsm as [_ Ht]. subst. auto.
    - apply ret_ok in Hsm. destruct Hsm as [_ Ht]. subst. auto. }
  clear Hsm. destruct Hsm' as (Hs3 & Hr3 & Hc3).
  open_bind Hr as flags Hval trace tv.
  assert (Hval' : smoothed_passes tv = [] /\ repaired_passes tv = []
                  /\ correlated_passes tv = []).
  { destruct (validation_first_pass s).
    - apply call_ok in Hval. destruct Hval as [_ ->]. auto.
    - apply ret_ok in Hval. destruct Hval as [_ ->]. auto. }
  clear Hval. destruct Hval' as (Hs5 & Hr5 & Hc5).
  open_bind Hr as [u2 v2] Hrep trace tr.
  assert (Hrep' : smoothed_passes tr = [] /\ correlated_passes tr = [] /\
                  repaired_passes tr =
                    (if (num_iterations s =? 1) && replace_vectors s
                        || (1 <? num_iterations s) then [0] else [])).
  { destruct ((num_iterations s =? 1) && replace_vectors s
              || (1 <? num_iterations s)).
    - apply call_ok in Hrep. destruct Hrep as [_ ->]. auto.
    - apply ret_ok in Hrep. destruct Hrep as [_ ->]. auto. }
  clear Hrep. destruct Hrep' as (Hs7 & Hc7 & Hr7).
  apply gpu_loop_calls with (s0 := s) in Hr; [|apply same_plan_refl].
  destruct Hr as (Hplan & Hr9 & Hs9 & Hc9).
  subst tf. subst.
  rewrite !repaired_passes_app, !smoothed_passes_app, !correlated_passes_app.
  rewrite Hs3, Hr3, Hc3, Hs5, Hr5, Hc5, Hs7, Hr7, Hc7, Hr9, Hs9, Hc9.
  rewrite not_last_loop. cbn [repaired_passes smoothed_passes
    correlated_passes flat_map app]. rewrite ?app_nil_r.
  split; [exact Hplan|]. split; [apply repair_plan_split|]. split.
  - unfold smoothing_plan. destruct (smoothn s); reflexivity.
  - reflexivity.
Qed.

(* ===================================================================== *)
(** * The claims                                                          *)
(* ===================================================================== *)

Lemma shape_slice2 {A B} (a : ndarray A) (b : ndarray B) (r0 r1 c0 c1 : Z) :
  shape a = shape b -> shape (slice2 a r0 r1 c0 c1) = shape (slice2 b r0 r1 c0 c1).
Proof.
  unfold shape. intros Hs. injection Hs as Hr Hc.
  unfold slice2, slice_cols, slice_rows. rewrite Hr.
  destruct (py_slice (nrows b) r0 r1) as [s e]. cbn [nrows ncols]. rewrite Hc.
  destruct (py_slice (ncols b) c0 c1) as [s' e']. reflexivity.
Qed.

Lemma shape_crop_to_roi (s : PIVSettings) (a b : ndarray Q) :
  shape a = shape b -> shape (crop_to_roi s a) = shape (crop_to_roi s b).
Proof.
  intros Hs. unfold crop_to_roi.
  destruct (roi s) as [[[[r0 r1] c0] c1]|]; [apply shape_slice2|]; exact Hs.
Qed.




Lemma arr_eq_sym {A} (a b : ndarray A) : arr_eq a b -> arr_eq b a.
Proof.
  intros [Hs Hi]. split; [congruence|].
  unfold shape in Hs. injection Hs as Hr Hc.
  intros r c Hlr Hlc. symmetry. apply Hi; lia.
Qed.





(** C3, as it holds.  The output of the tiled deformer does not depend on
    the tile size: any two positive tile sizes give the same deformed
    frame, or the same error. *)
Theorem tiling_is_transparent `{Collaborators} (tile_a tile_b : nat)
    (frame x y u v : ndarray Q)
    (window_size ovl interpolation_order interpolation_order2 : nat)
    (tile_a_pos : 0 < tile_a) (tile_b_pos : 0 < tile_b) :
  match WindefGpu.deform_windows_tiled tile_a frame x y u v window_size ovl
          interpolation_order interpolation_order2,
        WindefGpu.deform_windows_tiled tile_b frame x y u v window_size ovl
          interpolation_order interpolation_order2 with
  | Ok out_a, Ok out_b => arr_eq out_a out_b
  | Raise e_a, Raise e_b => e_a = e_b
  | _, _ => False
  end.
Proof.
  pose proof (deform_windows_tiled_spec tile_a frame x y u v window_size ovl
                interpolation_order interpolation_order2 tile_a_pos) as Ha.
  pose proof (deform_windows_tiled_spec tile_b frame x y u v window_size ovl
                interpolation_order interpolation_order2 tile_b_pos) as Hb.
  unfold WindefGpu.deform_windows_tiled in *.
  destruct ((nrows x =? 0) || (ncols x =? 0) || (nrows y =? 0)
            || (ncols y =? 0)); [reflexivity|].
  eapply arr_eq_trans; [exact Ha|]. apply arr_eq_sym. exact Hb.
Qed.

(** C3, refuted as stated.  On the 8 x 8 ramp, with a uniform displacement
    of half a pixel on the 3 x 3 grid and bilinear resampling, the CPU
    deformer returns 7/2 at pixel (0, 3) and the GPU deformer returns 3: the
    two deformers do not produce the same frame. *)
Lemma deformers_differ :
  exists cpu gpu,
    @Windef.deform_windows (Demo.world Demo.quiet) Demo.ramp
      DemoInputs.grid_x DemoInputs.grid_y
      DemoInputs.half_right DemoInputs.still 1 1 = Ok cpu /\
    @WindefGpu.deform_windows (Demo.world Demo.quiet) Demo.ramp
      DemoInputs.grid_x DemoInputs.grid_y
      DemoInputs.half_right DemoInputs.still 4 2 1 1 = Ok gpu /\
    item cpu 0 3 = (7 # 2)%Q /\ item gpu 0 3 = 3%Q /\
    ~ (item cpu 0 3 == item gpu 0 3)%Q.
Proof.
  eexists _, _. split; [reflexivity|]. split; [reflexivity|].
  split; [vm_compute; reflexivity|]. split; [vm_compute; reflexivity|].
  vm_compute. discriminate.
Qed.

(** C3 as it holds, on the ramp: tiles of 3 pixels and tiles of 5 pixels
    give the same frame. *)
Lemma tiling_is_transparent_witness :
  0 < 3 /\ 0 < 5 /\
  match @WindefGpu.deform_windows_tiled (Demo.world Demo.quiet) 3 Demo.ramp
          DemoInputs.grid_x DemoInputs.grid_y
          DemoInputs.half_right DemoInputs.still 4 2 1 1,
        @WindefGpu.deform_windows_tiled (Demo.world Demo.quiet) 5 Demo.ramp
          DemoInputs.grid_x DemoInputs.grid_y
          DemoInputs.half_right DemoInputs.still 4 2 1 1 with
  | Ok out_a, Ok out_b => arr_eq out_a out_b
  | Raise e_a, Raise e_b => e_a = e_b
  | _, _ => False
  end.
Proof.
  split; [lia|]. split; [lia|].
  apply (@tiling_is_transparent (Demo.world Demo.quiet) 3 5); lia.
Defined.

(** C1, as it holds.  For every multipass iteration [i], the field that
    [multipass_img_deform] validates equals, at every grid cell, the
    residual displacement obtained by correlating frame A against the
    deformed frame B at the new window size and overlap, plus the previous
    pass's field resampled onto the new grid.  On the last iteration
    ([i + 1 = num_iterations]) this accumulated field is the one returned;
    on every earlier iteration the function returns what
    [replace_outliers] makes of it. *)
Theorem accumulated_then_repaired `{Collaborators}
    (frame_a frame_b : ndarray Q) (i : nat) (x_old y_old : ndarray Q)
    (u_old v_old : field) (s : PIVSettings) :
  (forall t out,
      Windef.multipass_img_deform frame_a frame_b i x_old y_old u_old v_old s
        = (t, Ok out) ->
      cpu_accumulation frame_a frame_b i x_old y_old u_old v_old s out) /\
  (forall t out,
      WindefGpu.multipass_img_deform frame_a frame_b i x_old y_old
        u_old v_old s = (t, Ok out) ->
      gpu_accumulation frame_a frame_b i x_old y_old u_old v_old s out).
Proof.
  split.
  - intros t [[[[[[x y] u] v] grid_mask] flags] s'] Hrun.
    assert (Hplan : same_plan s s')
      by (eapply cpu_pass_plan; [apply same_plan_refl|exact Hrun]).
    apply cpu_pass_ok in Hrun.
    destruct Hrun as (u_acc & v_acc & Hvp & _ & Huv & _).
    apply cpu_validated_pass_ok in Hvp.
    destruct Hvp as (ws & ov & u_pre & v_pre & res_u & res_v & s2n & Hpred
                     & Hres & Hu & Hv & _ & _ & _ & Hfl & _).
    destruct (cpu_predict_resampled _ _ _ _ _ _ _ _ _ _ _ _ _ Hpred)
      as [Hpu Hpv].
    rewrite (same_plan_iterations _ _ Hplan) in Huv.
    exists ws, ov, u_pre, v_pre, res_u, res_v, s2n, u_acc, v_acc.
    repeat (split; [assumption|]). exact Huv.
  - intros t [[[[[[x y] u] v] grid_mask] flags] s'] Hrun.
    assert (Hplan : same_plan s s')
      by (eapply gpu_pass_plan; [apply same_plan_refl|exact Hrun]).
    apply gpu_pass_ok in Hrun.
    destruct Hrun as (y_add & x_add & x_pad & y_pad & u_acc & v_acc
                      & validated & Hvp & _ & Huv & _).
    apply gpu_validated_pass_ok in Hvp.
    destruct Hvp as (ws & ov & u_pad & v_pad & res_u & res_v & s2n & u_pre
                     & v_pre & _ & Hres & Hpu & Hpv & Hu & Hv & _ & Hfl & _).
    rewrite (same_plan_iterations _ _ Hplan) in Huv.
    exists ws, ov, x_pad, y_pad, u_pad, v_pad, res_u, res_v, s2n, u_pre, v_pre,
      u_acc, v_acc, validated.
    repeat (split; [assumption|]). exact Huv.
Qed.

(** C1 as it holds, on the last pass of a two-pass run of either engine in
    the small world. *)
Lemma accumulated_then_repaired_witness :
  (exists t out,
      @Windef.multipass_img_deform (Demo.world Demo.quiet)
        Demo.ramp Demo.ramp 1 DemoRuns.coarse_x DemoRuns.coarse_y
        DemoRuns.at_rest DemoRuns.at_rest DemoRuns.two_passes = (t, Ok out) /\
      @cpu_accumulation (Demo.world Demo.quiet)
        Demo.ramp Demo.ramp 1 DemoRuns.coarse_x DemoRuns.coarse_y
        DemoRuns.at_rest DemoRuns.at_rest DemoRuns.two_passes out) /\
  (exists t out,
      @WindefGpu.multipass_img_deform (Demo.world Demo.quiet)
        Demo.ramp Demo.ramp 1 DemoRuns.coarse_x DemoRuns.coarse_y
        DemoRuns.at_rest DemoRuns.at_rest DemoRuns.two_passes = (t, Ok out) /\
      @gpu_accumulation (Demo.world Demo.quiet)
        Demo.ramp Demo.ramp 1 DemoRuns.coarse_x DemoRuns.coarse_y
        DemoRuns.at_rest DemoRuns.at_rest DemoRuns.two_passes out).
Proof.
  destruct (@accumulated_then_repaired (Demo.world Demo.quiet)
              Demo.ramp Demo.ramp 1 DemoRuns.coarse_x DemoRuns.coarse_y
              DemoRuns.at_rest DemoRuns.at_rest DemoRuns.two_passes)
    as [Hcpu Hgpu].
  split.
  - eexists _, _. split; [reflexivity|]. eapply Hcpu. reflexivity.
  - eexists _, _. split; [reflexivity|]. eapply Hgpu. reflexivity.
Defined.


(** C1, refuted as stated.  Pass 1 of 3 on the CPU, with a correlation
    engine that reports 50 pixels at the centre window: the residual plus
    the resampled previous field is 50 there, validation flags the cell,
    and the field returned holds the local mean 1 instead. *)
Lemma returned_field_is_repaired :
  exists t x y u v grid_mask flags s' u_pre v_pre res_u res_v s2n,
    @Windef.multipass_img_deform (Demo.world DemoRuns.spike)
      Demo.ramp Demo.ramp 1 DemoRuns.coarse_x DemoRuns.coarse_y
      DemoRuns.at_rest DemoRuns.at_rest DemoRuns.three_passes
      = (t, Ok (x, y, u, v, grid_mask, flags, s')) /\
    @resampled_on_new_grid (Demo.world DemoRuns.spike) Demo.ramp 1
      DemoRuns.coarse_x DemoRuns.coarse_y
      (np_ma_filled DemoRuns.at_rest 0%Q) DemoRuns.three_passes = Ok u_pre /\
    @resampled_on_new_grid (Demo.world DemoRuns.spike) Demo.ramp 1
      DemoRuns.coarse_x DemoRuns.coarse_y
      (np_ma_filled DemoRuns.at_rest 0%Q) DemoRuns.three_passes = Ok v_pre /\
    @Windef.residual (Demo.world DemoRuns.spike) Demo.ramp Demo.ramp 1 4 2
      x y u_pre v_pre DemoRuns.three_passes
      = ([CallDeform 1; CallCorrelate 1], Ok (res_u, res_v, s2n, s')) /\
    item res_u 1 1 = 50%Q /\ item u_pre 1 1 = 0%Q /\
    item flags 1 1 = true /\
    item (fdata u) 1 1 = 1%Q /\
    ~ (item (fdata u) 1 1 == item res_u 1 1 + item u_pre 1 1)%Q.
Proof.
  eexists _, _, _, _, _, _, _, _, _, _, _, _, _.
  split; [reflexivity|]. split; [reflexivity|]. split; [reflexivity|].
  split; [reflexivity|].
  split; [vm_compute; reflexivity|]. split; [vm_compute; reflexivity|].
  split; [vm_compute; reflexivity|]. split; [vm_compute; reflexivity|].
  vm_compute. discriminate.
Qed.

Lemma gpu_run_last `{Collaborators} (raw_a raw_b : ndarray Q)
    (s : PIVSettings) (t : list event) (st : WindefGpu.pass_state) :
  WindefGpu.run_passes raw_a raw_b s = (t, Ok st) ->
  2 <= num_iterations s ->
  exists frame_a frame_b st1 y_add x_add x_pad y_pad u v gm fl s',
    WindefGpu.prepare_images raw_a raw_b s = Ok (frame_a, frame_b) /\
    same_plan s (WindefGpu.ps_settings st1) /\
    WindefGpu.validated_pass frame_a frame_b (num_iterations s - 1)
      (WindefGpu.ps_x st1) (WindefGpu.ps_y st1) (WindefGpu.ps_u st1)
      (WindefGpu.ps_v st1) (WindefGpu.ps_settings st1)
      = ([CallDeform (num_iterations s - 1);
          CallCorrelate (num_iterations s - 1);
          CallValidate (num_iterations s - 1)],
         Ok (y_add, x_add, x_pad, y_pad, u, v, gm, fl, s')) /\
    np_all fl = false /\
    WindefGpu.ps_u st = Plain u /\ WindefGpu.ps_v st = Plain v /\
    WindefGpu.ps_flags st = fl.
Proof.
  unfold WindefGpu.run_passes. intros Hr Hn.
  open_lift Hr as [frame_a frame_b] Hprep.
  open_bind Hr as [[[[x0 y0] u0] v0] s2n] Hfirst trace tf.
  open_bind Hr as [u1 v1] Hsm trace ts.
  open_bind Hr as flags Hval trace tv.
  open_bind Hr as [u2 v2] Hrep trace tr.
  rename Hr into Hloop.
  replace (num_iterations s - 1) with ((num_iterations s - 2) + 1) in Hloop by lia.
  rewrite seq_app in Hloop. cbn [seq] in Hloop.
  replace (1 + (num_iterations s - 2)) with (num_iterations s - 1) in Hloop by lia.
  apply gpu_loop_snoc in Hloop.
  destruct Hloop as (tl1 & st1 & tl2 & Hl1 & Hbody & _).
  apply gpu_loop_calls with (s0 := s) in Hl1; [|apply same_plan_refl].
  destruct Hl1 as (Hplan1 & _).
  pose proof (gpu_body_plan _ _ _ _ _ _ _ Hplan1 Hbody) as Hplan.
  apply gpu_body_ok in Hbody.
  destruct Hbody as (x & y & u & v & gm & fl & s' & tp & Hpass & Ex & Ey
                     & Ef & Es & Euv & _).
  rewrite Es in Hplan.
  rewrite (same_plan_iterations _ _ Hplan) in Euv.
  replace (num_iterations s - 1 + 1) with (num_iterations s) in Euv by lia.
  rewrite Nat.eqb_refl, andb_false_r in Euv. injection Euv as Eu Ev.
  apply gpu_pass_ok in Hpass.
  destruct Hpass as (y_add & x_add & x_pad & y_pad & ua & va & validated
                     & Hvp & Hall & Huv & Hfl & _).
  rewrite (same_plan_iterations _ _ Hplan) in Huv, Hfl.
  replace (num_iterations s - 1 + 1) with (num_iterations s) in Huv, Hfl by lia.
  rewrite Nat.eqb_refl in Huv, Hfl. injection Huv as Hu' Hv'.
  subst u v validated.
  exists frame_a, frame_b, st1, y_add, x_add, x_pad, y_pad, ua, va, gm, fl, s'.
  split; [assumption|]. split; [assumption|]. split; [assumption|].
  split; [assumption|]. split; [assumption|]. split; [assumption|].
  assumption.
Qed.

(** With two or more passes the plans read: repair on every pass but the
    last, smoothing after every pass but the last. *)
Lemma repair_plan_many (s : PIVSettings) :
  2 <= num_iterations s -> repair_plan s = seq 0 (num_iterations s - 1).
Proof.
  intros Hn. unfold repair_plan.
  destruct (num_iterations s =? 1) eqn:E; [apply Nat.eqb_eq in E; lia|].
  reflexivity.
Qed.

Lemma smoothing_plan_many (s : PIVSettings) :
  2 <= num_iterations s ->
  smoothing_plan s
  = if smoothn s then twice (seq 0 (num_iterations s - 1)) else [].
Proof.
  intros Hn. unfold smoothing_plan.
  replace (num_iterations s - 1) with (S (num_iterations s - 2)) by lia.
  reflexivity.
Qed.

Lemma repaired_passes_save (t : list event) :
  repaired_passes (t ++ [CallSave]) = repaired_passes t.
Proof. rewrite repaired_passes_app. cbn. apply app_nil_r. Qed.

Lemma smoothed_passes_save (t : list event) :
  smoothed_passes (t ++ [CallSave]) = smoothed_passes t.
Proof. rewrite smoothed_passes_app. cbn. apply app_nil_r. Qed.

(** A completed CPU run saved what the validation of its last pass
    returned. *)
Lemma cpu_multipass_last `{Collaborators} (raw_a raw_b : ndarray Q)
    (s : PIVSettings) (t : list event) (sv : saved) :
  Windef.multipass raw_a raw_b s = (t, Ok sv) ->
  cpu_saves_last_validated raw_a raw_b s sv.
Proof.
  intros Hm. pose proof (cpu_single_pass_raises _ _ _ _ _ Hm) as Hn.
  apply cpu_multipass_split in Hm.
  destruct Hm as (t1 & im & st & Hrun & Hfin & _).
  apply cpu_finalize_ok in Hfin.
  destruct Hfin as (i & ud & um & vd & vm & _ & Hu & Hv & Hx & Hy & Hf & _
                    & Hsu & Hsv & _).
  destruct (cpu_run_last _ _ _ _ _ _ Hrun Hn)
    as (frame_a & frame_b & st1 & x & y & u & v & gm & fl & s' & Hprep & _
        & Hvp & _ & Ex & Ey & Eu & Ev & _ & Ef & _).
  exists frame_a, frame_b, im, (Windef.ps_x st1), (Windef.ps_y st1),
    (Windef.ps_u st1), (Windef.ps_v st1), (Windef.ps_settings st1),
    u, v, gm, s'.
  split; [exact Hprep|].
  split; [rewrite Hx, Hy, Hf, Ex, Ey, Ef; exact Hvp|].
  rewrite Hsu, Hsv, <- Eu, <- Ev, Hu, Hv. split; reflexivity.
Qed.

Lemma gpu_multipass_last `{Collaborators} (raw_a raw_b : ndarray Q)
    (s : PIVSettings) (t : list event) (sv : saved) :
  WindefGpu.multipass raw_a raw_b s = (t, Ok sv) ->
  2 <= num_iterations s ->
  gpu_saves_last_validated raw_a raw_b s sv.
Proof.
  intros Hm Hn. apply gpu_multipass_split in Hm.
  destruct Hm as (t1 & st & Hrun & Hsv & _).
  destruct (gpu_run_last _ _ _ _ _ Hrun Hn)
    as (frame_a & frame_b & st1 & y_add & x_add & x_pad & y_pad & u & v & gm
        & fl & s' & Hprep & _ & Hvp & _ & Eu & Ev & Ef).
  exists frame_a, frame_b, (WindefGpu.ps_x st1), (WindefGpu.ps_y st1),
    (WindefGpu.ps_u st1), (WindefGpu.ps_v st1), (WindefGpu.ps_settings st1),
    y_add, x_add, x_pad, y_pad, u, v, gm, s'.
  subst sv. cbn [sv_x sv_y sv_u sv_v sv_flags].
  split; [exact Hprep|]. split; [rewrite Ef; exact Hvp|].
  rewrite Eu, Ev. split; reflexivity.
Qed.

Lemma completed_run {A} (m : M A) (P : list event -> A -> Prop) :
  completed m = true ->
  (forall t a, m = (t, Ok a) -> P t a) ->
  exists t a, m = (t, Ok a) /\ P t a.
Proof.
  destruct m as [t [a|e]]; [|discriminate]. intros _ HP.
  exists t, a. split; [reflexivity|apply HP; reflexivity].
Qed.

Lemma completed_with {A} (m : M A) (t : list event) (P : A -> Prop) :
  trace m = t ->
  match outcome m with Ok a => P a | Raise _ => False end ->
  exists a, m = (t, Ok a) /\ P a.
Proof.
  destruct m as [t' [a|e]]; cbn; [|contradiction]. intros -> HP.
  exists a. split; [reflexivity|exact HP].
Qed.


(** C4, as it holds.  In any run of either engine, complete or not, outlier
    replacement is called for pass [i] only if another pass follows
    ([i + 1 < num_iterations]), or if [i = 0] is the only pass and
    [replace_vectors] is set.  A CPU run that completes has two or more
    passes, has repaired passes [0 .. num_iterations - 2] in that order, and
    saves the validated field and the flags of its last pass unrepaired.  A
    GPU run that completes has repaired the passes of [repair_plan], and
    with two or more passes saves the validated field and the flags of its
    last pass unrepaired.  The passes of a CPU run, once they are through,
    have repaired the passes of [repair_plan] as well: all but the last of
    two or more, and the only pass exactly when [replace_vectors] is set. *)
Theorem repair_skips_last_of_many `{Collaborators} (raw_a raw_b : ndarray Q)
    (s : PIVSettings) :
  (forall i,
      In (CallReplaceOutliers i) (trace (Windef.multipass raw_a raw_b s)) ->
      i + 1 < num_iterations s \/
      (i = 0 /\ num_iterations s = 1 /\ replace_vectors s = true)) /\
  (forall i,
      In (CallReplaceOutliers i) (trace (WindefGpu.multipass raw_a raw_b s)) ->
      i + 1 < num_iterations s \/
      (i = 0 /\ num_iterations s = 1 /\ replace_vectors s = true)) /\
  (forall t sv,
      Windef.multipass raw_a raw_b s = (t, Ok sv) ->
      2 <= num_iterations s /\
      repaired_passes t = seq 0 (num_iterations s - 1) /\
      cpu_saves_last_validated raw_a raw_b s sv) /\
  (forall t sv,
      WindefGpu.multipass raw_a raw_b s = (t, Ok sv) ->
      repaired_passes t = repair_plan s /\
      (2 <= num_iterations s -> gpu_saves_last_validated raw_a raw_b s sv)) /\
  (forall t im st,
      Windef.run_passes raw_a raw_b s = (t, Ok (im, st)) ->
      repaired_passes t = repair_plan s) /\
  (num_iterations s = 1 ->
   repair_plan s = if replace_vectors s then [0] else []).
Proof.
  split; [|split; [|split; [|split; [|split]]]].
  - intros i Hin.
    pose proof (cpu_multipass_trace raw_a raw_b s) as Ht.
    rewrite Forall_forall in Ht. destruct (Ht _ Hin) as [Hev|Hev].
    + exact Hev.
    + discriminate Hev.
  - intros i Hin.
    pose proof (gpu_multipass_trace raw_a raw_b s) as Ht.
    rewrite Forall_forall in Ht. destruct (Ht _ Hin) as [Hev|Hev].
    + exact Hev.
    + discriminate Hev.
  - intros t sv Hm.
    pose proof (cpu_single_pass_raises _ _ _ _ _ Hm) as Hn.
    split; [exact Hn|]. split.
    + destruct (cpu_multipass_split _ _ _ _ _ Hm)
        as (t1 & im & st & Hrun & _ & ->).
      apply cpu_run_calls in Hrun. destruct Hrun as (_ & Hrep & _).
      rewrite repaired_passes_save, Hrep. apply repair_plan_many. exact Hn.
    + eapply cpu_multipass_last. exact Hm.
  - intros t sv Hm. split.
    + destruct (gpu_multipass_split _ _ _ _ _ Hm) as (t1 & st & Hrun & _ & ->).
      apply gpu_run_calls in Hrun. destruct Hrun as (_ & Hrep & _).
      rewrite repaired_passes_save. exact Hrep.
    + intros Hn. eapply gpu_multipass_last; eassumption.
  - intros t im st Hrun.
    apply cpu_run_calls in Hrun. destruct Hrun as (_ & Hrep & _).
    exact Hrep.
  - intros Hn. unfold repair_plan. rewrite Hn. cbn.
    destruct (replace_vectors s); reflexivity.
Qed.

(** C4 as it holds, on a two-pass run of either engine in the small
    world: pass 0 is repaired, pass 1 is not. *)
Lemma repair_skips_last_of_many_witness :
  (exists t sv,
      @Windef.multipass (Demo.world Demo.quiet) Demo.ramp Demo.ramp
        DemoRuns.two_passes = (t, Ok sv) /\
      repaired_passes t = [0] /\
      @cpu_saves_last_validated (Demo.world Demo.quiet) Demo.ramp Demo.ramp
        DemoRuns.two_passes sv) /\
  (exists t sv,
      @WindefGpu.multipass (Demo.world Demo.quiet) Demo.ramp Demo.ramp
        DemoRuns.two_passes = (t, Ok sv) /\
      repaired_passes t = [0] /\
      @gpu_saves_last_validated (Demo.world Demo.quiet) Demo.ramp Demo.ramp
        DemoRuns.two_passes sv).
Proof.
  destruct (@repair_skips_last_of_many (Demo.world Demo.quiet)
              Demo.ramp Demo.ramp DemoRuns.two_passes)
    as (_ & _ & Hcpu & Hgpu & _).
  split.
  - apply completed_run; [vm_compute; reflexivity|].
    intros t sv Hrun. destruct (Hcpu t sv Hrun) as (_ & Hrep & Hlast).
    split; [exact Hrep | exact Hlast].
  - apply completed_run; [vm_compute; reflexivity|].
    intros t sv Hrun. destruct (Hgpu t sv Hrun) as (Hrep & Hlast).
    split; [exact Hrep | apply Hlast; cbn; lia].
Defined.

(** C4, refuted as stated.  With [num_iterations = 1] and [replace_vectors]
    set, the only pass is the final pass and it is repaired.  The
    correlation engine reports 50 pixels at window 0: the CPU engine calls
    the repair for pass 0 and then stops at the report line; the GPU engine
    completes, and what it saves has the cell flagged and its value
    replaced by the local mean 1 (saved as -1), not the 50 (saved as -50)
    that was measured. *)
Lemma single_pass_is_repaired :
  num_iterations DemoRuns.single_with_repair = 1 /\
  @Windef.multipass (Demo.world DemoRuns.corner_spike) Demo.ramp Demo.ramp
    DemoRuns.single_with_repair
  = ([CallCorrelate 0; CallValidate 0; CallReplaceOutliers 0],
     Raise (UnboundLocalError "i")) /\
  exists sv,
    @WindefGpu.multipass (Demo.world DemoRuns.corner_spike) Demo.ramp Demo.ramp
      DemoRuns.single_with_repair
    = ([CallCorrelate 0; CallValidate 0; CallReplaceOutliers 0; CallSave],
       Ok sv) /\
    to_rows (sv_flags sv) = [[true; false]; [false; false]] /\
    to_rows (fdata (sv_u sv)) = [[(-1)%Q; (-1)%Q]; [(-1)%Q; (-1)%Q]].
Proof.
  split; [reflexivity|]. split; [vm_compute; reflexivity|].
  apply completed_with; [vm_compute; reflexivity|].
  vm_compute. split; reflexivity.
Qed.

(** C7, as it holds.  In any run of either engine, complete or not, the
    smoother is called only when [smoothn] is set, and for pass [i] only if
    [i = 0] or another pass follows ([i + 1 < num_iterations]).  A CPU run
    that completes has two or more passes, has smoothed [u] and [v] after
    each of the passes [0 .. num_iterations - 2] when [smoothn] is set, and
    saves the validated field of its last pass unsmoothed.  A GPU run that
    completes has smoothed after the passes of [smoothing_plan], and with
    two or more passes saves the validated field of its last pass
    unsmoothed. *)
Theorem smoothing_skips_last_of_many `{Collaborators}
    (raw_a raw_b : ndarray Q) (s : PIVSettings) :
  (forall i,
      In (CallSmoothn i) (trace (Windef.multipass raw_a raw_b s)) ->
      smoothn s = true /\ (i = 0 \/ i + 1 < num_iterations s)) /\
  (forall i,
      In (CallSmoothn i) (trace (WindefGpu.multipass raw_a raw_b s)) ->
      smoothn s = true /\ (i = 0 \/ i + 1 < num_iterations s)) /\
  (forall t sv,
      Windef.multipass raw_a raw_b s = (t, Ok sv) ->
      2 <= num_iterations s /\
      smoothed_passes t
      = (if smoothn s then twice (seq 0 (num_iterations s - 1)) else []) /\
      cpu_saves_last_validated raw_a raw_b s sv) /\
  (forall t sv,
      WindefGpu.multipass raw_a raw_b s = (t, Ok sv) ->
      smoothed_passes t = smoothing_plan s /\
      (2 <= num_iterations s ->
       smoothed_passes t
       = (if smoothn s then twice (seq 0 (num_iterations s - 1)) else []) /\
       gpu_saves_last_validated raw_a raw_b s sv)).
Proof.
  split; [|split; [|split]].
  - intros i Hin.
    pose proof (cpu_multipass_trace raw_a raw_b s) as Ht.
    rewrite Forall_forall in Ht. destruct (Ht _ Hin) as [Hev|Hev].
    + exact Hev.
    + discriminate Hev.
  - intros i Hin.
    pose proof (gpu_multipass_trace raw_a raw_b s) as Ht.
    rewrite Forall_forall in Ht. destruct (Ht _ Hin) as [Hev|Hev].
    + exact Hev.
    + discriminate Hev.
  - intros t sv Hm.
    pose proof (cpu_single_pass_raises _ _ _ _ _ Hm) as Hn.
    split; [exact Hn|]. split.
    + destruct (cpu_multipass_split _ _ _ _ _ Hm)
        as (t1 & im & st & Hrun & _ & ->).
      apply cpu_run_calls in Hrun. destruct Hrun as (_ & _ & Hsm & _).
      rewrite smoothed_passes_save, Hsm. apply smoothing_plan_many. exact Hn.
    + eapply cpu_multipass_last. exact Hm.
  - intros t sv Hm.
    assert (Hsm : smoothed_passes t = smoothing_plan s).
    { destruct (gpu_multipass_split _ _ _ _ _ Hm) as (t1 & st & Hrun & _ & ->).
      apply gpu_run_calls in Hrun. destruct Hrun as (_ & _ & Hsm & _).
      rewrite smoothed_passes_save. exact Hsm. }
    split; [exact Hsm|]. intros Hn. split.
    + rewrite Hsm. apply smoothing_plan_many. exact Hn.
    + eapply gpu_multipass_last; eassumption.
Qed.

(** C7 as it holds, on a three-pass run with smoothing of either engine in
    the small world: [u] and [v] are smoothed after passes 0 and 1, not
    after pass 2. *)
Lemma smoothing_skips_last_of_many_witness :
  (exists t sv,
      @Windef.multipass (Demo.world Demo.quiet) Demo.ramp Demo.ramp
        DemoRuns.three_smoothed = (t, Ok sv) /\
      smoothed_passes t = [0; 0; 1; 1] /\
      @cpu_saves_last_validated (Demo.world Demo.quiet) Demo.ramp Demo.ramp
        DemoRuns.three_smoothed sv) /\
  (exists t sv,
      @WindefGpu.multipass (Demo.world Demo.quiet) Demo.ramp Demo.ramp
        DemoRuns.three_smoothed = (t, Ok sv) /\
      smoothed_passes t = [0; 0; 1; 1] /\
      @gpu_saves_last_validated (Demo.world Demo.quiet) Demo.ramp Demo.ramp
        DemoRuns.three_smoothed sv).
Proof.
  destruct (@smoothing_skips_last_of_many (Demo.world Demo.quiet)
              Demo.ramp Demo.ramp DemoRuns.three_smoothed)
    as (_ & _ & Hcpu & Hgpu).
  split.
  - apply completed_run; [vm_compute; reflexivity|].
    intros t sv Hrun. destruct (Hcpu t sv Hrun) as (_ & Hsm & Hlast).
    split; [exact Hsm | exact Hlast].
  - apply completed_run; [vm_compute; reflexivity|].
    intros t sv Hrun. destruct (Hgpu t sv Hrun) as (_ & Hmany).
    destruct Hmany as (Hsm & Hlast); [cbn; lia|].
    split; [exact Hsm | exact Hlast].
Defined.

(** C7, refuted as stated.  With [num_iterations = 1] and smoothing
    enabled, the first pass is also the last and its output is smoothed.
    The correlation engine reports 1 pixel everywhere and the smoother
    halves it: the CPU engine calls the smoother for pass 0 and then stops
    at the report line; the GPU engine completes and saves the halved
    field (as -1/2). *)
Lemma single_pass_is_smoothed :
  num_iterations DemoRuns.single_with_smoothing = 1 /\
  @Windef.multipass (Demo.world Demo.quiet) Demo.ramp Demo.ramp
    DemoRuns.single_with_smoothing
  = ([CallCorrelate 0; CallSmoothn 0; CallSmoothn 0; CallValidate 0],
     Raise (UnboundLocalError "i")) /\
  exists sv,
    @WindefGpu.multipass (Demo.world Demo.quiet) Demo.ramp Demo.ramp
      DemoRuns.single_with_smoothing
    = ([CallCorrelate 0; CallSmoothn 0; CallSmoothn 0; CallValidate 0;
        CallSave], Ok sv) /\
    to_rows (fdata (sv_u sv))
    = [[(-1 # 2)%Q; (-1 # 2)%Q]; [(-1 # 2)%Q; (-1 # 2)%Q]].
Proof.
  split; [reflexivity|]. split; [vm_compute; reflexivity|].
  apply completed_with; [vm_compute; reflexivity|].
  vm_compute. reflexivity.
Qed.

Lemma completed_and {A} (m : M A) (P : A -> Prop)
    (Q : list event -> A -> Prop) :
  match outcome m with Ok a => P a | Raise _ => False end ->
  (forall t a, m = (t, Ok a) -> P a -> Q t a) ->
  exists t a, m = (t, Ok a) /\ P a /\ Q t a.
Proof.
  destruct m as [t [a|e]]; cbn; [|contradiction]. intros HP HQ.
  exists t, a. split; [reflexivity|]. split; [exact HP|].
  apply HQ; [reflexivity|exact HP].
Qed.

(** A pass that raises ends the loop, with nothing logged after it. *)
Lemma cpu_loop_stops `{Collaborators} (frame_a frame_b : ndarray Q)
    (before : list nat) (i : nat) (rest : list nat)
    (st0 st : Windef.pass_state) (t0 t : list event) (e : exn) :
  Windef.multipass_loop frame_a frame_b before st0 = (t0, Ok st) ->
  Windef.multipass_img_deform frame_a frame_b i (Windef.ps_x st)
    (Windef.ps_y st) (Windef.ps_u st) (Windef.ps_v st)
    (Windef.ps_settings st) = (t, Raise e) ->
  Windef.multipass_loop frame_a frame_b (before ++ i :: rest) st0
  = (t0 ++ t, Raise e).
Proof.
  revert st0 t0. induction before as [|a before IH]; intros st0 t0 Hl Hp.
  - cbn [Windef.multipass_loop] in Hl. apply ret_ok in Hl.
    destruct Hl as [-> ->].
    cbn [app Windef.multipass_loop]. unfold Windef.multipass_body.
    rewrite Hp. reflexivity.
  - cbn [Windef.multipass_loop] in Hl.
    apply bind_ok in Hl. destruct Hl as (ta & sta & tb & Hb & Hl & ->).
    cbn [app Windef.multipass_loop]. rewrite Hb. cbn [bind].
    rewrite (IH _ _ Hl Hp). rewrite app_assoc. reflexivity.
Qed.

Lemma gpu_loop_stops `{Collaborators} (frame_a frame_b : ndarray Q)
    (before : list nat) (i : nat) (rest : list nat)
    (st0 st : WindefGpu.pass_state) (t0 t : list event) (e : exn) :
  WindefGpu.multipass_loop frame_a frame_b before st0 = (t0, Ok st) ->
  WindefGpu.multipass_img_deform frame_a frame_b i (WindefGpu.ps_x st)
    (WindefGpu.ps_y st) (WindefGpu.ps_u st) (WindefGpu.ps_v st)
    (WindefGpu.ps_settings st) = (t, Raise e) ->
  WindefGpu.multipass_loop frame_a frame_b (before ++ i :: rest) st0
  = (t0 ++ t, Raise e).
Proof.
  revert st0 t0. induction before as [|a before IH]; intros st0 t0 Hl Hp.
  - cbn [WindefGpu.multipass_loop] in Hl. apply ret_ok in Hl.
    destruct Hl as [-> ->].
    cbn [app WindefGpu.multipass_loop]. unfold WindefGpu.multipass_body.
    rewrite Hp. reflexivity.
  - cbn [WindefGpu.multipass_loop] in Hl.
    apply bind_ok in Hl. destruct Hl as (ta & sta & tb & Hb & Hl & ->).
    cbn [app WindefGpu.multipass_loop]. rewrite Hb. cbn [bind].
    rewrite (IH _ _ Hl Hp). rewrite app_assoc. reflexivity.
Qed.

(** C5, as it holds.  Let the loop of either engine have run the passes
    [before] and reach pass [i], one of the passes after the first.  If the
    validation of pass [i] flags every grid cell, the loop over
    [before ++ i :: rest] ends with
    [ValueError "Something happened in the validation"], and the last calls
    it logged are the deformation, the correlation and the validation of
    pass [i]: no repair, and nothing of the passes in [rest].  The error is
    this one value whatever [i] is. *)
Theorem all_invalid_stops_the_run `{Collaborators} (frame_a frame_b : ndarray Q)
    (before : list nat) (i : nat) (rest : list nat) :
  (forall st0 t0 st t out,
      Windef.multipass_loop frame_a frame_b before st0 = (t0, Ok st) ->
      Windef.validated_pass frame_a frame_b i (Windef.ps_x st)
        (Windef.ps_y st) (Windef.ps_u st) (Windef.ps_v st)
        (Windef.ps_settings st) = (t, Ok out) ->
      np_all (flags_of out) = true ->
      Windef.multipass_loop frame_a frame_b (before ++ i :: rest) st0
      = (t0 ++ [CallDeform i; CallCorrelate i; CallValidate i],
         Raise (ValueError "Something happened in the validation"))) /\
  (forall st0 t0 st t out,
      WindefGpu.multipass_loop frame_a frame_b before st0 = (t0, Ok st) ->
      WindefGpu.validated_pass frame_a frame_b i (WindefGpu.ps_x st)
        (WindefGpu.ps_y st) (WindefGpu.ps_u st) (WindefGpu.ps_v st)
        (WindefGpu.ps_settings st) = (t, Ok out) ->
      np_all (flags_of out) = true ->
      WindefGpu.multipass_loop frame_a frame_b (before ++ i :: rest) st0
      = (t0 ++ [CallDeform i; CallCorrelate i; CallValidate i],
         Raise (ValueError "Something happened in the validation"))).
Proof.
  split.
  - intros st0 t0 st t [[[[[[x y] u] v] gm] fl] s'] Hl Hvp Hall.
    cbn in Hall.
    assert (Ht : t = [CallDeform i; CallCorrelate i; CallValidate i]).
    { destruct (cpu_validated_pass_ok _ _ _ _ _ _ _ _ _ _ _ _ _ _ _ _ Hvp)
        as (ws & ov & u_pre & v_pre & res_u & res_v & s2n & Hrest).
      apply Hrest. }
    rewrite <- Ht. eapply cpu_loop_stops; [exact Hl|].
    eapply cpu_pass_all_invalid; eassumption.
  - intros st0 t0 st t [[[[[[[[ya xa] x] y] u] v] gm] fl] s'] Hl Hvp Hall.
    cbn in Hall.
    assert (Ht : t = [CallDeform i; CallCorrelate i; CallValidate i]).
    { destruct (gpu_validated_pass_ok _ _ _ _ _ _ _ _ _ _ _ _ _ _ _ _ _ _ Hvp)
        as (ws & ov & u_pre & v_pre & res_u & res_v & s2n & pu & pv & Hrest).
      apply Hrest. }
    rewrite <- Ht. eapply gpu_loop_stops; [exact Hl|].
    eapply gpu_pass_all_invalid; eassumption.
Qed.

(** C5 as it holds, in the small world with a correlation engine that
    reports 50 pixels everywhere: pass 1 of three is flagged throughout and
    the loop over passes 1 and 2 stops after the validation of pass 1. *)
Lemma all_invalid_stops_the_run_witness :
  (exists t out,
      @Windef.validated_pass (Demo.world DemoRuns.storm) Demo.ramp Demo.ramp 1
        DemoRuns.coarse_x DemoRuns.coarse_y DemoRuns.at_rest DemoRuns.at_rest
        DemoRuns.three_passes = (t, Ok out) /\
      np_all (flags_of out) = true /\
      @Windef.multipass_loop (Demo.world DemoRuns.storm) Demo.ramp Demo.ramp
        [1; 2] DemoStates.cpu_before_pass_1
      = ([CallDeform 1; CallCorrelate 1; CallValidate 1],
         Raise (ValueError "Something happened in the validation"))) /\
  (exists t out,
      @WindefGpu.validated_pass (Demo.world DemoRuns.storm) Demo.ramp
        Demo.ramp 1
        DemoRuns.coarse_x DemoRuns.coarse_y DemoRuns.at_rest DemoRuns.at_rest
        DemoRuns.three_passes = (t, Ok out) /\
      np_all (flags_of out) = true /\
      @WindefGpu.multipass_loop (Demo.world DemoRuns.storm) Demo.ramp
        Demo.ramp [1; 2] DemoStates.gpu_before_pass_1
      = ([CallDeform 1; CallCorrelate 1; CallValidate 1],
         Raise (ValueError "Something happened in the validation"))).
Proof.
  destruct (@all_invalid_stops_the_run (Demo.world DemoRuns.storm)
              Demo.ramp Demo.ramp [] 1 [2]) as [Hcpu Hgpu].
  split.
  - apply (completed_and _ (fun out => np_all (flags_of out) = true)
             (fun _ _ => _ = _)); [vm_compute; reflexivity|].
    intros t out Hrun Hall.
    exact (Hcpu DemoStates.cpu_before_pass_1 [] DemoStates.cpu_before_pass_1
             t out eq_refl Hrun Hall).
  - apply (completed_and _ (fun out => np_all (flags_of out) = true)
             (fun _ _ => _ = _)); [vm_compute; reflexivity|].
    intros t out Hrun Hall.
    exact (Hgpu DemoStates.gpu_before_pass_1 [] DemoStates.gpu_before_pass_1
             t out eq_refl Hrun Hall).
Defined.

(** C5, refuted as stated, on two counts.  A first pass whose validation
    flags every cell does not stop the run: with a correlation engine that
    reports 50 pixels on the first pass and takes them back on the second,
    all four cells of the first pass are flagged and both engines go on to
    pass 1 and complete.  And the error of a later pass carries no pass
    index: with 50 pixels reported everywhere, pass 1 and pass 2 raise the
    same value. *)
Lemma all_invalid_first_pass_goes_on :
  (exists out,
      @Windef.first_pass (Demo.world DemoRuns.false_start) Demo.ramp Demo.ramp
        DemoRuns.two_passes = ([CallCorrelate 0], Ok out) /\
      let '(x, y, u, v, s2n) := out in
      to_rows (@typical_validation (Demo.world DemoRuns.false_start)
                 (Plain u) (Plain v) s2n DemoRuns.two_passes)
      = [[true; true]; [true; true]]) /\
  (trace (@Windef.multipass (Demo.world DemoRuns.false_start) Demo.ramp
            Demo.ramp DemoRuns.two_passes)
   = [CallCorrelate 0; CallValidate 0; CallReplaceOutliers 0;
      CallDeform 1; CallCorrelate 1; CallValidate 1; CallSave] /\
   completed (@Windef.multipass (Demo.world DemoRuns.false_start) Demo.ramp
                Demo.ramp DemoRuns.two_passes) = true) /\
  (trace (@WindefGpu.multipass (Demo.world DemoRuns.false_start) Demo.ramp
            Demo.ramp DemoRuns.two_passes)
   = [CallCorrelate 0; CallValidate 0; CallReplaceOutliers 0;
      CallDeform 1; CallCorrelate 1; CallValidate 1; CallSave] /\
   completed (@WindefGpu.multipass (Demo.world DemoRuns.false_start) Demo.ramp
                Demo.ramp DemoRuns.two_passes) = true) /\
  outcome (@Windef.multipass_img_deform (Demo.world DemoRuns.storm)
             Demo.ramp Demo.ramp 1 DemoRuns.coarse_x DemoRuns.coarse_y
             DemoRuns.at_rest DemoRuns.at_rest DemoRuns.three_passes)
  = Raise (ValueError "Something happened in the validation") /\
  outcome (@Windef.multipass_img_deform (Demo.world DemoRuns.storm)
             Demo.ramp Demo.ramp 2 DemoInputs.grid_x DemoInputs.grid_y
             (Plain DemoInputs.still) (Plain DemoInputs.still)
             DemoRuns.three_passes)
  = Raise (ValueError "Something happened in the validation").
Proof.
  split.
  { apply completed_with; [vm_compute; reflexivity|].
    vm_compute. reflexivity. }
  split; [split; vm_compute; reflexivity|].
  split; [split; vm_compute; reflexivity|].
  split; vm_compute; reflexivity.
Qed.

(** C9, as it holds.  Whatever [replace_outliers] returns, it cannot fail a
    pass: once the validation of pass [i] has returned with some cell left
    unflagged, [multipass_img_deform] returns.  On the CPU the flags it
    returns are the flags of the validation, on every pass.  On the GPU
    they are the flags of the validation on the last pass only; on an
    earlier pass, where the repair runs, no cell is flagged any more. *)
Theorem flags_after_repair `{Collaborators} (frame_a frame_b : ndarray Q)
    (i : nat) (x_old y_old : ndarray Q) (u_old v_old : field)
    (s : PIVSettings) :
  (forall t out,
      Windef.validated_pass frame_a frame_b i x_old y_old u_old v_old s
        = (t, Ok out) ->
      np_all (flags_of out) = false ->
      cpu_flags_kept frame_a frame_b i x_old y_old u_old v_old s out) /\
  (forall t out,
      WindefGpu.validated_pass frame_a frame_b i x_old y_old u_old v_old s
        = (t, Ok out) ->
      np_all (flags_of out) = false ->
      gpu_flags_reset frame_a frame_b i x_old y_old u_old v_old s out).
Proof.
  split.
  - intros t [[[[[[x y] u] v] gm] fl] s'] Hvp Hall. cbn in Hall.
    unfold cpu_flags_kept, Windef.multipass_img_deform.
    rewrite Hvp. cbn [bind]. rewrite Hall.
    destruct (negb (i + 1 =? num_iterations s')).
    + destruct (replace_outliers u v fl (filter_method s')
                  (max_filter_iteration s') (filter_kernel_size s'))
        as [u' v'] eqn:Hrep.
      cbn. eexists _, _. split; reflexivity.
    + cbn. eexists _, _. split; reflexivity.
  - intros t [[[[[[[[ya xa] x] y] u] v] gm] fl] s'] Hvp Hall. cbn in Hall.
    assert (Hn : num_iterations s' = num_iterations s).
    { rewrite (gpu_validated_pass_plan _ _ _ _ _ _ _ _ _ _ _ _ _ _ _ _ _ _ Hvp).
      destruct (sig2noise_validate s); reflexivity. }
    unfold gpu_flags_reset, WindefGpu.multipass_img_deform.
    rewrite Hvp. cbn [bind]. rewrite Hall. rewrite Hn.
    destruct (i + 1 =? num_iterations s) eqn:Hlast; cbn [negb].
    + apply Nat.eqb_eq in Hlast. cbn. eexists _, _.
      split; [reflexivity|]. split; [reflexivity|]. intros Hne. contradiction.
    + apply Nat.eqb_neq in Hlast.
      destruct (replace_outliers (Plain u) (Plain v) fl (filter_method s')
                  (max_filter_iteration s') (filter_kernel_size s'))
        as [u' v'] eqn:Hrep.
      cbn. eexists _, _.
      split; [reflexivity|]. split; [intros He; contradiction|].
      intros _ r c. reflexivity.
Qed.

(** C9 as it holds, on pass 1 of three in the small world, with a spurious
    50 pixels at the centre window and an outlier filter that is allowed no
    iteration. *)
Lemma flags_after_repair_witness :
  (exists t out,
      @Windef.validated_pass (Demo.world DemoRuns.spike) Demo.ramp Demo.ramp 1
        DemoRuns.coarse_x DemoRuns.coarse_y DemoRuns.at_rest DemoRuns.at_rest
        DemoRuns.no_repair_iterations = (t, Ok out) /\
      np_all (flags_of out) = false /\
      @cpu_flags_kept (Demo.world DemoRuns.spike) Demo.ramp Demo.ramp 1
        DemoRuns.coarse_x DemoRuns.coarse_y DemoRuns.at_rest DemoRuns.at_rest
        DemoRuns.no_repair_iterations out) /\
  (exists t out,
      @WindefGpu.validated_pass (Demo.world DemoRuns.spike) Demo.ramp
        Demo.ramp 1
        DemoRuns.coarse_x DemoRuns.coarse_y DemoRuns.at_rest DemoRuns.at_rest
        DemoRuns.no_repair_iterations = (t, Ok out) /\
      np_all (flags_of out) = false /\
      @gpu_flags_reset (Demo.world DemoRuns.spike) Demo.ramp Demo.ramp 1
        DemoRuns.coarse_x DemoRuns.coarse_y DemoRuns.at_rest DemoRuns.at_rest
        DemoRuns.no_repair_iterations out).
Proof.
  destruct (@flags_after_repair (Demo.world DemoRuns.spike)
              Demo.ramp Demo.ramp 1 DemoRuns.coarse_x DemoRuns.coarse_y
              DemoRuns.at_rest DemoRuns.at_rest DemoRuns.no_repair_iterations)
    as [Hcpu Hgpu].
  split.
  - apply (completed_and _ (fun out => np_all (flags_of out) = false)
             (fun _ out => cpu_flags_kept _ _ _ _ _ _ _ _ out));
      [vm_compute; reflexivity|].
    intros t out Hrun Hall. exact (Hcpu t out Hrun Hall).
  - apply (completed_and _ (fun out => np_all (flags_of out) = false)
             (fun _ out => gpu_flags_reset _ _ _ _ _ _ _ _ out));
      [vm_compute; reflexivity|].
    intros t out Hrun Hall. exact (Hgpu t out Hrun Hall).
Defined.

(** C9, refuted as stated.  Pass 1 of three on the GPU, with a spurious 50
    pixels at the centre window and an outlier filter that is allowed no
    iteration: the validation flags the centre cell, the repair leaves its
    50 pixels in place, and the pass returns that field with no cell
    flagged. *)
Lemma gpu_forgets_unrepaired_cell :
  max_filter_iteration DemoRuns.no_repair_iterations = 0 /\
  (exists validated,
      @WindefGpu.validated_pass (Demo.world DemoRuns.spike) Demo.ramp
        Demo.ramp 1
        DemoRuns.coarse_x DemoRuns.coarse_y DemoRuns.at_rest DemoRuns.at_rest
        DemoRuns.no_repair_iterations
      = ([CallDeform 1; CallCorrelate 1; CallValidate 1], Ok validated) /\
      to_rows (flags_of validated)
      = [[false; false; false]; [false; true; false]; [false; false; false]]) /\
  (exists out,
      @WindefGpu.multipass_img_deform (Demo.world DemoRuns.spike) Demo.ramp
        Demo.ramp 1
        DemoRuns.coarse_x DemoRuns.coarse_y DemoRuns.at_rest DemoRuns.at_rest
        DemoRuns.no_repair_iterations
      = ([CallDeform 1; CallCorrelate 1; CallValidate 1;
          CallReplaceOutliers 1], Ok out) /\
      let '(x, y, u, v, grid_mask, flags, s') := out in
      to_rows (fdata u)
      = [[1%Q; 1%Q; 1%Q]; [1%Q; 50%Q; 1%Q]; [1%Q; 1%Q; 1%Q]] /\
      to_rows flags
      = [[false; false; false]; [false; false; false];
         [false; false; false]]).
Proof.
  split; [reflexivity|]. split.
  - apply completed_with; [vm_compute; reflexivity|].
    vm_compute. reflexivity.
  - apply completed_with; [vm_compute; reflexivity|].
    vm_compute. split; reflexivity.
Qed.

Lemma neg_flipud_cell (w : field) (r c : nat) :
  passed_on_cell w (neg_flipud w) r c.
Proof.
  unfold passed_on_cell. cbv zeta. destruct w as [d|d dm]; cbn.
  - split; reflexivity.
  - split; reflexivity.
Qed.

(** C6, as it holds.  A completed CPU run hands over the grid and the flags
    of its state unchanged, and a field whose every cell is the internal
    cell of the mirrored row, zero where that cell was masked, negated,
    whatever its flag; the field is masked by the final grid mask, which is
    the image mask sampled on the grid.  A completed GPU run hands over the
    grid and the flags likewise, and the internal field with its rows
    mirrored and its values negated: no cell is filled, the grid mask has
    no cell set and is not applied to the field. *)
Theorem finalizing_exports `{Collaborators} (raw_a raw_b : ndarray Q)
    (s : PIVSettings) :
  (forall t sv,
      Windef.multipass raw_a raw_b s = (t, Ok sv) ->
      cpu_finalized raw_a raw_b s t sv) /\
  (forall t sv,
      WindefGpu.multipass raw_a raw_b s = (t, Ok sv) ->
      gpu_finalized raw_a raw_b s t sv).
Proof.
  split.
  - intros t sv Hm.
    destruct (cpu_multipass_split _ _ _ _ _ Hm)
      as (t1 & im & st & Hrun & Hfin & Ht).
    exists t1, im, st. split; [exact Hrun|]. split; [exact Ht|].
    apply cpu_finalize_ok in Hfin.
    destruct Hfin as (i & ud & um & vd & vm & _ & Hu & Hv & Hx & Hy & Hf
                      & Hg & Hsu & Hsv & _).
    unfold cpu_export.
    split; [exact Hx|]. split; [exact Hy|]. split; [exact Hf|].
    split; [exact Hg|].
    cbv zeta. intros r c. unfold exported_cell.
    rewrite Hsu, Hsv, Hu, Hv, Hg. cbv zeta.
    destruct im as [m|]; cbn; repeat split; reflexivity.
  - intros t sv Hm.
    destruct (gpu_multipass_split _ _ _ _ _ Hm) as (t1 & st & Hrun & Hsv & Ht).
    exists t1, st. split; [exact Hrun|]. split; [exact Ht|].
    subst sv. unfold gpu_export. cbn [sv_x sv_y sv_u sv_v sv_flags sv_grid_mask].
    repeat (split; [reflexivity|]).
    intros r c. split; apply neg_flipud_cell.
Qed.

(** C6 as it holds, on a two-pass run of either engine in the small world,
    behind a static mask that covers the whole frame. *)
Lemma finalizing_exports_witness :
  (exists t sv,
      @Windef.multipass (Demo.world Demo.quiet) Demo.ramp Demo.ramp
        DemoRuns.two_passes_masked = (t, Ok sv) /\
      @cpu_finalized (Demo.world Demo.quiet) Demo.ramp Demo.ramp
        DemoRuns.two_passes_masked t sv) /\
  (exists t sv,
      @WindefGpu.multipass (Demo.world Demo.quiet) Demo.ramp Demo.ramp
        DemoRuns.two_passes_masked = (t, Ok sv) /\
      @gpu_finalized (Demo.world Demo.quiet) Demo.ramp Demo.ramp
        DemoRuns.two_passes_masked t sv).
Proof.
  destruct (@finalizing_exports (Demo.world Demo.quiet) Demo.ramp Demo.ramp
              DemoRuns.two_passes_masked) as [Hcpu Hgpu].
  split.
  - apply completed_run; [vm_compute; reflexivity|]. exact Hcpu.
  - apply completed_run; [vm_compute; reflexivity|]. exact Hgpu.
Defined.

(** C6, refuted as stated.  Two passes of either engine in the small world,
    with a spurious 50 pixels at the centre window of the last pass: the
    validation of the last pass flags the centre cell invalid, and the run
    hands that cell over with its flag and its 51 pixels (saved as -51),
    unmasked and not filled with zero. *)
Lemma flagged_cell_is_exported :
  (exists sv,
      @Windef.multipass (Demo.world DemoRuns.spike) Demo.ramp Demo.ramp
        DemoRuns.two_passes
      = ([CallCorrelate 0; CallValidate 0; CallReplaceOutliers 0;
          CallDeform 1; CallCorrelate 1; CallValidate 1; CallSave], Ok sv) /\
      to_rows (sv_flags sv)
      = [[false; false; false]; [false; true; false]; [false; false; false]] /\
      to_rows (fdata (sv_u sv))
      = [[(-2)%Q; (-2)%Q; (-2)%Q]; [(-2)%Q; (-51)%Q; (-2)%Q];
         [(-2)%Q; (-2)%Q; (-2)%Q]] /\
      to_rows (fmask (sv_u sv))
      = [[false; false; false]; [false; false; false];
         [false; false; false]]) /\
  (exists sv,
      @WindefGpu.multipass (Demo.world DemoRuns.spike) Demo.ramp Demo.ramp
        DemoRuns.two_passes
      = ([CallCorrelate 0; CallValidate 0; CallReplaceOutliers 0;
          CallDeform 1; CallCorrelate 1; CallValidate 1; CallSave], Ok sv) /\
      to_rows (sv_flags sv)
      = [[false; false; false]; [false; true; false]; [false; false; false]] /\
      to_rows (fdata (sv_u sv))
      = [[(-2)%Q; (-2)%Q; (-2)%Q]; [(-2)%Q; (-51)%Q; (-2)%Q];
         [(-2)%Q; (-2)%Q; (-2)%Q]] /\
      to_rows (fmask (sv_u sv))
      = [[false; false; false]; [false; false; false];
         [false; false; false]]).
Proof.
  split.
  - apply completed_with; [vm_compute; reflexivity|].
    vm_compute. repeat split; reflexivity.
  - apply completed_with; [vm_compute; reflexivity|].
    vm_compute. repeat split; reflexivity.
Qed.

(** C8, as it holds.  A completed CPU run whose prepared images come with
    a mask hands over the grid of its last pass and, as grid mask, that mask
    sampled at each window centre of it; nothing the correlation returned
    enters.  A completed GPU run hands over a grid mask with no cell set. *)
Theorem grid_mask_samples_image_mask `{Collaborators}
    (raw_a raw_b : ndarray Q) (s : PIVSettings) :
  (forall t sv frame_a frame_b m,
      Windef.multipass raw_a raw_b s = (t, Ok sv) ->
      Windef.prepare_images raw_a raw_b s = Ok (frame_a, frame_b, Some m) ->
      cpu_grid_mask_sampled frame_a m s sv) /\
  (forall t sv,
      WindefGpu.multipass raw_a raw_b s = (t, Ok sv) ->
      forall r c, item (sv_grid_mask sv) r c = false).
Proof.
  split.
  - intros t sv frame_a frame_b m Hm Hprep.
    pose proof (cpu_single_pass_raises _ _ _ _ _ Hm) as Hn.
    destruct (cpu_multipass_split _ _ _ _ _ Hm)
      as (t1 & im & st & Hrun & Hfin & _).
    apply cpu_finalize_ok in Hfin.
    destruct Hfin as (i & ud & um & vd & vm & _ & _ & _ & Hx & Hy & _ & Hg & _).
    destruct (cpu_run_last _ _ _ _ _ _ Hrun Hn)
      as (fa & fb & st1 & x & y & u & v & gm & fl & s' & Hprep' & Hplan
          & Hvp & _ & Ex & Ey & _).
    rewrite Hprep in Hprep'. injection Hprep' as Efa Efb Eim.
    subst fa fb im.
    destruct (cpu_validated_pass_ok _ _ _ _ _ _ _ _ _ _ _ _ _ _ _ _ Hvp)
      as (ws & ov & u_pre & v_pre & res_u & res_v & s2n & Hpred & _).
    destruct (cpu_predict_ok _ _ _ _ _ _ _ _ _ _ _ _ _ Hpred)
      as (Hws & Hov & Hgrid & _).
    destruct (same_plan_windowsizes _ _ Hplan) as [Ew Eo].
    rewrite Ew in Hws. rewrite Eo in Hov.
    split.
    + exists ws, ov. split; [exact Hws|]. split; [exact Hov|].
      rewrite Hx, Hy, Ex, Ey. exact Hgrid.
    + intros r c. rewrite Hg, Hx, Hy. reflexivity.
  - intros t sv Hm r c.
    destruct (gpu_multipass_split _ _ _ _ _ Hm) as (t1 & st & _ & Hsv & _).
    subst sv. reflexivity.
Qed.

(** C8 as it holds, on a two-pass run of the CPU engine in the small
    world, behind a static mask that covers the whole frame. *)
Lemma grid_mask_samples_image_mask_witness :
  exists frame_a frame_b,
    @Windef.prepare_images (Demo.world Demo.quiet) Demo.ramp Demo.ramp
      DemoRuns.two_passes_masked
    = Ok (frame_a, frame_b, Some DemoRuns.all_masked) /\
    exists t sv,
      @Windef.multipass (Demo.world Demo.quiet) Demo.ramp Demo.ramp
        DemoRuns.two_passes_masked = (t, Ok sv) /\
      @cpu_grid_mask_sampled (Demo.world Demo.quiet) frame_a
        DemoRuns.all_masked DemoRuns.two_passes_masked sv.
Proof.
  destruct (@grid_mask_samples_image_mask (Demo.world Demo.quiet)
              Demo.ramp Demo.ramp DemoRuns.two_passes_masked) as [Hcpu _].
  assert (Hprep : exists frame_a frame_b,
             @Windef.prepare_images (Demo.world Demo.quiet) Demo.ramp
               Demo.ramp DemoRuns.two_passes_masked
             = Ok (frame_a, frame_b, Some DemoRuns.all_masked))
    by (eexists _, _; reflexivity).
  destruct Hprep as (frame_a & frame_b & Hprep).
  exists frame_a, frame_b. split; [exact Hprep|].
  apply completed_run; [vm_compute; reflexivity|].
  intros t sv Hrun.
  exact (Hcpu t sv frame_a frame_b DemoRuns.all_masked Hrun Hprep).
Defined.

(** C8, refuted as stated.  A two-pass run of the GPU engine in the small
    world, behind a static mask that covers the whole frame: every window
    centre of the grid handed over lies in the masked region, and no cell
    of the grid mask handed over is set. *)
Lemma gpu_grid_mask_is_empty :
  static_mask DemoRuns.two_passes_masked = Some DemoRuns.all_masked /\
  exists sv,
    @WindefGpu.multipass (Demo.world Demo.quiet) Demo.ramp Demo.ramp
      DemoRuns.two_passes_masked
    = ([CallCorrelate 0; CallValidate 0; CallReplaceOutliers 0;
        CallDeform 1; CallCorrelate 1; CallValidate 1; CallSave], Ok sv) /\
    to_rows (@mask_on_grid (Demo.world Demo.quiet) DemoRuns.all_masked
               (sv_y sv) (sv_x sv))
    = [[true; true; true]; [true; true; true]; [true; true; true]] /\
    to_rows (sv_grid_mask sv)
    = [[false; false; false]; [false; false; false]; [false; false; false]].
Proof.
  split; [reflexivity|].
  apply completed_with; [vm_compute; reflexivity|].
  vm_compute. split; reflexivity.
Qed.

(* ===================================================================== *)
(** * The order of the calls                                              *)
(* ===================================================================== *)

Lemma cpu_body_schedule `{Collaborators} (frame_a frame_b : ndarray Q)
    (i : nat) (s0 : PIVSettings) (st st' : Windef.pass_state)
    (t : list event) :
  same_plan s0 (Windef.ps_settings st) ->
  Windef.multipass_body frame_a frame_b i st = (t, Ok st') ->
  t = pass_calls s0 i.
Proof.
  intros Hplan Hbody.
  pose proof (cpu_body_plan _ _ _ _ _ _ _ Hplan Hbody) as Hplan'.
  apply cpu_body_ok in Hbody.
  destruct Hbody as (x & y & u & v & gm & fl & s' & t1 & Hpass & _ & _ & _
                     & _ & Es & _ & _ & Ht).
  rewrite Es in Hplan'.
  apply cpu_pass_ok in Hpass.
  destruct Hpass as (ua & va & _ & _ & _ & Ht1).
  rewrite (same_plan_iterations _ _ Hplan') in Ht, Ht1.
  rewrite (same_plan_smoothn _ _ Hplan') in Ht.
  subst t t1. unfold pass_calls.
  destruct (i + 1 =? num_iterations s0), (smoothn s0); reflexivity.
Qed.

Lemma cpu_loop_schedule `{Collaborators} (frame_a frame_b : ndarray Q)
    (s0 : PIVSettings) (l : list nat) (st st' : Windef.pass_state)
    (t : list event) :
  same_plan s0 (Windef.ps_settings st) ->
  Windef.multipass_loop frame_a frame_b l st = (t, Ok st') ->
  t = flat_map (pass_calls s0) l.
Proof.
  revert st t. induction l as [|i l IH]; intros st t Hplan Hl.
  - cbn [Windef.multipass_loop] in Hl. apply ret_ok in Hl.
    destruct Hl as [_ ->]. reflexivity.
  - cbn [Windef.multipass_loop] in Hl.
    apply bind_ok in Hl. destruct Hl as (t1 & st1 & t2 & Hb & Hl & ->).
    pose proof (cpu_body_plan _ _ _ _ _ _ _ Hplan Hb) as Hplan1.
    rewrite (cpu_body_schedule _ _ _ _ _ _ _ Hplan Hb).
    rewrite (IH _ _ Hplan1 Hl). reflexivity.
Qed.

Lemma gpu_body_schedule `{Collaborators} (frame_a frame_b : ndarray Q)
    (i : nat) (s0 : PIVSettings) (st st' : WindefGpu.pass_state)
    (t : list event) :
  same_plan s0 (WindefGpu.ps_settings st) ->
  WindefGpu.multipass_body frame_a frame_b i st = (t, Ok st') ->
  t = pass_calls s0 i.
Proof.
  intros Hplan Hbody.
  pose proof (gpu_body_plan _ _ _ _ _ _ _ Hplan Hbody) as Hplan'.
  apply gpu_body_ok in Hbody.
  destruct Hbody as (x & y & u & v & gm & fl & s' & t1 & Hpass & _ & _ & _
                     & Es & _ & Ht).
  rewrite Es in Hplan'.
  apply gpu_pass_ok in Hpass.
  destruct Hpass as (ya & xa & xp & yp & ua & va & vd & _ & _ & _ & _ & Ht1).
  rewrite (same_plan_iterations _ _ Hplan') in Ht, Ht1.
  rewrite (same_plan_smoothn _ _ Hplan') in Ht.
  subst t t1. unfold pass_calls.
  destruct (i + 1 =? num_iterations s0), (smoothn s0); reflexivity.
Qed.

Lemma gpu_loop_schedule `{Collaborators} (frame_a frame_b : ndarray Q)
    (s0 : PIVSettings) (l : list nat) (st st' : WindefGpu.pass_state)
    (t : list event) :
  same_plan s0 (WindefGpu.ps_settings st) ->
  WindefGpu.multipass_loop frame_a frame_b l st = (t, Ok st') ->
  t = flat_map (pass_calls s0) l.
Proof.
  revert st t. induction l as [|i l IH]; intros st t Hplan Hl.
  - cbn [WindefGpu.multipass_loop] in Hl. apply ret_ok in Hl.
    destruct Hl as [_ ->]. reflexivity.
  - cbn [WindefGpu.multipass_loop] in Hl.
    apply bind_ok in Hl. destruct Hl as (t1 & st1 & t2 & Hb & Hl & ->).
    pose proof (gpu_body_plan _ _ _ _ _ _ _ Hplan Hb) as Hplan1.
    rewrite (gpu_body_schedule _ _ _ _ _ _ _ Hplan Hb).
    rewrite (IH _ _ Hplan1 Hl). reflexivity.
Qed.

(** The two smoothing calls, for [u] and for [v]. *)

Lemma cpu_smooth_pair_calls `{Collaborators} (i : nat) (u v : field)
    (s : PIVSettings) (t : list event) (a : field * field) :
  Windef.smooth_pair i u v s = (t, Ok a) -> t = [CallSmoothn i; CallSmoothn i].
Proof.
  unfold Windef.smooth_pair. intros Hsm.
  open_call Hsm as u3 Hu3. open_call Hsm as v3 Hv3.
  apply ret_ok in Hsm. destruct Hsm as [_ Ht]. subst. reflexivity.
Qed.

Lemma gpu_smooth_pair_calls `{Collaborators} (i : nat) (u v : field)
    (s : PIVSettings) (t : list event) (a : field * field) :
  WindefGpu.smooth_pair i u v s = (t, Ok a) ->
  t = [CallSmoothn i; CallSmoothn i].
Proof.
  unfold WindefGpu.smooth_pair. intros Hsm.
  open_call Hsm as u3 Hu3. open_call Hsm as v3 Hv3.
  apply ret_ok in Hsm. destruct Hsm as [_ Ht]. subst. reflexivity.
Qed.

Lemma cpu_run_schedule `{Collaborators} (raw_a raw_b : ndarray Q)
    (s : PIVSettings) (t : list event) (im : option (ndarray bool))
    (st : Windef.pass_state) :
  Windef.run_passes raw_a raw_b s = (t, Ok (im, st)) ->
  t = first_pass_calls s
      ++ flat_map (pass_calls s) (seq 1 (num_iterations s - 1)).
Proof.
  unfold Windef.run_passes. intros Hr.
  open_lift Hr as [[frame_a frame_b] im'] Hprep.
  open_bind Hr as [[[[x y] u] v] s2n] Hfirst trace tf.
  apply cpu_first_pass_ok in Hfirst. destruct Hfirst as (Ht0 & _).
  open_bind Hr as [u1 v1] Hsm trace ts.
  assert (Hts : ts = (if smoothn s then [CallSmoothn 0; CallSmoothn 0] else [])).
  { destruct (smoothn s).
    - eapply cpu_smooth_pair_calls. exact Hsm.
    - apply ret_ok in Hsm. tauto. }
  clear Hsm.
  open_bind Hr as flags Hval trace tv.
  assert (Htv : tv = (if validation_first_pass s then [CallValidate 0] else [])).
  { destruct (validation_first_pass s).
    - apply call_ok in Hval. tauto.
    - apply ret_ok in Hval. tauto. }
  clear Hval.
  open_bind Hr as [u2 v2] Hrep trace tr.
  assert (Htr : tr = (if (num_iterations s =? 1) && replace_vectors s
                         || (1 <? num_iterations s)
                      then [CallReplaceOutliers 0] else [])).
  { destruct ((num_iterations s =? 1) && replace_vectors s
              || (1 <? num_iterations s)).
    - apply call_ok in Hrep. tauto.
    - apply ret_ok in Hrep. tauto. }
  clear Hrep.
  open_bind Hr as st' Hloop trace tl.
  apply cpu_loop_schedule with (s0 := s) in Hloop; [|apply same_plan_refl].
  apply ret_ok in Hr. destruct Hr as [_ Hnil].
  subst. unfold first_pass_calls. rewrite app_nil_r, <- !app_assoc.
  reflexivity.
Qed.

Lemma gpu_run_schedule `{Collaborators} (raw_a raw_b : ndarray Q)
    (s : PIVSettings) (t : list event) (st : WindefGpu.pass_state) :
  WindefGpu.run_passes raw_a raw_b s = (t, Ok st) ->
  t = first_pass_calls s
      ++ flat_map (pass_calls s) (seq 1 (num_iterations s - 1)).
Proof.
  unfold WindefGpu.run_passes. intros Hr.
  open_lift Hr as [frame_a frame_b] Hprep.
  open_bind Hr as [[[[x y] u] v] s2n] Hfirst trace tf.
  apply gpu_first_pass_ok in Hfirst.
  open_bind Hr as [u1 v1] Hsm trace ts.
  assert (Hts : ts = (if smoothn s then [CallSmoothn 0; CallSmoothn 0] else [])).
  { destruct (smoothn s).
    - eapply gpu_smooth_pair_calls. exact Hsm.
    - apply ret_ok in Hsm. tauto. }
  clear Hsm.
  open_bind Hr as flags Hval trace tv.
  assert (Htv : tv = (if validation_first_pass s then [CallValidate 0] else [])).
  { destruct (validation_first_pass s).
    - apply call_ok in Hval. tauto.
    - apply ret_ok in Hval. tauto. }
  clear Hval.
  open_bind Hr as [u2 v2] Hrep trace tr.
  assert (Htr : tr = (if (num_iterations s =? 1) && replace_vectors s
                         || (1 <? num_iterations s)
                      then [CallReplaceOutliers 0] else [])).
  { destruct ((num_iterations s =? 1) && replace_vectors s
              || (1 <? num_iterations s)).
    - apply call_ok in Hrep. tauto.
    - apply ret_ok in Hrep. tauto. }
  clear Hrep.
  apply gpu_loop_schedule with (s0 := s) in Hr; [|apply same_plan_refl].
  subst. unfold first_pass_calls. rewrite <- !app_assoc.
  reflexivity.
Qed.

(** X1.  A completed run of either engine has made exactly the calls of
    [schedule], in that order: on the first pass the correlation, then the
    smoothing, the validation and the repair that the settings ask for; on
    each later pass the deformation, the correlation and the validation,
    followed on every pass but the last by the repair and then the
    smoothing; and one save, at the very end. *)
Theorem completed_run_follows_schedule `{Collaborators}
    (raw_a raw_b : ndarray Q) (s : PIVSettings) :
  (forall t sv, Windef.multipass raw_a raw_b s = (t, Ok sv) -> t = schedule s) /\
  (forall t sv, WindefGpu.multipass raw_a raw_b s = (t, Ok sv) -> t = schedule s).
Proof.
  split; intros t sv Hm.
  - destruct (cpu_multipass_split _ _ _ _ _ Hm) as (t1 & im & st & Hrun & _ & ->).
    rewrite (cpu_run_schedule _ _ _ _ _ _ Hrun).
    unfold schedule. rewrite <- app_assoc. reflexivity.
  - destruct (gpu_multipass_split _ _ _ _ _ Hm) as (t1 & st & Hrun & _ & ->).
    rewrite (gpu_run_schedule _ _ _ _ _ Hrun).
    unfold schedule. rewrite <- app_assoc. reflexivity.
Qed.

(** The schedule on a three-pass run with smoothing of either engine in
    the small world. *)
Lemma completed_run_follows_schedule_witness :
  (exists t sv,
      @Windef.multipass (Demo.world Demo.quiet) Demo.ramp Demo.ramp
        DemoRuns.three_smoothed = (t, Ok sv) /\
      t = [CallCorrelate 0; CallSmoothn 0; CallSmoothn 0; CallValidate 0;
           CallReplaceOutliers 0;
           CallDeform 1; CallCorrelate 1; CallValidate 1;
           CallReplaceOutliers 1; CallSmoothn 1; CallSmoothn 1;
           CallDeform 2; CallCorrelate 2; CallValidate 2; CallSave]) /\
  (exists t sv,
      @WindefGpu.multipass (Demo.world Demo.quiet) Demo.ramp Demo.ramp
        DemoRuns.three_smoothed = (t, Ok sv) /\
      t = [CallCorrelate 0; CallSmoothn 0; CallSmoothn 0; CallValidate 0;
           CallReplaceOutliers 0;
           CallDeform 1; CallCorrelate 1; CallValidate 1;
           CallReplaceOutliers 1; CallSmoothn 1; CallSmoothn 1;
           CallDeform 2; CallCorrelate 2; CallValidate 2; CallSave]).
Proof.
  destruct (@completed_run_follows_schedule (Demo.world Demo.quiet)
              Demo.ramp Demo.ramp DemoRuns.three_smoothed) as [Hcpu Hgpu].
  split.
  - apply completed_run; [vm_compute; reflexivity|]. exact Hcpu.
  - apply completed_run; [vm_compute; reflexivity|]. exact Hgpu.
Defined.

(** [finalize] logs nothing unless it reaches the save. *)
Lemma cpu_finalize_raise `{Collaborators} (im : option (ndarray bool))
    (st : Windef.pass_state) (t : list event) (e : exn) :
  Windef.finalize im st = (t, Raise e) -> t = [].
Proof.
  unfold Windef.finalize. intros Hf.
  destruct (Windef.ps_i st) as [i|]; cbn in Hf;
    [|injection Hf as <- _; reflexivity].
  destruct (filled_method (Windef.ps_u st) 0%Q) as [u|eu]; cbn in Hf;
    [|injection Hf as <- _; reflexivity].
  destruct (filled_method (Windef.ps_v st) 0%Q) as [v|ev]; cbn in Hf;
    [|injection Hf as <- _; reflexivity].
  destruct im as [m|]; cbn in Hf; [|discriminate].
  destruct (masked_array u _) as [mu|emu]; cbn in Hf;
    [|injection Hf as <- _; reflexivity].
  destruct (masked_array v _) as [mv|emv]; cbn in Hf;
    [discriminate|injection Hf as <- _; reflexivity].
Qed.

(** X2.  A run of either engine that raises has saved nothing: the call to
    [tools.save] is not among the calls it made. *)
Theorem failed_run_saves_nothing `{Collaborators} (raw_a raw_b : ndarray Q)
    (s : PIVSettings) :
  (forall t e,
      Windef.multipass raw_a raw_b s = (t, Raise e) -> ~ In CallSave t) /\
  (forall t e,
      WindefGpu.multipass raw_a raw_b s = (t, Raise e) -> ~ In CallSave t).
Proof.
  split; intros t e Hm Hin.
  - pose proof (cpu_run_trace raw_a raw_b s) as Hrun.
    rewrite Forall_forall in Hrun.
    unfold Windef.multipass in Hm. apply bind_raise in Hm.
    destruct Hm as [Hm | (t1 & [im st] & t2 & Hr & Hf & ->)].
    + apply (Hrun CallSave). rewrite Hm. exact Hin.
    + apply cpu_finalize_raise in Hf. subst t2. rewrite app_nil_r in Hin.
      apply (Hrun CallSave). rewrite Hr. exact Hin.
  - pose proof (gpu_run_trace raw_a raw_b s) as Hrun.
    rewrite Forall_forall in Hrun.
    unfold WindefGpu.multipass in Hm. apply bind_raise in Hm.
    destruct Hm as [Hm | (t1 & st & t2 & Hr & Hf & ->)].
    + apply (Hrun CallSave). rewrite Hm. exact Hin.
    + discriminate Hf.
Qed.

(** A run stopped by a pass that is flagged throughout, in the small
    world: nothing was saved. *)
Lemma failed_run_saves_nothing_witness :
  (exists t e,
      @Windef.multipass (Demo.world DemoRuns.storm) Demo.ramp Demo.ramp
        DemoRuns.three_passes = (t, Raise e) /\ ~ In CallSave t) /\
  (exists t e,
      @WindefGpu.multipass (Demo.world DemoRuns.storm) Demo.ramp Demo.ramp
        DemoRuns.three_passes = (t, Raise e) /\ ~ In CallSave t).
Proof.
  destruct (@failed_run_saves_nothing (Demo.world DemoRuns.storm)
              Demo.ramp Demo.ramp DemoRuns.three_passes) as [Hcpu Hgpu].
  split.
  - assert (Hrun : @Windef.multipass (Demo.world DemoRuns.storm) Demo.ramp
                     Demo.ramp DemoRuns.three_passes
                   = ([CallCorrelate 0; CallValidate 0; CallReplaceOutliers 0;
                       CallDeform 1; CallCorrelate 1; CallValidate 1],
                      Raise (ValueError "Something happened in the validation")))
      by (vm_compute; reflexivity).
    eexists _, _. split; [exact Hrun|]. exact (Hcpu _ _ Hrun).
  - assert (Hrun : @WindefGpu.multipass (Demo.world DemoRuns.storm) Demo.ramp
                     Demo.ramp DemoRuns.three_passes
                   = ([CallCorrelate 0; CallValidate 0; CallReplaceOutliers 0;
                       CallDeform 1; CallCorrelate 1; CallValidate 1],
                      Raise (ValueError "Something happened in the validation")))
      by (vm_compute; reflexivity).
    eexists _, _. split; [exact Hrun|]. exact (Hgpu _ _ Hrun).
Defined.

(** X3.  The CPU engine cannot complete a run of fewer than two passes.
    With [num_iterations <= 1] the loop over the later passes is empty, so
    when the first pass has gone through (with its smoothing, validation
    and repair) the report line reads the loop variable [i] that was never
    bound: the run ends in [UnboundLocalError] and nothing is saved. *)
Theorem cpu_run_needs_two_passes `{Collaborators} (raw_a raw_b : ndarray Q)
    (s : PIVSettings) (short : num_iterations s <= 1) :
  forall t a,
    Windef.run_passes raw_a raw_b s = (t, Ok a) ->
    t = first_pass_calls s /\
    Windef.multipass raw_a raw_b s = (t, Raise (UnboundLocalError "i")).
Proof.
  intros t [im st] Hrun.
  pose proof (cpu_run_schedule _ _ _ _ _ _ Hrun) as Ht.
  replace (num_iterations s - 1) with 0 in Ht by lia.
  cbn [seq flat_map] in Ht. rewrite app_nil_r in Ht.
  split; [exact Ht|].
  assert (Hi : Windef.ps_i st = None).
  { unfold Windef.run_passes in Hrun.
    open_lift Hrun as [[frame_a frame_b] im'] Hprep.
    open_bind Hrun as [[[[x0 y0] u0] v0] s2n] Hfirst trace tf.
    open_bind Hrun as [u1 v1] Hsm trace ts.
    open_bind Hrun as flags Hval trace tv.
    open_bind Hrun as [u2 v2] Hrep trace tr.
    open_bind Hrun as st' Hloop trace tl.
    apply ret_ok in Hrun. destruct Hrun as [Heq _]. injection Heq as E1 E2.
    subst im' st'.
    replace (num_iterations s - 1) with 0 in Hloop by lia.
    cbn [seq Windef.multipass_loop] in Hloop.
    apply ret_ok in Hloop. destruct Hloop as [-> _]. reflexivity. }
  unfold Windef.multipass. rewrite Hrun. cbn [bind].
  unfold Windef.finalize. rewrite Hi. cbn. rewrite app_nil_r. reflexivity.
Qed.

(** A single-pass run of the CPU engine in the small world. *)
Lemma cpu_run_needs_two_passes_witness :
  num_iterations DemoRuns.single_with_repair <= 1 /\
  exists t a,
    @Windef.run_passes (Demo.world Demo.quiet) Demo.ramp Demo.ramp
      DemoRuns.single_with_repair = (t, Ok a) /\
    t = [CallCorrelate 0; CallValidate 0; CallReplaceOutliers 0] /\
    @Windef.multipass (Demo.world Demo.quiet) Demo.ramp Demo.ramp
      DemoRuns.single_with_repair = (t, Raise (UnboundLocalError "i")).
Proof.
  split; [cbn; lia|].
  apply completed_run; [vm_compute; reflexivity|].
  intros t a Hrun.
  exact (@cpu_run_needs_two_passes (Demo.world Demo.quiet) Demo.ramp Demo.ramp
           DemoRuns.single_with_repair (le_n 1) t a Hrun).
Defined.

(* ===================================================================== *)
(** * The settings object across the passes                               *)
(* ===================================================================== *)

Lemma settled_idem (s : PIVSettings) : settled (settled s) = settled s.
Proof. unfold settled. destruct (sig2noise_validate s) eqn:E; cbn; rewrite E; reflexivity. Qed.

Lemma cpu_body_settles `{Collaborators} (frame_a frame_b : ndarray Q)
    (i : nat) (s0 : PIVSettings) (st st' : Windef.pass_state)
    (t : list event) :
  Windef.ps_settings st = s0 \/ Windef.ps_settings st = settled s0 ->
  Windef.multipass_body frame_a frame_b i st = (t, Ok st') ->
  Windef.ps_settings st' = settled s0.
Proof.
  intros Hs Hbody. apply cpu_body_ok in Hbody.
  destruct Hbody as (x & y & u & v & gm & fl & s' & t1 & Hpass & _ & _ & _
                     & _ & Es & _).
  apply cpu_pass_ok in Hpass. destruct Hpass as (ua & va & Hvp & _).
  apply cpu_validated_pass_plan in Hvp. rewrite Es, Hvp.
  fold (settled (Windef.ps_settings st)).
  destruct Hs as [-> | ->]; [reflexivity|apply settled_idem].
Qed.

Lemma cpu_loop_settles `{Collaborators} (frame_a frame_b : ndarray Q)
    (s0 : PIVSettings) (l : list nat) (st st' : Windef.pass_state)
    (t : list event) :
  Windef.ps_settings st = s0 \/ Windef.ps_settings st = settled s0 ->
  Windef.multipass_loop frame_a frame_b l st = (t, Ok st') ->
  Windef.ps_settings st'
  = match l with [] => Windef.ps_settings st | _ => settled s0 end.
Proof.
  revert st t. induction l as [|i l IH]; intros st t Hs Hl.
  - cbn [Windef.multipass_loop] in Hl. apply ret_ok in Hl.
    destruct Hl as [-> _]. reflexivity.
  - cbn [Windef.multipass_loop] in Hl.
    apply bind_ok in Hl. destruct Hl as (t1 & st1 & t2 & Hb & Hl & _).
    pose proof (cpu_body_settles _ _ _ _ _ _ _ Hs Hb) as H1.
    rewrite (IH _ _ (or_intror H1) Hl). destruct l; [exact H1|reflexivity].
Qed.

Lemma gpu_body_settles `{Collaborators} (frame_a frame_b : ndarray Q)
    (i : nat) (s0 : PIVSettings) (st st' : WindefGpu.pass_state)
    (t : list event) :
  WindefGpu.ps_settings st = s0 \/ WindefGpu.ps_settings st = settled s0 ->
  WindefGpu.multipass_body frame_a frame_b i st = (t, Ok st') ->
  WindefGpu.ps_settings st' = settled s0.
Proof.
  intros Hs Hbody. apply gpu_body_ok in Hbody.
  destruct Hbody as (x & y & u & v & gm & fl & s' & t1 & Hpass & _ & _ & _
                     & Es & _).
  apply gpu_pass_ok in Hpass.
  destruct Hpass as (ya & xa & xp & yp & ua & va & vd & Hvp & _).
  apply gpu_validated_pass_plan in Hvp. rewrite Es, Hvp.
  fold (settled (WindefGpu.ps_settings st)).
  destruct Hs as [-> | ->]; [reflexivity|apply settled_idem].
Qed.

Lemma gpu_loop_settles `{Collaborators} (frame_a frame_b : ndarray Q)
    (s0 : PIVSettings) (l : list nat) (st st' : WindefGpu.pass_state)
    (t : list event) :
  WindefGpu.ps_settings st = s0 \/ WindefGpu.ps_settings st = settled s0 ->
  WindefGpu.multipass_loop frame_a frame_b l st = (t, Ok st') ->
  WindefGpu.ps_settings st'
  = match l with [] => WindefGpu.ps_settings st | _ => settled s0 end.
Proof.
  revert st t. induction l as [|i l IH]; intros st t Hs Hl.
  - cbn [WindefGpu.multipass_loop] in Hl. apply ret_ok in Hl.
    destruct Hl as [-> _]. reflexivity.
  - cbn [WindefGpu.multipass_loop] in Hl.
    apply bind_ok in Hl. destruct Hl as (t1 & st1 & t2 & Hb & Hl & _).
    pose proof (gpu_body_settles _ _ _ _ _ _ _ Hs Hb) as H1.
    rewrite (IH _ _ (or_intror H1) Hl). destruct l; [exact H1|reflexivity].
Qed.

(** X4.  The passes of a run overwrite the caller's settings.  When the
    passes of either engine have gone through, the settings object is the
    one the caller gave, except that [sig2noise_method] is [None] if the
    run had two or more passes and [sig2noise_validate] is off; no other
    field has changed, and a run of a single pass changes nothing. *)
Theorem run_clears_sig2noise_method `{Collaborators}
    (raw_a raw_b : ndarray Q) (s : PIVSettings) :
  (forall t im st,
      Windef.run_passes raw_a raw_b s = (t, Ok (im, st)) ->
      Windef.ps_settings st
      = if (2 <=? num_iterations s) && negb (sig2noise_validate s)
        then clear_sig2noise_method s else s) /\
  (forall t st,
      WindefGpu.run_passes raw_a raw_b s = (t, Ok st) ->
      WindefGpu.ps_settings st
      = if (2 <=? num_iterations s) && negb (sig2noise_validate s)
        then clear_sig2noise_method s else s).
Proof.
  assert (Hseq : forall n, match seq 1 (n - 1) with [] => true | _ => false end
                           = negb (2 <=? n)).
  { intros [|[|n]]; reflexivity. }
  split.
  - intros t im st Hr. unfold Windef.run_passes in Hr.
    open_lift Hr as [[frame_a frame_b] im'] Hprep.
    open_bind Hr as [[[[x y] u] v] s2n] Hfirst trace tf.
    open_bind Hr as [u1 v1] Hsm trace ts.
    open_bind Hr as flags Hval trace tv.
    open_bind Hr as [u2 v2] Hrep trace tr.
    open_bind Hr as st' Hloop trace tl.
    apply ret_ok in Hr. destruct Hr as [Heq _]. injection Heq as E1 E2.
    subst im' st'.
    apply cpu_loop_settles with (s0 := s) in Hloop; [|left; reflexivity].
    rewrite Hloop. specialize (Hseq (num_iterations s)).
    destruct (seq 1 (num_iterations s - 1));
      destruct (2 <=? num_iterations s); try discriminate;
      cbn [Windef.ps_settings andb]; [reflexivity|].
    unfold settled. destruct (sig2noise_validate s); reflexivity.
  - intros t st Hr. unfold WindefGpu.run_passes in Hr.
    open_lift Hr as [frame_a frame_b] Hprep.
    open_bind Hr as [[[[x y] u] v] s2n] Hfirst trace tf.
    open_bind Hr as [u1 v1] Hsm trace ts.
    open_bind Hr as flags Hval trace tv.
    open_bind Hr as [u2 v2] Hrep trace tr.
    apply gpu_loop_settles with (s0 := s) in Hr; [|left; reflexivity].
    rewrite Hr. specialize (Hseq (num_iterations s)).
    destruct (seq 1 (num_iterations s - 1));
      destruct (2 <=? num_iterations s); try discriminate;
      cbn [WindefGpu.ps_settings andb]; [reflexivity|].
    unfold settled. destruct (sig2noise_validate s); reflexivity.
Qed.

(** The settings after a two-pass run of either engine in the small world,
    where [sig2noise_validate] is off. *)
Lemma run_clears_sig2noise_method_witness :
  sig2noise_method DemoRuns.two_passes = Some peak2peak /\
  (exists t a,
      @Windef.run_passes (Demo.world Demo.quiet) Demo.ramp Demo.ramp
        DemoRuns.two_passes = (t, Ok a) /\
      sig2noise_method (Windef.ps_settings (snd a)) = None) /\
  (exists t st,
      @WindefGpu.run_passes (Demo.world Demo.quiet) Demo.ramp Demo.ramp
        DemoRuns.two_passes = (t, Ok st) /\
      sig2noise_method (WindefGpu.ps_settings st) = None).
Proof.
  destruct (@run_clears_sig2noise_method (Demo.world Demo.quiet)
              Demo.ramp Demo.ramp DemoRuns.two_passes) as [Hcpu Hgpu].
  split; [reflexivity|]. split.
  - apply completed_run; [vm_compute; reflexivity|].
    intros t [im st] Hrun. cbn [snd]. rewrite (Hcpu t im st Hrun). reflexivity.
  - apply completed_run; [vm_compute; reflexivity|].
    intros t st Hrun. rewrite (Hgpu t st Hrun). reflexivity.
Defined.

(* ===================================================================== *)
(** * Window sizes that are not configured                                *)
(* ===================================================================== *)

Lemma py_index_ok {A} (l : list A) (i : nat) (a : A) :
  py_index l i = Ok a -> i < length l.
Proof.
  unfold py_index. destruct (nth_error l i) eqn:E; [|discriminate].
  intros _. apply nth_error_Some. congruence.
Qed.

Lemma py_index_beyond {A} (l : list A) (i : nat) :
  length l <= i -> py_index l i = Raise IndexError.
Proof.
  intros Hi. unfold py_index.
  apply nth_error_None in Hi. rewrite Hi. reflexivity.
Qed.

(** X5.  A pass whose index has no configured window size, or no
    configured overlap, raises [IndexError] before anything is deformed or
    correlated: the first pass when either list is empty, a later pass [i]
    when either list has no entry [i]. *)
Theorem unconfigured_pass_raises_IndexError `{Collaborators}
    (frame_a frame_b : ndarray Q) (i : nat) (x_old y_old : ndarray Q)
    (u_old v_old : field) (s : PIVSettings)
    (missing : length (windowsizes s) <= i \/ length (overlap s) <= i) :
  (i = 0 ->
   Windef.first_pass frame_a frame_b s = ([], Raise IndexError) /\
   WindefGpu.first_pass frame_a frame_b s = ([], Raise IndexError)) /\
  Windef.multipass_img_deform frame_a frame_b i x_old y_old u_old v_old s
  = ([], Raise IndexError) /\
  WindefGpu.multipass_img_deform frame_a frame_b i x_old y_old u_old v_old s
  = ([], Raise IndexError).
Proof.
  assert (Hidx : py_index (windowsizes s) i = Raise IndexError \/
                 exists ws, py_index (windowsizes s) i = Ok ws /\
                            py_index (overlap s) i = Raise IndexError).
  { destruct (py_index (windowsizes s) i) as [ws|e] eqn:Hws.
    - right. exists ws. split; [reflexivity|].
      destruct missing as [Hm|Hm].
      + apply py_index_ok in Hws. lia.
      + apply py_index_beyond. exact Hm.
    - left. unfold py_index in Hws.
      destruct (nth_error (windowsizes s) i); [discriminate|].
      injection Hws as <-. reflexivity. }
  split; [|split].
  - intros ->. unfold Windef.first_pass, WindefGpu.first_pass.
    destruct Hidx as [Hws | (ws & Hws & Hov)].
    + rewrite Hws. split; reflexivity.
    + rewrite Hws, Hov. split; reflexivity.
  - unfold Windef.multipass_img_deform, Windef.validated_pass, Windef.predict.
    destruct Hidx as [Hws | (ws & Hws & Hov)].
    + rewrite Hws. reflexivity.
    + rewrite Hws, Hov. reflexivity.
  - unfold WindefGpu.multipass_img_deform, WindefGpu.validated_pass,
      WindefGpu.predict.
    destruct Hidx as [Hws | (ws & Hws & Hov)].
    + rewrite Hws. reflexivity.
    + rewrite Hws, Hov. reflexivity.
Qed.

(** Pass 3 of a run configured with three window sizes, in the small
    world. *)
Lemma unconfigured_pass_raises_IndexError_witness :
  (length (windowsizes DemoRuns.three_passes) <= 3 \/
   length (overlap DemoRuns.three_passes) <= 3) /\
  @Windef.multipass_img_deform (Demo.world Demo.quiet) Demo.ramp Demo.ramp 3
    DemoInputs.grid_x DemoInputs.grid_y (Plain DemoInputs.still)
    (Plain DemoInputs.still) DemoRuns.three_passes
  = ([], Raise IndexError) /\
  @WindefGpu.multipass_img_deform (Demo.world Demo.quiet) Demo.ramp Demo.ramp 3
    DemoInputs.grid_x DemoInputs.grid_y (Plain DemoInputs.still)
    (Plain DemoInputs.still) DemoRuns.three_passes
  = ([], Raise IndexError).
Proof.
  assert (Hmissing : length (windowsizes DemoRuns.three_passes) <= 3 \/
                     length (overlap DemoRuns.three_passes) <= 3)
    by (left; cbn; lia).
  split; [exact Hmissing|].
  exact (proj2 (@unconfigured_pass_raises_IndexError (Demo.world Demo.quiet)
                  Demo.ramp Demo.ramp 3 DemoInputs.grid_x DemoInputs.grid_y
                  (Plain DemoInputs.still) (Plain DemoInputs.still)
                  DemoRuns.three_passes Hmissing)).
Defined.

(** X6.  A run that completes had a window size and an overlap configured
    for each of its passes: [num_iterations] is at most the length of
    [windowsizes] and of [overlap], and neither list is empty. *)
Theorem completed_run_had_its_windows `{Collaborators}
    (raw_a raw_b : ndarray Q) (s : PIVSettings) :
  (forall t sv,
      Windef.multipass raw_a raw_b s = (t, Ok sv) ->
      Nat.max 1 (num_iterations s) <= length (windowsizes s) /\
      Nat.max 1 (num_iterations s) <= length (overlap s)) /\
  (forall t sv,
      WindefGpu.multipass raw_a raw_b s = (t, Ok sv) ->
      Nat.max 1 (num_iterations s) <= length (windowsizes s) /\
      Nat.max 1 (num_iterations s) <= length (overlap s)).
Proof.
  split.
  - intros t sv Hm.
    pose proof (cpu_single_pass_raises _ _ _ _ _ Hm) as Hn.
    destruct (cpu_multipass_split _ _ _ _ _ Hm) as (t1 & im & st & Hrun & _).
    destruct (cpu_run_last _ _ _ _ _ _ Hrun Hn)
      as (fa & fb & st1 & x & y & u & v & gm & fl & s' & _ & Hplan & Hvp & _).
    destruct (cpu_validated_pass_ok _ _ _ _ _ _ _ _ _ _ _ _ _ _ _ _ Hvp)
      as (ws & ov & u_pre & v_pre & res_u & res_v & s2n & Hpred & _).
    destruct (cpu_predict_ok _ _ _ _ _ _ _ _ _ _ _ _ _ Hpred)
      as (Hws & Hov & _).
    destruct (same_plan_windowsizes _ _ Hplan) as [Ew Eo].
    rewrite Ew in Hws. rewrite Eo in Hov.
    apply py_index_ok in Hws. apply py_index_ok in Hov. lia.
  - intros t sv Hm.
    destruct (gpu_multipass_split _ _ _ _ _ Hm) as (t1 & st & Hrun & _).
    assert (H0 : 1 <= length (windowsizes s) /\ 1 <= length (overlap s)).
    { unfold WindefGpu.run_passes in Hrun.
      open_lift Hrun as [frame_a frame_b] Hprep.
      open_bind Hrun as [[[[x y] u] v] s2n] Hfirst trace tf.
      unfold WindefGpu.first_pass in Hfirst.
      open_lift Hfirst as ws0 Hws. open_lift Hfirst as ov0 Hov.
      apply py_index_ok in Hws. apply py_index_ok in Hov. lia. }
    destruct (Nat.le_gt_cases 2 (num_iterations s)) as [Hn|Hn]; [|lia].
    destruct (gpu_run_last _ _ _ _ _ Hrun Hn)
      as (fa & fb & st1 & ya & xa & xp & yp & u & v & gm & fl & s' & _ & Hplan
          & Hvp & _).
    destruct (gpu_validated_pass_ok _ _ _ _ _ _ _ _ _ _ _ _ _ _ _ _ _ _ Hvp)
      as (ws & ov & u_pre & v_pre & res_u & res_v & s2n & pu & pv & Hpred & _).
    destruct (gpu_predict_ok _ _ _ _ _ _ _ _ _ _ _ _ _ _ _ Hpred)
      as (nr & nc & yo & xo & ypad & xpad & Hws & Hov & _).
    destruct (same_plan_windowsizes _ _ Hplan) as [Ew Eo].
    rewrite Ew in Hws. rewrite Eo in Hov.
    apply py_index_ok in Hws. apply py_index_ok in Hov. lia.
Qed.

(** A three-pass run of either engine in the small world, which has three
    window sizes and three overlaps. *)
Lemma completed_run_had_its_windows_witness :
  (exists t sv,
      @Windef.multipass (Demo.world Demo.quiet) Demo.ramp Demo.ramp
        DemoRuns.three_passes = (t, Ok sv) /\
      3 <= length (windowsizes DemoRuns.three_passes) /\
      3 <= length (overlap DemoRuns.three_passes)) /\
  (exists t sv,
      @WindefGpu.multipass (Demo.world Demo.quiet) Demo.ramp Demo.ramp
        DemoRuns.three_passes = (t, Ok sv) /\
      3 <= length (windowsizes DemoRuns.three_passes) /\
      3 <= length (overlap DemoRuns.three_passes)).
Proof.
  destruct (@completed_run_had_its_windows (Demo.world Demo.quiet)
              Demo.ramp Demo.ramp DemoRuns.three_passes) as [Hcpu Hgpu].
  split.
  - apply (completed_run _ (fun _ _ => _ /\ _)); [vm_compute; reflexivity|].
    exact Hcpu.
  - apply (completed_run _ (fun _ _ => _ /\ _)); [vm_compute; reflexivity|].
    exact Hgpu.
Defined.

(* ===================================================================== *)
(** * The padded grid, again                                              *)
(* ===================================================================== *)

Lemma ceiling_times_step (q step : Q) :
  (0 < step)%Q -> (q <= inject_Z (Qceiling (q / step)) * step)%Q.
Proof.
  intros Hstep.
  assert (E : (step * (q / step) == q)%Q).
  { apply Qmult_div_r. intros Hz. rewrite Hz in Hstep. discriminate. }
  rewrite <- E at 1. rewrite (Qmult_comm (inject_Z _)).
  apply Qmult_le_l; [exact Hstep|apply Qle_ceiling].
Qed.

Lemma last_app_nonempty {A} (l1 l2 : list A) (d : A) :
  l2 <> [] -> last (l1 ++ l2) d = last l2 d.
Proof.
  intros Hl2. induction l1 as [|a l1 IH]; [reflexivity|].
  cbn [app]. destruct (l1 ++ l2) eqn:E.
  - apply app_eq_nil in E. tauto.
  - rewrite <- IH. reflexivity.
Qed.

Lemma pad_before_first (first : Q) (n : Z) (step : Q) (rest : list Q) :
  (1 <= n)%Z ->
  nth 0 (WindefGpu.pad_before first n step ++ rest) 0%Q
  = (first - inject_Z n * step)%Q.
Proof.
  intros Hn. unfold WindefGpu.pad_before.
  destruct (Z.to_nat n) as [|k] eqn:Hk; [lia|].
  rewrite seq_S, rev_app_distr. cbn [rev app map nth].
  replace (Z.of_nat (1 + k)) with n by lia. reflexivity.
Qed.

Lemma pad_after_last (lst : Q) (n : Z) (step : Q) (before : list Q) :
  (1 <= n)%Z ->
  last (before ++ WindefGpu.pad_after lst n step) 0%Q
  = (lst + inject_Z n * step)%Q.
Proof.
  intros Hn.
  assert (Hlen : length (WindefGpu.pad_after lst n step) = Z.to_nat n)
    by apply length_pad_after.
  rewrite last_app_nonempty
    by (intros E; rewrite E in Hlen; cbn in Hlen; lia).
  rewrite last_nth, Hlen. unfold WindefGpu.pad_after.
  rewrite nth_map_seq by lia.
  replace (Z.of_nat (1 + (Z.to_nat n - 1))) with n by lia. reflexivity.
Qed.

(** X7.  The coordinate vector that the GPU pass pads around the new grid
    reaches over the whole frame axis: whenever the window is larger than
    the overlap, the padded vector starts at or before pixel 0 and ends at
    or after the last pixel [frame_dim - 1], and it is the grid's own vector
    with [add0] points in front and [add1] points behind. *)
Theorem padded_axis_covers_frame (c_int : list Q)
    (frame_dim window_size ovl : nat) (add0 add1 : Z) (padded : list Q)
    (positive_step : ovl < window_size) :
  WindefGpu.pad_axis c_int frame_dim window_size ovl
    = Ok (add0, add1, padded) ->
  (nth 0 padded 0 <= 0)%Q /\
  (inject_Z (Z.of_nat frame_dim) - 1 <= last padded 0)%Q /\
  exists before after,
    padded = before ++ c_int ++ after /\
    length before = Z.to_nat add0 /\ length after = Z.to_nat add1.
Proof.
  intros Hpad.
  split; [|split; [|eapply pad_axis_ok; exact Hpad]].
  - unfold WindefGpu.pad_axis, py_index, WindefGpu.py_last,
      WindefGpu.int_ceil in Hpad.
    destruct c_int as [|f rest]; [discriminate|].
    cbn [nth_error rbind] in Hpad.
    set (step := inject_Z (Z.of_nat window_size - Z.of_nat ovl)) in *.
    set (lst := last (f :: rest) 0%Q) in *.
    injection Hpad as E0 E1 Ep. rewrite E0, E1 in Ep. subst padded.
    assert (Hstep : (0 < step)%Q).
    { subst step. change 0%Q with (inject_Z 0). rewrite <- Zlt_Qlt. lia. }
    pose proof (ceiling_times_step f step Hstep) as Hc.
    rewrite E0 in Hc.
    destruct (Z.le_gt_cases 1 add0) as [Hpos|Hneg].
    + rewrite pad_before_first by exact Hpos. lra.
    + unfold WindefGpu.pad_before.
      replace (Z.to_nat add0) with 0%nat by lia. cbn [seq rev map app nth].
      assert (Ha : (inject_Z add0 <= 0)%Q).
      { change 0%Q with (inject_Z 0). rewrite <- Zle_Qle. lia. }
      assert (Hm : (inject_Z add0 * step <= 0 * step)%Q).
      { apply Qmult_le_compat_r; [exact Ha|lra]. }
      lra.
  - unfold WindefGpu.pad_axis, py_index, WindefGpu.py_last,
      WindefGpu.int_ceil in Hpad.
    destruct c_int as [|f rest]; [discriminate|].
    cbn [nth_error rbind] in Hpad.
    set (step := inject_Z (Z.of_nat window_size - Z.of_nat ovl)) in *.
    set (lst := last (f :: rest) 0%Q) in *.
    set (dim := inject_Z (Z.of_nat frame_dim)) in *.
    injection Hpad as E0 E1 Ep. rewrite E0, E1 in Ep. subst padded.
    assert (Hstep : (0 < step)%Q).
    { subst step. change 0%Q with (inject_Z 0). rewrite <- Zlt_Qlt. lia. }
    pose proof (ceiling_times_step (dim - lst - 1)%Q step Hstep) as Hc.
    rewrite E1 in Hc.
    change (f :: rest ++ WindefGpu.pad_after lst add1 step)
      with ((f :: rest) ++ WindefGpu.pad_after lst add1 step).
    rewrite app_assoc.
    destruct (Z.le_gt_cases 1 add1) as [Hpos|Hneg].
    + rewrite pad_after_last by exact Hpos. lra.
    + unfold WindefGpu.pad_after.
      replace (Z.to_nat add1) with 0%nat by lia. cbn [seq map].
      rewrite app_nil_r, last_app_nonempty by discriminate.
      fold lst.
      assert (Ha : (inject_Z add1 <= 0)%Q).
      { change 0%Q with (inject_Z 0). rewrite <- Zle_Qle. lia. }
      assert (Hm : (inject_Z add1 * step <= 0 * step)%Q).
      { apply Qmult_le_compat_r; [exact Ha|lra]. }
      lra.
Qed.

(** The rows of the 3 x 3 grid of 4-pixel windows with overlap 2 on an
    8-row frame (centres 2, 4, 6), padded to 0, 2, 4, 6, 8. *)
Lemma padded_axis_covers_frame_witness :
  2 < 4 /\
  WindefGpu.pad_axis (grid_axis 3 4 2) 8 4 2
  = Ok (1%Z, 1%Z,
        WindefGpu.pad_before (nth 0 (grid_axis 3 4 2) 0%Q) 1
          (inject_Z (Z.of_nat 4 - Z.of_nat 2))
        ++ grid_axis 3 4 2
        ++ WindefGpu.pad_after (last (grid_axis 3 4 2) 0%Q) 1
             (inject_Z (Z.of_nat 4 - Z.of_nat 2))) /\
  (nth 0 (WindefGpu.pad_before (nth 0 (grid_axis 3 4 2) 0%Q) 1
            (inject_Z (Z.of_nat 4 - Z.of_nat 2))
          ++ grid_axis 3 4 2
          ++ WindefGpu.pad_after (last (grid_axis 3 4 2) 0%Q) 1
               (inject_Z (Z.of_nat 4 - Z.of_nat 2))) 0 <= 0)%Q.
Proof.
  assert (Hstep : 2 < 4) by lia.
  assert (Hpad : WindefGpu.pad_axis (grid_axis 3 4 2) 8 4 2
                 = Ok (1%Z, 1%Z,
                       WindefGpu.pad_before (nth 0 (grid_axis 3 4 2) 0%Q) 1
                         (inject_Z (Z.of_nat 4 - Z.of_nat 2))
                       ++ grid_axis 3 4 2
                       ++ WindefGpu.pad_after (last (grid_axis 3 4 2) 0%Q) 1
                            (inject_Z (Z.of_nat 4 - Z.of_nat 2))))
    by reflexivity.
  split; [exact Hstep|]. split; [exact Hpad|].
  exact (proj1 (padded_axis_covers_frame _ _ _ _ _ _ _ Hstep Hpad)).
Defined.

Lemma ok_and {A} (r : result A) (P Q : A -> Prop) :
  match r with Ok a => P a | Raise _ => False end ->
  (forall a, r = Ok a -> P a -> Q a) ->
  exists a, r = Ok a /\ P a /\ Q a.
Proof.
  destruct r as [a|e]; [|contradiction]. intros HP HQ.
  exists a. split; [reflexivity|]. split; [exact HP|].
  apply HQ; [reflexivity|exact HP].
Qed.

(** No room behind the grid: the slice [u_pre[a0:-0]] is empty and the
    accumulation cannot broadcast it. *)
Lemma gpu_no_room_raises `{Collaborators} (frame_a frame_b : ndarray Q)
    (i : nat) (x_old y_old : ndarray Q) (u_old v_old : field)
    (s : PIVSettings) (ws ov : nat) (y_add x_add : Z * Z)
    (x y u_pre v_pre : ndarray Q) (t : list event)
    (res : ndarray Q * ndarray Q * ndarray Q * PIVSettings) :
  WindefGpu.predict frame_a i x_old y_old u_old v_old s
    = Ok (ws, ov, y_add, x_add, x, y, u_pre, v_pre) ->
  (snd y_add = 0 \/ snd x_add = 0)%Z ->
  WindefGpu.residual frame_a frame_b i ws ov x y u_pre v_pre s = (t, Ok res) ->
  WindefGpu.validated_pass frame_a frame_b i x_old y_old u_old v_old s
  = (t, Raise (ValueError "operands could not be broadcast together")).
Proof.
  intros Hpred Hroom Hres. destruct res as [[[res_u res_v] s2n] s'].
  unfold WindefGpu.validated_pass. rewrite Hpred. cbn [lift bind].
  rewrite Hres. cbn [bind app].
  destruct (gpu_residual_ok _ _ _ _ _ _ _ _ _ _ _ _ _ _ _ Hres)
    as (_ & _ & [nr nc] & Hshape & Hsu & _).
  destruct frame_a as [h w fa].
  pose proof (get_field_shape_ok _ _ _ _ _ _ Hshape) as (_ & _ & _ & Hnr & Hnc).
  apply gpu_predict_ok in Hpred.
  destruct Hpred as (n_rows & n_cols & yo & xo & y_pad & x_pad & _ & _ & _ & _
                     & _ & Hy0 & _ & Hx0 & _ & _ & _ & _ & Hu & _).
  assert (Hfail : np_iadd res_u
                    (slice2 u_pre (fst y_add) (- snd y_add)
                       (fst x_add) (- snd x_add))
                  = Raise (ValueError "operands could not be broadcast together")).
  { unfold np_iadd, slice2, slice_cols, slice_rows.
    destruct (py_slice (nrows u_pre) (fst y_add) (- snd y_add)) as [sy ey] eqn:Hsy.
    cbn [nrows ncols].
    destruct (py_slice (ncols u_pre) (fst x_add) (- snd x_add)) as [sx ex] eqn:Hsx.
    cbn [nrows ncols].
    unfold shape in Hsu. injection Hsu as Hr Hc. rewrite Hr, Hc.
    destruct Hroom as [Hz|Hz]; rewrite Hz in *.
    - pose proof (slice_to_zero (nrows u_pre) (fst y_add) Hy0) as Hzero.
      rewrite Hsy in Hzero. cbn [fst snd] in Hzero. rewrite Hzero.
      destruct (Nat.eqb_spec 0 nr); [lia|]. reflexivity.
    - pose proof (slice_to_zero (ncols u_pre) (fst x_add) Hx0) as Hzero.
      rewrite Hsx in Hzero. cbn [fst snd] in Hzero. rewrite Hzero.
      destruct (Nat.eqb_spec 0 nc); [lia|].
      rewrite andb_comm. reflexivity. }
  rewrite Hfail. cbn [lift bind]. rewrite app_nil_r. reflexivity.
Qed.

(** A GPU pass that returned left room behind its grid on both axes. *)
Lemma gpu_pass_has_room `{Collaborators} (frame_a frame_b : ndarray Q)
    (i : nat) (x_old y_old : ndarray Q) (u_old v_old : field)
    (s : PIVSettings) (t : list event) (y_add x_add : Z * Z)
    (x y u v : ndarray Q) (grid_mask flags : ndarray bool)
    (s' : PIVSettings) :
  WindefGpu.validated_pass frame_a frame_b i x_old y_old u_old v_old s
    = (t, Ok (y_add, x_add, x, y, u, v, grid_mask, flags, s')) ->
  (1 <= snd y_add)%Z /\ (1 <= snd x_add)%Z.
Proof.
  intros Hvp.
  destruct (gpu_validated_pass_ok _ _ _ _ _ _ _ _ _ _ _ _ _ _ _ _ _ _ Hvp)
    as (ws & ov & u_pre & v_pre & res_u & res_v & s2n & pu & pv & Hpred & Hres
        & _).
  pose proof (gpu_predict_ok _ _ _ _ _ _ _ _ _ _ _ _ _ _ _ Hpred)
    as (n_rows & n_cols & yo & xo & y_pad & x_pad & _ & _ & _ & _
        & _ & _ & Hy1 & _ & Hx1 & _).
  destruct (Z.eq_dec (snd y_add) 0) as [Hy|Hy].
  { rewrite (gpu_no_room_raises _ _ _ _ _ _ _ _ _ _ _ _ _ _ _ _ _ _
               Hpred (or_introl Hy) Hres) in Hvp. discriminate. }
  destruct (Z.eq_dec (snd x_add) 0) as [Hx|Hx].
  { rewrite (gpu_no_room_raises _ _ _ _ _ _ _ _ _ _ _ _ _ _ _ _ _ _
               Hpred (or_intror Hx) Hres) in Hvp. discriminate. }
  lia.
Qed.

(** X8.  The GPU pass needs a grid point behind the grid on each axis.  If
    the count of points to add after the rows or after the columns is zero
    (the last window centre lies on the last pixel), the slice
    [u_pre[y_add[0]:-y_add[1], x_add[0]:-x_add[1]]] ends at [-0], which is
    index 0: it is empty, and once the frame has been deformed and
    correlated the accumulation [u += ...] raises [ValueError].  The pass
    never returns. *)
Theorem gpu_pass_needs_room_behind_grid `{Collaborators}
    (frame_a frame_b : ndarray Q) (i : nat) (x_old y_old : ndarray Q)
    (u_old v_old : field) (s : PIVSettings)
    (p : nat * nat * (Z * Z) * (Z * Z)
         * ndarray Q * ndarray Q * ndarray Q * ndarray Q) :
  WindefGpu.predict frame_a i x_old y_old u_old v_old s = Ok p ->
  (fst (room_after p) = 0 \/ snd (room_after p) = 0)%Z ->
  (forall t out,
      WindefGpu.multipass_img_deform frame_a frame_b i x_old y_old
        u_old v_old s <> (t, Ok out)) /\
  (forall t res,
      (let '(ws, ov, _, _, x, y, u_pre, v_pre) := p in
       WindefGpu.residual frame_a frame_b i ws ov x y u_pre v_pre s)
      = (t, Ok res) ->
      WindefGpu.multipass_img_deform frame_a frame_b i x_old y_old
        u_old v_old s
      = (t, Raise (ValueError "operands could not be broadcast together"))).
Proof.
  destruct p as [[[[[[[ws ov] y_add] x_add] x] y] u_pre] v_pre].
  cbn [room_after fst snd]. intros Hpred Hroom. split.
  - intros t [[[[[[x' y'] u] v] gm] fl] s'] Hrun.
    apply gpu_pass_ok in Hrun.
    destruct Hrun as (ya & xa & xp & yp & ua & va & vd & Hvp & _).
    pose proof (gpu_pass_has_room _ _ _ _ _ _ _ _ _ _ _ _ _ _ _ _ _ _ Hvp)
      as [Hy Hx].
    apply gpu_validated_pass_ok in Hvp.
    destruct Hvp as (ws' & ov' & up' & vp' & _ & _ & _ & _ & _ & Hpred' & _).
    rewrite Hpred in Hpred'. injection Hpred' as _ _ Ey Ex _ _ _ _.
    subst ya xa. lia.
  - intros t res Hres.
    unfold WindefGpu.multipass_img_deform.
    rewrite (gpu_no_room_raises _ _ _ _ _ _ _ _ _ _ _ _ _ _ _ _ _ _
               Hpred Hroom Hres).
    reflexivity.
Qed.

(** Pass 1 of the run with 2-pixel windows on the 8 x 8 frame, in the
    small world: no point is added behind the grid, and the pass raises
    after the correlation. *)
Lemma gpu_pass_needs_room_behind_grid_witness :
  exists p,
    @WindefGpu.predict (Demo.world Demo.quiet) Demo.ramp 1
      DemoRuns.coarse_x DemoRuns.coarse_y DemoRuns.at_rest DemoRuns.at_rest
      DemoEdge.tight_windows = Ok p /\
    (room_after p = (0%Z, 0%Z) /\
     let residual :=
       let '(ws, ov, _, _, x, y, u_pre, v_pre) := p in
       @WindefGpu.residual (Demo.world Demo.quiet) Demo.ramp Demo.ramp 1
         ws ov x y u_pre v_pre DemoEdge.tight_windows in
     trace residual = [CallDeform 1; CallCorrelate 1] /\
     completed residual = true) /\
    @WindefGpu.multipass_img_deform (Demo.world Demo.quiet) Demo.ramp
      Demo.ramp 1
      DemoRuns.coarse_x DemoRuns.coarse_y DemoRuns.at_rest DemoRuns.at_rest
      DemoEdge.tight_windows
    = ([CallDeform 1; CallCorrelate 1],
       Raise (ValueError "operands could not be broadcast together")).
Proof.
  apply ok_and; [vm_compute; auto|].
  intros p Hpred (Hroom & Hres). cbv zeta in Hres.
  destruct (@gpu_pass_needs_room_behind_grid (Demo.world Demo.quiet)
              Demo.ramp Demo.ramp 1
              DemoRuns.coarse_x DemoRuns.coarse_y DemoRuns.at_rest
              DemoRuns.at_rest DemoEdge.tight_windows p Hpred) as [_ Hraise].
  { rewrite Hroom. left. reflexivity. }
  destruct (let '(ws, ov, _, _, x, y, u_pre, v_pre) := p in
            @WindefGpu.residual (Demo.world Demo.quiet) Demo.ramp Demo.ramp 1
              ws ov x y u_pre v_pre DemoEdge.tight_windows)
    as [t [res|e]] eqn:Hrun; cbn in Hres; destruct Hres as [Ht Hok];
    [|discriminate].
  subst t. exact (Hraise _ res eq_refl).
Defined.

(* ===================================================================== *)
(** * The grid and the shapes that a pass returns                         *)
(* ===================================================================== *)

(** The grid that a GPU pass returns is its padded grid cut back. *)
Lemma gpu_pass_grid `{Collaborators} (frame_a frame_b : ndarray Q)
    (i : nat) (x_old y_old : ndarray Q) (u_old v_old : field)
    (s : PIVSettings) (t : list event) (x y : ndarray Q) (u v : field)
    (grid_mask flags : ndarray bool) (s' : PIVSettings) :
  WindefGpu.multipass_img_deform frame_a frame_b i x_old y_old u_old v_old s
    = (t, Ok (x, y, u, v, grid_mask, flags, s')) ->
  exists y_add x_add x_pad y_pad u_acc v_acc validated,
    WindefGpu.validated_pass frame_a frame_b i x_old y_old u_old v_old s
      = ([CallDeform i; CallCorrelate i; CallValidate i],
         Ok (y_add, x_add, x_pad, y_pad, u_acc, v_acc, grid_mask, validated,
             s')) /\
    x = slice2 x_pad (fst y_add) (- snd y_add) (fst x_add) (- snd x_add) /\
    y = slice2 y_pad (fst y_add) (- snd y_add) (fst x_add) (- snd x_add).
Proof.
  unfold WindefGpu.multipass_img_deform. intros Hp.
  open_bind Hp as [[[[[[[[ya xa] x1] y1] u1] v1] gm1] fl1] s1] Hvp trace tv.
  pose proof (gpu_validated_pass_ok _ _ _ _ _ _ _ _ _ _ _ _ _ _ _ _ _ _ Hvp)
    as (ws & ov & u_pre & v_pre & res_u & res_v & s2n & pre_u & pre_v & _ & _
        & _ & _ & _ & _ & _ & _ & Ht).
  destruct (np_all fl1) eqn:Hall; [discriminate|].
  destruct (negb (i + 1 =? num_iterations s1)).
  - open_bind Hp as [[u2 v2] fl2] Hrep trace tr.
    apply ret_ok in Hp. destruct Hp as [Heq _].
    injection Heq as E1 E2 E3 E4 E5 E6 E7. subst.
    exists ya, xa, x1, y1, u1, v1, fl1. auto.
  - open_bind Hp as [[u2 v2] fl2] Hret trace tr.
    apply ret_ok in Hp. destruct Hp as [Heq _].
    injection Heq as E1 E2 E3 E4 E5 E6 E7. subst.
    exists ya, xa, x1, y1, u1, v1, fl1. auto.
Qed.

(** X9.  Both engines hand back the grid of [get_rect_coordinates] for the
    window size and overlap of the pass.  The CPU pass returns it as it
    built it; the GPU pass pads it with points around the frame and cuts
    the points off again before it returns, and what it returns is that
    grid, cell for cell. *)
Theorem pass_returns_the_window_grid `{Collaborators}
    (frame_a frame_b : ndarray Q) (i : nat) (x_old y_old : ndarray Q)
    (u_old v_old : field) (s : PIVSettings) :
  (forall t x y u v grid_mask flags s',
      Windef.multipass_img_deform frame_a frame_b i x_old y_old u_old v_old s
        = (t, Ok (x, y, u, v, grid_mask, flags, s')) ->
      exists ws ov,
        py_index (windowsizes s) i = Ok ws /\
        py_index (overlap s) i = Ok ov /\
        get_rect_coordinates (shape frame_a) ws ov = Ok (x, y)) /\
  (forall t x y u v grid_mask flags s',
      WindefGpu.multipass_img_deform frame_a frame_b i x_old y_old
        u_old v_old s
        = (t, Ok (x, y, u, v, grid_mask, flags, s')) ->
      exists ws ov grid_x grid_y,
        py_index (windowsizes s) i = Ok ws /\
        py_index (overlap s) i = Ok ov /\
        get_rect_coordinates (shape frame_a) ws ov = Ok (grid_x, grid_y) /\
        arr_eq x grid_x /\ arr_eq y grid_y).
Proof.
  split.
  - intros t x y u v gm fl s' Hrun.
    apply cpu_pass_ok in Hrun. destruct Hrun as (ua & va & Hvp & _).
    apply cpu_validated_pass_ok in Hvp.
    destruct Hvp as (ws & ov & u_pre & v_pre & res_u & res_v & s2n & Hpred & _).
    apply cpu_predict_ok in Hpred. destruct Hpred as (Hws & Hov & Hgrid & _).
    exists ws, ov. auto.
  - intros t x y u v gm fl s' Hrun.
    apply gpu_pass_grid in Hrun.
    destruct Hrun as (ya & xa & xp & yp & ua & va & vd & Hvp & -> & ->).
    pose proof (gpu_pass_has_room _ _ _ _ _ _ _ _ _ _ _ _ _ _ _ _ _ _ Hvp)
      as [Hy1 Hx1].
    apply gpu_validated_pass_ok in Hvp.
    destruct Hvp as (ws & ov & u_pre & v_pre & res_u & res_v & s2n & pu & pv
                     & Hpred & _).
    apply gpu_predict_ok in Hpred.
    destruct Hpred as (n_rows & n_cols & yo & xo & y_pad & x_pad & Hws & Hov
                       & Hshape & _ & _ & Hy0 & _ & Hx0 & _ & Hpy & Hpx
                       & Hgrid & _).
    destruct (new_grid_of_shape _ _ _ _ _ Hshape) as (Hrect & _).
    cbv zeta in Hrect.
    apply pad_axis_ok in Hpy. destruct Hpy as (by_ & ay & -> & Hby & Hay).
    apply pad_axis_ok in Hpx. destruct Hpx as (bx & ax & -> & Hbx & Hax).
    unfold meshgrid in Hgrid. injection Hgrid as -> ->.
    exists ws, ov,
      (fst (meshgrid (grid_axis n_cols ws ov) (grid_axis n_rows ws ov))),
      (snd (meshgrid (grid_axis n_cols ws ov) (grid_axis n_rows ws ov))).
    split; [exact Hws|]. split; [exact Hov|].
    split; [rewrite Hrect; destruct (meshgrid _ _); reflexivity|].
    split.
    + apply (slice2_padded_spline (fun _ q => q)); assumption || lia.
    + apply (slice2_padded_spline (fun q _ => q)); assumption || lia.
Qed.

(** Pass 1 of two in the small world: the 3 x 3 grid of 4-pixel windows
    with overlap 2. *)
Lemma pass_returns_the_window_grid_witness :
  (exists t out,
      @Windef.multipass_img_deform (Demo.world Demo.quiet) Demo.ramp
        Demo.ramp 1
        DemoRuns.coarse_x DemoRuns.coarse_y DemoRuns.at_rest DemoRuns.at_rest
        DemoRuns.two_passes = (t, Ok out) /\
      let '(x, y, _, _, _, _, _) := out in
      get_rect_coordinates (shape Demo.ramp) 4 2 = Ok (x, y)) /\
  (exists t out,
      @WindefGpu.multipass_img_deform (Demo.world Demo.quiet) Demo.ramp
        Demo.ramp 1
        DemoRuns.coarse_x DemoRuns.coarse_y DemoRuns.at_rest DemoRuns.at_rest
        DemoRuns.two_passes = (t, Ok out) /\
      let '(x, y, _, _, _, _, _) := out in
      exists grid_x grid_y,
        get_rect_coordinates (shape Demo.ramp) 4 2 = Ok (grid_x, grid_y) /\
        arr_eq x grid_x /\ arr_eq y grid_y).
Proof.
  destruct (@pass_returns_the_window_grid (Demo.world Demo.quiet)
              Demo.ramp Demo.ramp 1
              DemoRuns.coarse_x DemoRuns.coarse_y DemoRuns.at_rest
              DemoRuns.at_rest DemoRuns.two_passes) as [Hcpu Hgpu].
  split.
  - apply completed_run; [vm_compute; reflexivity|].
    intros t [[[[[[x y] u] v] gm] fl] s'] Hrun.
    destruct (Hcpu _ _ _ _ _ _ _ _ Hrun) as (ws & ov & Hws & Hov & Hgrid).
    injection Hws as <-. injection Hov as <-. exact Hgrid.
  - apply completed_run; [vm_compute; reflexivity|].
    intros t [[[[[[x y] u] v] gm] fl] s'] Hrun.
    destruct (Hgpu _ _ _ _ _ _ _ _ Hrun)
      as (ws & ov & gx & gy & Hws & Hov & Hgrid & Hx & Hy).
    injection Hws as <-. injection Hov as <-. exists gx, gy. auto.
Defined.

Lemma first_pass_shapes `{Collaborators} (frame_a frame_b : ndarray Q)
    (s : PIVSettings) (t : list event) (x y u v s2n : ndarray Q) :
  Windef.first_pass frame_a frame_b s = (t, Ok (x, y, u, v, s2n)) ->
  shape x = shape u /\ shape y = shape u /\ shape v = shape u /\
  shape s2n = shape u /\ 0 < nrows u /\ 0 < ncols u.
Proof.
  unfold Windef.first_pass. intros Hf.
  open_lift Hf as ws0 Hws. open_lift Hf as ov0 Hov.
  open_call Hf as [[cu cv] cs] Hcorr.
  open_lift Hf as [nr nc] Hshape.
  open_lift Hf as u' Hu. open_lift Hf as v' Hv. open_lift Hf as s2n' Hs.
  open_lift Hf as [x' y'] Hgrid.
  apply ret_ok in Hf. destruct Hf as [Heq _].
  injection Heq as E1 E2 E3 E4 E5. subst x' y' u' v' s2n'.
  apply reshape_ok in Hu, Hv, Hs.
  destruct (get_rect_coordinates_ok _ _ _ _ _ Hgrid)
    as (nr' & nc' & Hshape' & _ & _ & Hsx & Hsy).
  rewrite Hshape in Hshape'. injection Hshape' as <- <-.
  destruct frame_a as [h w fa].
  pose proof (get_field_shape_ok _ _ _ _ _ _ Hshape) as (_ & _ & _ & Hnr & Hnc).
  unfold shape in Hu. injection Hu as Hur Huc.
  rewrite Hsx, Hsy, Hv, Hs. unfold shape. rewrite Hur, Huc.
  repeat (split; [reflexivity|]). lia.
Qed.

(** X10.  What a pass returns fits together.  The first pass of either
    engine returns a grid [(x, y)] and fields [u], [v], [s2n] of one shape,
    with at least one row and one column.  A later pass of the CPU engine
    returns a grid and a grid mask of one such shape, and on the last pass,
    which is not repaired, fields of that shape that are masked by the grid
    mask. *)
Theorem pass_outputs_share_a_shape `{Collaborators}
    (frame_a frame_b : ndarray Q) (s : PIVSettings) :
  (forall t x y u v s2n,
      Windef.first_pass frame_a frame_b s = (t, Ok (x, y, u, v, s2n)) \/
      WindefGpu.first_pass frame_a frame_b s = (t, Ok (x, y, u, v, s2n)) ->
      shape x = shape u /\ shape y = shape u /\ shape v = shape u /\
      shape s2n = shape u /\ 0 < nrows u /\ 0 < ncols u) /\
  (forall i x_old y_old u_old v_old t x y u v grid_mask flags s',
      Windef.multipass_img_deform frame_a frame_b i x_old y_old u_old v_old s
        = (t, Ok (x, y, u, v, grid_mask, flags, s')) ->
      shape x = shape grid_mask /\ shape y = shape grid_mask /\
      0 < nrows grid_mask /\ 0 < ncols grid_mask /\
      (i + 1 = num_iterations s ->
       shape (fdata u) = shape grid_mask /\ shape (fdata v) = shape grid_mask /\
       fmask u = grid_mask /\ fmask v = grid_mask)).
Proof.
  split.
  - intros t x y u v s2n [Hf|Hf]; eapply first_pass_shapes; exact Hf.
  - intros i x_old y_old u_old v_old t x y u v gm fl s' Hrun.
    assert (Hplan : same_plan s s')
      by (eapply cpu_pass_plan; [apply same_plan_refl|exact Hrun]).
    apply cpu_pass_ok in Hrun.
    destruct Hrun as (ua & va & Hvp & _ & Huv & _).
    apply cpu_validated_pass_ok in Hvp.
    destruct Hvp as (ws & ov & u_pre & v_pre & res_u & res_v & s2n & Hpred
                     & Hres & [Hsu _] & [Hsv _] & Hmu & Hmv & Hgm & _).
    apply cpu_predict_ok in Hpred.
    destruct Hpred as (_ & _ & _ & [nr nc] & Hshape & _ & _ & Hsx & Hsy).
    apply cpu_residual_ok in Hres.
    destruct Hres as (_ & _ & shp & Hshape' & Hru & Hrv & _).
    rewrite Hshape in Hshape'. injection Hshape' as <-.
    destruct frame_a as [h w fa].
    pose proof (get_field_shape_ok _ _ _ _ _ _ Hshape) as (_ & _ & _ & Hnr & Hnc).
    change (shape (arr_zip Qplus res_u u_pre)) with (shape res_u) in Hsu.
    change (shape (arr_zip Qplus res_v v_pre)) with (shape res_v) in Hsv.
    rewrite Hru in Hsu. rewrite Hrv in Hsv.
    assert (Hg : shape gm = (nr, nc)).
    { rewrite Hgm. destruct (static_mask s); [exact Hsy|exact Hsu]. }
    assert (Hgr : nrows gm = nr /\ ncols gm = nc).
    { unfold shape in Hg. injection Hg as Hgr Hgc. auto. }
    rewrite Hsx, Hsy, Hg.
    split; [reflexivity|]. split; [reflexivity|].
    split; [lia|]. split; [lia|].
    intros Hlast. rewrite (same_plan_iterations _ _ Hplan) in Huv.
    apply Nat.eqb_eq in Hlast. rewrite Hlast in Huv.
    injection Huv as -> ->.
    rewrite Hsu, Hsv. auto.
Qed.

(** The first pass and the last pass of a two-pass run in the small
    world. *)
Lemma pass_outputs_share_a_shape_witness :
  (exists t out,
      @Windef.first_pass (Demo.world Demo.quiet) Demo.ramp Demo.ramp
        DemoRuns.two_passes = (t, Ok out) /\
      let '(x, y, u, v, s2n) := out in
      shape x = shape u /\ shape y = shape u) /\
  (exists t out,
      @Windef.multipass_img_deform (Demo.world Demo.quiet) Demo.ramp
        Demo.ramp 1
        DemoRuns.coarse_x DemoRuns.coarse_y DemoRuns.at_rest DemoRuns.at_rest
        DemoRuns.two_passes = (t, Ok out) /\
      let '(x, y, u, v, grid_mask, _, _) := out in
      shape x = shape grid_mask /\ shape (fdata u) = shape grid_mask).
Proof.
  destruct (@pass_outputs_share_a_shape (Demo.world Demo.quiet)
              Demo.ramp Demo.ramp DemoRuns.two_passes) as [Hfirst Hpass].
  split.
  - apply completed_run; [vm_compute; reflexivity|].
    intros t [[[[x y] u] v] s2n] Hrun.
    destruct (Hfirst _ _ _ _ _ _ (or_introl Hrun)) as (Hx & Hy & _).
    split; assumption.
  - apply completed_run; [vm_compute; reflexivity|].
    intros t [[[[[[x y] u] v] gm] fl] s'] Hrun.
    destruct (Hpass _ _ _ _ _ _ _ _ _ _ _ _ _ Hrun) as (Hx & _ & _ & _ & Hlast).
    destruct (Hlast eq_refl) as (Hu & _).
    split; assumption.
Defined.

(* ===================================================================== *)
(** * [prepare_images], continued                                         *)
(* ===================================================================== *)

Lemma match_frame_b_same_shape (frame_a frame_b : ndarray Q) :
  shape frame_b = shape frame_a -> match_frame_b frame_a frame_b = Ok frame_b.
Proof.
  unfold shape. intros Hs. injection Hs as Hr Hc.
  unfold match_frame_b. cbv zeta.
  rewrite Hc, Nat.ltb_irrefl. cbv iota.
  rewrite Hr, Nat.ltb_irrefl. cbv iota.
  rewrite Hr, Hc, !Nat.ltb_irrefl. cbn [orb rbind].
  rewrite Hr, Hc, !Nat.eqb_refl. reflexivity.
Qed.

(** X11.  Frames of one size pass through [prepare_images] untouched.
    When frame B has the shape of frame A, nothing is cropped or padded;
    with no region of interest the GPU engine returns the two frames as
    they were read, and so does the CPU engine when, besides, no inversion
    and no mask is configured (it then returns no image mask). *)
Theorem equal_frames_pass_untouched `{Collaborators}
    (frame_a frame_b : ndarray Q) (s : PIVSettings)
    (same_size : shape frame_b = shape frame_a) :
  match_frame_b frame_a frame_b = Ok frame_b /\
  (roi s = None ->
   WindefGpu.prepare_images frame_a frame_b s = Ok (frame_a, frame_b)) /\
  (roi s = None -> invert s = false -> static_mask s = None ->
   dynamic_masking_method s = None ->
   Windef.prepare_images frame_a frame_b s = Ok (frame_a, frame_b, None)).
Proof.
  pose proof (match_frame_b_same_shape _ _ same_size) as Hm.
  split; [exact Hm|]. split.
  - intros Hroi. unfold WindefGpu.prepare_images, crop_to_roi.
    rewrite Hm, Hroi. reflexivity.
  - intros Hroi Hinv Hmask Hdyn. unfold Windef.prepare_images, crop_to_roi.
    rewrite Hm, Hroi, Hinv, Hmask, Hdyn. reflexivity.
Qed.

Lemma equal_frames_pass_untouched_witness :
  shape Demo.ramp = shape Demo.ramp /\
  @Windef.prepare_images (Demo.world Demo.quiet) Demo.ramp Demo.ramp
    DemoRuns.two_passes = Ok (Demo.ramp, Demo.ramp, None) /\
  WindefGpu.prepare_images Demo.ramp Demo.ramp
    DemoRuns.two_passes = Ok (Demo.ramp, Demo.ramp).
Proof.
  destruct (@equal_frames_pass_untouched (Demo.world Demo.quiet)
              Demo.ramp Demo.ramp DemoRuns.two_passes eq_refl)
    as (_ & Hgpu & Hcpu).
  split; [reflexivity|]. split.
  - apply Hcpu; reflexivity.
  - apply Hgpu; reflexivity.
Defined.

Lemma bidx_in_range (n r : nat) : r < n -> bidx n r = r.
Proof.
  intros Hr. unfold bidx. destruct (Nat.eqb_spec n 1); [lia|reflexivity].
Qed.

Lemma np_where_zero_same_shape (m : ndarray bool) (frame : ndarray Q) :
  shape m = shape frame ->
  exists out,
    np_where_zero m frame = Ok out /\ shape out = shape m /\
    forall r c, r < nrows m -> c < ncols m ->
                item out r c = if item m r c then 0%Q else item frame r c.
Proof.
  unfold shape. intros Hs. injection Hs as Hr Hc.
  unfold np_where_zero, broadcast_dim. rewrite Hr, Hc, !Nat.eqb_refl.
  eexists. split; [reflexivity|]. split; [reflexivity|].
  intros r c Hlr Hlc. cbn [item].
  rewrite !bidx_in_range by lia. reflexivity.
Qed.

Lemma shape_toned `{Collaborators} (s : PIVSettings) (frame : ndarray Q) :
  shape (if invert s then arr_map invert_value frame else frame) = shape frame.
Proof. destruct (invert s); reflexivity. Qed.

Lemma item_toned `{Collaborators} (s : PIVSettings) (frame : ndarray Q)
    (r c : nat) :
  item (if invert s then arr_map invert_value frame else frame) r c
  = toned s (item frame r c).
Proof. unfold toned. destruct (invert s); reflexivity. Qed.

(** X12.  The static mask blanks both frames, in the coordinates of the
    region of interest.  With a static mask of the shape of the frame cut
    to the region of interest, and no dynamic masking, the CPU engine
    returns that mask as the image mask, and frames that hold 0 at every
    masked pixel and, elsewhere, the pixel of the cut (and, if asked for,
    inverted) frame: frame A itself, and frame B once conformed to it. *)
Theorem static_mask_blanks_both_frames `{Collaborators}
    (frame_a frame_b : ndarray Q) (s : PIVSettings) (m : ndarray bool)
    (no_dynamic_masking : dynamic_masking_method s = None)
    (masked : static_mask s = Some m)
    (fits : shape m = shape (crop_to_roi s frame_a)) :
  exists a b conformed,
    match_frame_b frame_a frame_b = Ok conformed /\
    Windef.prepare_images frame_a frame_b s = Ok (a, b, Some m) /\
    shape a = shape m /\ shape b = shape m /\
    forall r c, r < nrows m -> c < ncols m ->
      item a r c = (if item m r c then 0%Q
                    else toned s (item (crop_to_roi s frame_a) r c)) /\
      item b r c = (if item m r c then 0%Q
                    else toned s (item (crop_to_roi s conformed) r c)).
Proof.
  destruct (match_frame_b_spec frame_a frame_b) as (b' & Hb & [Hsb _]).
  change (shape (central_crop_pad frame_a frame_b)) with (shape frame_a) in Hsb.
  pose proof (shape_crop_to_roi s _ _ Hsb) as Hcrop.
  destruct (np_where_zero_same_shape m
              (if invert s then arr_map invert_value (crop_to_roi s frame_a)
               else crop_to_roi s frame_a)) as (a & Ha & Hsa & Hia).
  { rewrite shape_toned. exact fits. }
  destruct (np_where_zero_same_shape m
              (if invert s then arr_map invert_value (crop_to_roi s b')
               else crop_to_roi s b')) as (b & Hbb & Hsbb & Hib).
  { rewrite shape_toned, Hcrop. exact fits. }
  exists a, b, b'. split; [exact Hb|]. split.
  - unfold Windef.prepare_images. rewrite Hb. cbn [rbind].
    rewrite masked, Ha. cbn [rbind]. rewrite Hbb. cbn [rbind].
    rewrite no_dynamic_masking. reflexivity.
  - split; [exact Hsa|]. split; [exact Hsbb|].
    intros r c Hr Hc.
    rewrite (Hia r c Hr Hc), (Hib r c Hr Hc), !item_toned. auto.
Qed.

(** The mask over the left half of the top left 4 x 4 pixels of the ramp. *)
Lemma static_mask_blanks_both_frames_witness :
  dynamic_masking_method DemoMasks.masked_corner = None /\
  static_mask DemoMasks.masked_corner = Some DemoMasks.left_half /\
  shape DemoMasks.left_half
  = shape (crop_to_roi DemoMasks.masked_corner Demo.ramp) /\
  exists a b,
    @Windef.prepare_images (Demo.world Demo.quiet) Demo.ramp Demo.ramp
      DemoMasks.masked_corner = Ok (a, b, Some DemoMasks.left_half) /\
    to_rows a = [[0; 0; 2; 3]; [0; 0; 10; 11]; [0; 0; 18; 19];
                 [0; 0; 26; 27]]%Q.
Proof.
  split; [reflexivity|]. split; [reflexivity|]. split; [reflexivity|].
  destruct (@static_mask_blanks_both_frames (Demo.world Demo.quiet)
              Demo.ramp Demo.ramp DemoMasks.masked_corner DemoMasks.left_half
              eq_refl eq_refl eq_refl)
    as (a & b & conformed & Hc & Hprep & Hsa & _ & Hitems).
  exists a, b. split; [exact Hprep|].
  unfold to_rows. unfold shape in Hsa. injection Hsa as Hr Hcn.
  rewrite Hr, Hcn. cbn [nrows ncols DemoMasks.left_half seq map].
  repeat match goal with
         | |- context [item a ?r ?c] =>
             rewrite (proj1 (Hitems r c ltac:(cbn; lia) ltac:(cbn; lia)))
         end.
  reflexivity.
Defined.

(** X13.  A static mask that does not broadcast against the frame cut to
    the region of interest makes the CPU engine's [prepare_images] raise
    [ValueError]: the mask is applied after the cut, so a mask of the size
    of the whole frame does not fit a smaller region of interest. *)
Theorem misshapen_static_mask_raises `{Collaborators}
    (frame_a frame_b : ndarray Q) (s : PIVSettings) (m : ndarray bool)
    (masked : static_mask s = Some m)
    (misfit : ~ broadcastable (nrows m) (nrows (crop_to_roi s frame_a)) \/
              ~ broadcastable (ncols m) (ncols (crop_to_roi s frame_a))) :
  Windef.prepare_images frame_a frame_b s
  = Raise (ValueError "operands could not be broadcast together").
Proof.
  destruct (match_frame_b_spec frame_a frame_b) as (b' & Hb & _).
  unfold Windef.prepare_images. rewrite Hb. cbn [rbind]. rewrite masked.
  assert (Hfail : np_where_zero m
                    (if invert s
                     then arr_map invert_value (crop_to_roi s frame_a)
                     else crop_to_roi s frame_a)
                  = Raise (ValueError "operands could not be broadcast together")).
  { unfold np_where_zero, broadcast_dim.
    assert (Hr : nrows (if invert s
                        then arr_map invert_value (crop_to_roi s frame_a)
                        else crop_to_roi s frame_a)
                 = nrows (crop_to_roi s frame_a))
      by (destruct (invert s); reflexivity).
    assert (Hc : ncols (if invert s
                        then arr_map invert_value (crop_to_roi s frame_a)
                        else crop_to_roi s frame_a)
                 = ncols (crop_to_roi s frame_a))
      by (destruct (invert s); reflexivity).
    rewrite Hr, Hc. unfold broadcastable in misfit.
    destruct (Nat.eqb_spec (nrows m) (nrows (crop_to_roi s frame_a)));
      destruct (Nat.eqb_spec (nrows m) 1);
      destruct (Nat.eqb_spec (nrows (crop_to_roi s frame_a)) 1);
      destruct (Nat.eqb_spec (ncols m) (ncols (crop_to_roi s frame_a)));
      destruct (Nat.eqb_spec (ncols m) 1);
      destruct (Nat.eqb_spec (ncols (crop_to_roi s frame_a)) 1);
      try reflexivity; exfalso; tauto. }
  rewrite Hfail. reflexivity.
Qed.

(** A mask of the size of the 8 x 8 frame with a region of interest of
    4 x 4 pixels. *)
Lemma misshapen_static_mask_raises_witness :
  static_mask DemoMasks.frame_sized_mask = Some DemoRuns.all_masked /\
  nrows DemoRuns.all_masked = 8 /\
  nrows (crop_to_roi DemoMasks.frame_sized_mask Demo.ramp) = 4 /\
  @Windef.prepare_images (Demo.world Demo.quiet) Demo.ramp Demo.ramp
    DemoMasks.frame_sized_mask
  = Raise (ValueError "operands could not be broadcast together").
Proof.
  split; [reflexivity|]. split; [reflexivity|]. split; [reflexivity|].
  apply (@misshapen_static_mask_raises (Demo.world Demo.quiet) Demo.ramp
           Demo.ramp DemoMasks.frame_sized_mask DemoRuns.all_masked eq_refl).
  left. unfold broadcastable. cbn. lia.
Defined.

(* ===================================================================== *)
(** * From the last pass to the save                                      *)
(* ===================================================================== *)

(** The fields that the validation of a CPU pass returns are masked
    arrays over the grid of the pass. *)
Lemma cpu_validated_pass_masked `{Collaborators} (frame_a frame_b : ndarray Q)
    (i : nat) (x_old y_old : ndarray Q) (u_old v_old : field)
    (s : PIVSettings) (t : list event) (x y : ndarray Q) (u v : field)
    (grid_mask flags : ndarray bool) (s' : PIVSettings) :
  Windef.validated_pass frame_a frame_b i x_old y_old u_old v_old s
    = (t, Ok (x, y, u, v, grid_mask, flags, s')) ->
  exists ud vd,
    u = Masked ud grid_mask /\ v = Masked vd grid_mask /\
    shape ud = shape y /\ shape vd = shape y /\ shape x = shape y.
Proof.
  unfold Windef.validated_pass. intros Hv.
  open_lift Hv as [[[[[ws ov] x'] y'] u_pre] v_pre] Hpred.
  open_bind Hv as [[[res_u res_v] s2n] s1] Hres.
  pose proof (cpu_residual_ok _ _ _ _ _ _ _ _ _ _ _ _ _ _ _ Hres)
    as (_ & _ & shp & Hshape & Hsu & Hsv & _).
  pose proof (cpu_predict_ok _ _ _ _ _ _ _ _ _ _ _ _ _ Hpred)
    as (_ & _ & _ & shp' & Hshape' & Hpu & Hpv & Hsx & Hsy).
  assert (shp' = shp) by congruence. subst shp'.
  open_lift Hv as ua Hau.
  open_lift Hv as va Hav.
  open_lift Hv as um Hmu.
  open_lift Hv as vm Hmv.
  open_call Hv as fl Hfl.
  apply ret_ok in Hv. destruct Hv as [Heq _].
  apply masked_array_ok in Hmu, Hmv.
  destruct Hmu as [Eu _]. destruct Hmv as [Ev _]. subst um vm.
  injection Heq as E1 E2 E3 E4 E5 E6 E7. subst x y u v.
  exists ua, va. rewrite E5.
  apply np_iadd_ok in Hau; [|congruence].
  apply np_iadd_ok in Hav; [|congruence].
  destruct Hau as [Hau _]. destruct Hav as [Hav _].
  change (shape (arr_zip Qplus res_u u_pre)) with (shape res_u) in Hau.
  change (shape (arr_zip Qplus res_v v_pre)) with (shape res_v) in Hav.
  repeat split; congruence.
Qed.

(** X14.  Once its passes have gone through, a run reaches the save.  For
    the CPU engine with two or more passes the finalizing step cannot
    fail: the last pass left masked arrays, which can be filled, and the
    image mask sampled on the grid has the shape of the fields it is put
    on.  The GPU engine saves whatever the number of passes.  In both
    cases the save is the one call that follows the calls of the passes. *)
Theorem finished_passes_reach_the_save `{Collaborators}
    (raw_a raw_b : ndarray Q) (s : PIVSettings) :
  (forall t im st,
      Windef.run_passes raw_a raw_b s = (t, Ok (im, st)) ->
      2 <= num_iterations s ->
      exists sv, Windef.multipass raw_a raw_b s = (t ++ [CallSave], Ok sv)) /\
  (forall t st,
      WindefGpu.run_passes raw_a raw_b s = (t, Ok st) ->
      exists sv, WindefGpu.multipass raw_a raw_b s = (t ++ [CallSave], Ok sv)).
Proof.
  split.
  - intros t im st Hrun Hn.
    destruct (cpu_run_last _ _ _ _ _ _ Hrun Hn)
      as (fa & fb & st1 & x & y & u & v & gm & fl & s' & _ & _ & Hvp & _
          & Ex & Ey & Eu & Ev & _ & _ & Ei).
    destruct (cpu_validated_pass_masked _ _ _ _ _ _ _ _ _ _ _ _ _ _ _ _ Hvp)
      as (ud & vd & Hu & Hv & Hsu & Hsv & Hsx).
    unfold Windef.multipass. rewrite Hrun. cbn [bind].
    unfold Windef.finalize. rewrite Ei, Eu, Ev, Hu, Hv, Ex, Ey.
    cbn [bind ret lift filled_method app].
    destruct im as [m|].
    + assert (Hfu : masked_array (fill_masked ud gm 0%Q) (mask_on_grid m y x)
                    = Ok (Masked (fill_masked ud gm 0%Q) (mask_on_grid m y x))).
      { unfold masked_array, shape_eqb. cbn [nrows ncols fill_masked mask_on_grid].
        unfold shape in Hsu. injection Hsu as -> ->.
        rewrite !Nat.eqb_refl. reflexivity. }
      assert (Hfv : masked_array (fill_masked vd gm 0%Q) (mask_on_grid m y x)
                    = Ok (Masked (fill_masked vd gm 0%Q) (mask_on_grid m y x))).
      { unfold masked_array, shape_eqb. cbn [nrows ncols fill_masked mask_on_grid].
        unfold shape in Hsv. injection Hsv as -> ->.
        rewrite !Nat.eqb_refl. reflexivity. }
      rewrite Hfu. cbn [bind lift app]. rewrite Hfv. cbn [bind lift ret call app].
      eexists. reflexivity.
    + cbn [bind lift ret call app]. eexists. reflexivity.
  - intros t st Hrun. unfold WindefGpu.multipass. rewrite Hrun.
    cbn [bind WindefGpu.finalize call]. eexists. reflexivity.
Qed.

(** The passes of a two-pass run of either engine in the small world,
    behind a static mask, and the save that follows them. *)
Lemma finished_passes_reach_the_save_witness :
  (exists t a,
      @Windef.run_passes (Demo.world Demo.quiet) Demo.ramp Demo.ramp
        DemoRuns.two_passes_masked = (t, Ok a) /\
      exists sv,
        @Windef.multipass (Demo.world Demo.quiet) Demo.ramp Demo.ramp
          DemoRuns.two_passes_masked = (t ++ [CallSave], Ok sv)) /\
  (exists t st,
      @WindefGpu.run_passes (Demo.world Demo.quiet) Demo.ramp Demo.ramp
        DemoRuns.two_passes_masked = (t, Ok st) /\
      exists sv,
        @WindefGpu.multipass (Demo.world Demo.quiet) Demo.ramp Demo.ramp
          DemoRuns.two_passes_masked = (t ++ [CallSave], Ok sv)).
Proof.
  destruct (@finished_passes_reach_the_save (Demo.world Demo.quiet)
              Demo.ramp Demo.ramp DemoRuns.two_passes_masked) as [Hcpu Hgpu].
  split.
  - apply completed_run; [vm_compute; reflexivity|].
    intros t [im st] Hrun. apply (Hcpu t im st Hrun). cbn. lia.
  - apply completed_run; [vm_compute; reflexivity|].
    intros t st Hrun. apply (Hgpu t st Hrun).
Defined.

Lemma ok_then {A} (r : result A) (Q : A -> Prop) :
  match r with Ok _ => True | Raise _ => False end ->
  (forall a, r = Ok a -> Q a) ->
  exists a, r = Ok a /\ Q a.
Proof.
  destruct r as [a|e]; [|contradiction]. intros _ HQ.
  exists a. split; [reflexivity|apply HQ; reflexivity].
Qed.

Lemma padded_axis_indexes (dim ws ov : nat) (a0 a1 : Z) (p : list Q)
    (r : nat) :
  ov < ws -> ws <= dim ->
  WindefGpu.pad_axis (grid_axis ((dim - ws) / (ws - ov) + 1) ws ov) dim ws ov
    = Ok (a0, a1, p) ->
  r < dim ->
  let step := inject_Z (Z.of_nat ws - Z.of_nat ov) in
  (0 <= (inject_Z (Z.of_nat r) - nth 0 p 0) / step)%Q /\
  ((inject_Z (Z.of_nat r) - nth 0 p 0) / step
   <= inject_Z (Z.of_nat (length p)) - 1)%Q.
Proof.
  intros Hov Hws Hpad Hr step.
  destruct (pad_axis_grid dim ws ov Hov Hws) as (b0 & b1 & Hpad' & Hb0 & Hb1).
  cbv zeta in Hpad'. rewrite Hpad in Hpad'.
  injection Hpad' as -> -> ->. fold step.
  set (n := (dim - ws) / (ws - ov) + 1) in *.
  assert (Hn : 0 < n) by (subst n; lia).
  assert (Hstep : (0 < step)%Q).
  { subst step. change 0%Q with (inject_Z 0). rewrite <- Zlt_Qlt. lia. }
  set (f := nth 0 (grid_axis n ws ov) 0%Q) in *.
  set (lst := last (grid_axis n ws ov) 0%Q) in *.
  rewrite pad_before_first by exact Hb0.
  rewrite !length_app, length_pad_before, length_pad_after, length_grid_axis.
  pose proof (ceiling_times_step f step Hstep) as Hc0.
  pose proof (ceiling_times_step
                (inject_Z (Z.of_nat dim) - lst - 1)%Q step Hstep) as Hc1.
  (* the counts are the ceilings *)
  assert (E0 : Qceiling (f / step) = b0 /\
               Qceiling ((inject_Z (Z.of_nat dim) - lst - 1) / step) = b1).
  { unfold WindefGpu.pad_axis, py_index, WindefGpu.py_last,
      WindefGpu.int_ceil in Hpad.
    subst f lst. destruct (grid_axis n ws ov) as [|g0 rest] eqn:Hg.
    - pose proof (length_grid_axis n ws ov) as Hl. rewrite Hg in Hl.
      cbn in Hl. lia.
    - cbn [nth_error rbind nth] in Hpad. fold step in Hpad.
      injection Hpad as E0 E1 _. split; assumption. }
  destruct E0 as [E0 E1]. rewrite E0 in Hc0. rewrite E1 in Hc1.
  (* the first and the last centre *)
  assert (Hf : f = (inject_Z (Z.of_nat (0 * (ws - ov)))
                    + inject_Z (Z.of_nat ws) / 2)%Q).
  { subst f. apply nth_grid_axis. exact Hn. }
  assert (Hl : lst = (inject_Z (Z.of_nat ((n - 1) * (ws - ov)))
                      + inject_Z (Z.of_nat ws) / 2)%Q).
  { subst lst. rewrite last_nth, length_grid_axis.
    apply nth_grid_axis. lia. }
  assert (Hspan : (inject_Z (Z.of_nat ((n - 1) * (ws - ov)))
                   == (inject_Z (Z.of_nat n) - 1) * step)%Q).
  { subst step. change 1%Q with (inject_Z 1).
    unfold Qminus. rewrite <- inject_Z_opp, <- !inject_Z_plus, <- inject_Z_mult.
    apply inject_Z_injective. lia. }
  assert (Hlen : (inject_Z (Z.of_nat (Z.to_nat b0 + (n + Z.to_nat b1)))
                  == inject_Z b0 + inject_Z (Z.of_nat n) + inject_Z b1)%Q).
  { rewrite <- !inject_Z_plus. apply inject_Z_injective. lia. }
  assert (Hr' : (inject_Z (Z.of_nat r) <= inject_Z (Z.of_nat dim) - 1)%Q).
  { change 1%Q with (inject_Z 1). unfold Qminus.
    rewrite <- inject_Z_opp, <- inject_Z_plus, <- Zle_Qle. lia. }
  assert (Hr0 : (0 <= inject_Z (Z.of_nat r))%Q).
  { change 0%Q with (inject_Z 0). rewrite <- Zle_Qle. lia. }
  rewrite Hlen. clear Hlen E0 E1 Hpad.
  rewrite Hf in Hc0. rewrite Hl in Hc1.
  cbn [Nat.mul] in Hf, Hc0. change (inject_Z (Z.of_nat 0)) with 0%Q in Hf, Hc0.
  rewrite Hspan in Hc1.
  clearbody f lst step. subst f lst.
  revert Hc0 Hc1 Hr' Hr0.
  generalize (inject_Z (Z.of_nat ws)), (inject_Z (Z.of_nat dim)),
    (inject_Z (Z.of_nat n)), (inject_Z (Z.of_nat r)), (inject_Z b0),
    (inject_Z b1).
  intros w d qn qr q0 q1 Hc0 Hc1 Hr' Hr0.
  unfold Qdiv in Hc0, Hc1. change (/ 2)%Q with (1 # 2)%Q in *.
  split.
  - apply Qle_shift_div_l; [exact Hstep|].
    unfold Qdiv. change (/ 2)%Q with (1 # 2)%Q. lra.
  - apply Qle_shift_div_r; [exact Hstep|].
    unfold Qdiv. change (/ 2)%Q with (1 # 2)%Q. lra.
Qed.

(** X15.  The padding of the GPU pass keeps the deformer inside the coarse
    field.  The deformer reads the field resampled by [predict] at the
    coordinates [((row - y[0,0]) / step, (col - x[0,0]) / step)]; for every
    pixel of the frame these lie between 0 and the last index of that
    field on either axis, so the zero fill of [mode='constant'] is never
    what the deformer reads. *)
Theorem gpu_deformer_reads_inside_the_field `{Collaborators}
    (frame_a : ndarray Q) (i : nat) (x_old y_old : ndarray Q)
    (u_old v_old : field) (s : PIVSettings) (ws ov : nat)
    (y_add x_add : Z * Z) (x y u_pre v_pre : ndarray Q) :
  WindefGpu.predict frame_a i x_old y_old u_old v_old s
    = Ok (ws, ov, y_add, x_add, x, y, u_pre, v_pre) ->
  forall r c, r < nrows frame_a -> c < ncols frame_a ->
    reads_inside x y u_pre ws ov r c /\ reads_inside x y v_pre ws ov r c.
Proof.
  intros Hpred r c Hr Hc.
  apply gpu_predict_ok in Hpred.
  destruct Hpred as (n_rows & n_cols & yo & xo & y_pad & x_pad & _ & _
                     & Hshape & _ & _ & _ & _ & _ & _ & Hpy & Hpx & Hgrid
                     & -> & ->).
  destruct frame_a as [h w fa]. cbn [nrows ncols] in *.
  pose proof (get_field_shape_ok _ _ _ _ _ _ Hshape)
    as (Hov & Hh & Hw & -> & ->).
  unfold meshgrid in Hgrid. injection Hgrid as -> ->.
  pose proof (padded_axis_indexes h ws ov _ _ _ r Hov Hh Hpy Hr) as [Hy0 Hy1].
  pose proof (padded_axis_indexes w ws ov _ _ _ c Hov Hw Hpx Hc) as [Hx0 Hx1].
  unfold reads_inside, spline_on_grid. cbn [nrows ncols item].
  cbv zeta in *. auto 10.
Qed.

(** Pass 1 of two in the small world. *)
Lemma gpu_deformer_reads_inside_the_field_witness :
  exists p,
    @WindefGpu.predict (Demo.world Demo.quiet) Demo.ramp 1
      DemoRuns.coarse_x DemoRuns.coarse_y DemoRuns.at_rest DemoRuns.at_rest
      DemoRuns.two_passes = Ok p /\
    let '(ws, ov, _, _, x, y, u_pre, _) := p in
    forall r c, r < 8 -> c < 8 -> reads_inside x y u_pre ws ov r c.
Proof.
  apply ok_then; [vm_compute; exact I|].
  intros [[[[[[[ws ov] ya] xa] x] y] up] vp] Hpred r c Hr Hc.
  exact (proj1 (@gpu_deformer_reads_inside_the_field (Demo.world Demo.quiet)
                  Demo.ramp 1 DemoRuns.coarse_x DemoRuns.coarse_y
                  DemoRuns.at_rest DemoRuns.at_rest DemoRuns.two_passes
                  ws ov ya xa x y up vp Hpred r c Hr Hc)).
Defined.
